(** * gitkot: the feed cursor of [useGitHub] and the search client of [lib/github]

    A shallow embedding of the TypeScript sources

      - [src/lib/github.ts]: [getSearchCriterias], [buildSearchQuery],
        [fetchRepositoriesPage] (what the cursor depends on of it, and in
        [Client] the whole of it: the address, the calls of [fetch], the
        subscriber counts);
      - [src/hooks/useGitHub.ts]: [loadSeenRepositories],
        [saveSeenRepositories], [getNextSearchParams], [tryFetchWithParams],
        the [queryFn] that ties them together, the options [getNextPageParam]
        and [retry], and the queries of [fetchMore].

    Modelling conventions.

      - A JavaScript string is a Rocq [string]: a sequence of 8-bit
        characters, read as the bytes of the text.  The characters JSON
        treats specially (quote, backslash, the controls below U+0020, the
        digits and the punctuation) are all ASCII.
      - A JavaScript number is an integer [Z]; the page numbers and counts of
        this program are small non-negative integers, for which JavaScript
        arithmetic and printing agree with [Z].  They agree for the safe
        integers, up to [MAX_SAFE_INTEGER]: beyond them the engine rounds an
        integer that a text writes to the nearest double, and [Z] does not,
        so what is stated of the numbers of a stored text is stated for safe
        integers ([store_safe]).  A number that JSON text writes with a
        fraction or an exponent is kept as its text.
      - A JavaScript object is the list of its own properties in insertion
        order (the names of this program are never array indices, which
        JavaScript would order first); a [Set] is the list of its elements in
        insertion order.
      - [localStorage], [Math.random] and the network are the environment:
        the stored value is a field of the [world], the other two are
        oracles indexed by the number of calls made so far.
      - [getNextSearchParams] always returns and is a total function here.
        [tryFetchWithParams] need not return: it takes the number of calls it
        may make and answers [None] when they are used up.
      - The cursor is typed: its store is a [SeenRepositories].  The source
        runs on whatever value [JSON.parse] returns; [queryFn] follows it
        when that value is a store ([as_store]), and what is stated of the
        answer of a query is stated for such a stored item. *)

From Stdlib Require Import List ZArith Lia Bool Arith.
From Stdlib Require Import Ascii String DecimalString.
From Stdlib Require DecimalPos.
From Equations Require Import Equations.
Import ListNotations.

Local Open Scope string_scope.
Local Open Scope list_scope.
Local Open Scope Z_scope.

Set Implicit Arguments.
#[local] Set Warnings "-register-all".

(* ===================================================================== *)
(** * Strings *)
(* ===================================================================== *)

(** [String.prototype.includes]: [pat] occurs somewhere in [s]. *)
Fixpoint includes (pat s : string) : bool :=
  String.prefix pat s ||
  match s with
  | EmptyString => false
  | String _ s' => includes pat s'
  end.

(** [Array.prototype.join]. *)
Fixpoint join (sep : string) (parts : list string) : string :=
  match parts with
  | [] => ""
  | [p] => p
  | p :: ps => (p ++ sep ++ join sep ps)%string
  end.

(** Decimal text of an integer, as [String(n)] and template literals print it. *)
Definition string_of_Z (z : Z) : string :=
  NilZero.string_of_int (Z.to_int z).

(* ===================================================================== *)
(** * JSON text: [JSON.stringify] *)
(* ===================================================================== *)

Module JSON.

(** The values JSON text denotes. *)
Inductive json : Type :=
| JNull
| JBool (b : bool)
| JNum (z : Z)
| JReal (literal : string)  (* a number written with a fraction or an exponent *)
| JStr (s : string)
| JArr (elements : list json)
| JObj (members : list (string * json)).

Definition hex_digit (n : nat) : ascii :=
  nth n ["0"; "1"; "2"; "3"; "4"; "5"; "6"; "7";
         "8"; "9"; "a"; "b"; "c"; "d"; "e"; "f"]%char "0"%char.

Definition dquote : ascii := ascii_of_nat 34.

(** One character of a quoted string (ECMAScript QuoteJSONString). *)
Definition escape_char (c : ascii) : string :=
  let n := nat_of_ascii c in
  if Nat.eqb n 34 then String "\" (String dquote "")
  else if Nat.eqb n 92 then "\\"
  else if Nat.eqb n 8 then "\b"
  else if Nat.eqb n 12 then "\f"
  else if Nat.eqb n 10 then "\n"
  else if Nat.eqb n 13 then "\r"
  else if Nat.eqb n 9 then "\t"
  else if Nat.ltb n 32 then
    String "\" (String "u" (String "0" (String "0"
      (String (hex_digit (Nat.div n 16)) (String (hex_digit (Nat.modulo n 16)) "")))))
  else String c "".

Fixpoint escape (s : string) : string :=
  match s with
  | EmptyString => ""
  | String c s' => (escape_char c ++ escape s')%string
  end.

Definition quote (s : string) : string :=
  String dquote (escape s ++ String dquote "")%string.

(** The lexical units of JSON text. *)
Inductive token : Type :=
| TLBrace | TRBrace | TLBrack | TRBrack | TColon | TComma
| TTrue | TFalse | TNull
| TNum (z : Z)
| TReal (literal : string)
| TStr (s : string).

(** Groups of tokens separated by commas. *)
Definition commas (groups : list (list token)) : list token :=
  match groups with
  | [] => []
  | g :: gs => g ++ flat_map (fun g' => TComma :: g') gs
  end.

Fixpoint tokens (j : json) : list token :=
  match j with
  | JNull => [TNull]
  | JBool true => [TTrue]
  | JBool false => [TFalse]
  | JNum z => [TNum z]
  | JReal lit => [TReal lit]
  | JStr s => [TStr s]
  | JArr l => TLBrack :: commas (map tokens l) ++ [TRBrack]
  | JObj l =>
      TLBrace :: commas (map (fun kv => TStr (fst kv) :: TColon :: tokens (snd kv)) l)
        ++ [TRBrace]
  end.

Definition token_text (t : token) : string :=
  match t with
  | TLBrace => "{" | TRBrace => "}"
  | TLBrack => "[" | TRBrack => "]"
  | TColon => ":" | TComma => ","
  | TTrue => "true" | TFalse => "false" | TNull => "null"
  | TNum z => string_of_Z z
  | TReal lit => lit
  | TStr s => quote s
  end.

Fixpoint render (ts : list token) : string :=
  match ts with
  | [] => ""
  | t :: ts' => (token_text t ++ render ts')%string
  end.

(** [JSON.stringify] without indentation: the tokens of the value, written
    one after the other with nothing in between. *)
Definition print (j : json) : string := render (tokens j).

(** ** [JSON.parse]: from text to tokens *)

Local Open Scope string_scope.

Definition is_digit (c : ascii) : bool :=
  let n := nat_of_ascii c in Nat.leb 48 n && Nat.leb n 57.

Definition is_space (c : ascii) : bool :=
  let n := nat_of_ascii c in
  Nat.eqb n 32 || Nat.eqb n 9 || Nat.eqb n 10 || Nat.eqb n 13.

(** The longest prefix of digits, and what follows it. *)
Fixpoint span_digits (s : string) : string * string :=
  match s with
  | EmptyString => ("", "")
  | String c s' =>
      if is_digit c
      then let (d, r) := span_digits s' in (String c d, r)
      else ("", s)
  end.

Definition Z_of_digits (d : string) : Z :=
  match NilEmpty.uint_of_string d with
  | Some u => Z.of_uint u
  | None => 0
  end.

(** The integer part of a number: a lone [0], or digits that start with
    another digit than [0]. *)
Definition lex_int_part (s : string) : option (string * string) :=
  match s with
  | EmptyString => None
  | String c s' =>
      if Ascii.eqb c "0" then Some ("0", s')
      else if is_digit c then Some (span_digits s)
      else None
  end.

(** An optional fraction: a dot and at least one digit. *)
Definition lex_fraction (s : string) : option (string * string) :=
  match s with
  | String c s' =>
      if Ascii.eqb c "." then
        match span_digits s' with
        | (EmptyString, _) => None
        | (d, r) => Some (String c d, r)
        end
      else Some ("", s)
  | EmptyString => Some ("", s)
  end.

(** An optional exponent: [e] or [E], an optional sign, at least one digit. *)
Definition lex_exponent (s : string) : option (string * string) :=
  match s with
  | String c s' =>
      if Ascii.eqb c "e" || Ascii.eqb c "E" then
        let (sign, s'') :=
          match s' with
          | String c' r =>
              if Ascii.eqb c' "+" || Ascii.eqb c' "-"
              then (String c' "", r) else ("", s')
          | EmptyString => ("", s')
          end in
        match span_digits s'' with
        | (EmptyString, _) => None
        | (d, r) => Some (String c (sign ++ d), r)
        end
      else Some ("", s)
  | EmptyString => Some ("", s)
  end.

(** A number.  One written with digits only is an integer; one with a
    fraction or an exponent is kept as its text.  The integer is the one the
    digits write: it is the number the engine reads when it is a safe
    integer, and beyond that the engine reads the nearest double. *)
Definition strip_minus (s : string) : bool * string :=
  match s with
  | String c s' => if Ascii.eqb c "-" then (true, s') else (false, s)
  | EmptyString => (false, s)
  end.

Definition lex_number (s : string) : option (token * string) :=
  let (minus, s1) := strip_minus s in
  match lex_int_part s1 with
  | None => None
  | Some (digits, s2) =>
      match lex_fraction s2 with
      | None => None
      | Some (fraction, s3) =>
          match lex_exponent s3 with
          | None => None
          | Some (exponent, s4) =>
              match fraction, exponent with
              | EmptyString, EmptyString =>
                  Some (TNum (if minus then - Z_of_digits digits
                              else Z_of_digits digits), s4)
              | _, _ =>
                  Some (TReal ((if minus then "-" else "")
                               ++ digits ++ fraction ++ exponent), s4)
              end
          end
      end
  end.

Definition hex_value (c : ascii) : option nat :=
  let n := nat_of_ascii c in
  if Nat.leb 48 n && Nat.leb n 57 then Some (n - 48)%nat
  else if Nat.leb 97 n && Nat.leb n 102 then Some (n - 87)%nat
  else if Nat.leb 65 n && Nat.leb n 70 then Some (n - 55)%nat
  else None.

Definition hex4 (a b c d : ascii) : option nat :=
  match hex_value a, hex_value b, hex_value c, hex_value d with
  | Some x, Some y, Some z, Some t => Some (((x * 16 + y) * 16 + z) * 16 + t)%nat
  | _, _, _, _ => None
  end.

(** The bytes of the code unit [n] (UTF-8). *)
Definition code_unit_bytes (n : nat) : string :=
  if Nat.ltb n 128 then String (ascii_of_nat n) ""
  else if Nat.ltb n 2048 then
    String (ascii_of_nat (192 + n / 64))
      (String (ascii_of_nat (128 + n mod 64)) "")
  else
    String (ascii_of_nat (224 + n / 4096))
      (String (ascii_of_nat (128 + (n / 64) mod 64))
         (String (ascii_of_nat (128 + n mod 64)) "")).

(** The character a one-letter escape stands for. *)
Definition unescape (c : ascii) : option ascii :=
  let n := nat_of_ascii c in
  if Nat.eqb n 34 then Some c
  else if Nat.eqb n 92 then Some c
  else if Nat.eqb n 47 then Some c
  else if Ascii.eqb c "b" then Some (ascii_of_nat 8)
  else if Ascii.eqb c "f" then Some (ascii_of_nat 12)
  else if Ascii.eqb c "n" then Some (ascii_of_nat 10)
  else if Ascii.eqb c "r" then Some (ascii_of_nat 13)
  else if Ascii.eqb c "t" then Some (ascii_of_nat 9)
  else None.

Definition prepend (p : string) (r : option (string * string))
  : option (string * string) :=
  match r with
  | Some (s, rest) => Some (p ++ s, rest)
  | None => None
  end.

(** The inside of a string, after its opening quote: its content and what
    follows the closing quote. *)
Fixpoint lex_string (s : string) : option (string * string) :=
  match s with
  | EmptyString => None
  | String c r =>
      if Ascii.eqb c dquote then Some ("", r)
      else if Ascii.eqb c "\" then
        match r with
        | EmptyString => None
        | String e r' =>
            if Ascii.eqb e "u" then
              match r' with
              | String h1 (String h2 (String h3 (String h4 r''))) =>
                  match hex4 h1 h2 h3 h4 with
                  | Some n => prepend (code_unit_bytes n) (lex_string r'')
                  | None => None
                  end
              | _ => None
              end
            else
              match unescape e with
              | Some c' => prepend (String c' "") (lex_string r')
              | None => None
              end
        end
      else if Nat.ltb (nat_of_ascii c) 32 then None
      else prepend (String c "") (lex_string r)
  end.

(** [s] without the prefix [p], when it starts with it. *)
Fixpoint strip_prefix (p s : string) : option string :=
  match p, s with
  | EmptyString, _ => Some s
  | String a p', String b s' => if Ascii.eqb a b then strip_prefix p' s' else None
  | String _ _, EmptyString => None
  end.

Definition then_token (t : token) (r : option (list token)) : option (list token) :=
  match r with
  | Some ts => Some (t :: ts)
  | None => None
  end.

(** The tokens of a text.  Every token takes at least one character, so
    [fuel] above the length of the text is never used up. *)
Fixpoint lex (fuel : nat) (s : string) : option (list token) :=
  match fuel with
  | O => None
  | S fuel' =>
      match s with
      | EmptyString => Some []
      | String c r =>
          if is_space c then lex fuel' r
          else if Ascii.eqb c "{" then then_token TLBrace (lex fuel' r)
          else if Ascii.eqb c "}" then then_token TRBrace (lex fuel' r)
          else if Ascii.eqb c "[" then then_token TLBrack (lex fuel' r)
          else if Ascii.eqb c "]" then then_token TRBrack (lex fuel' r)
          else if Ascii.eqb c ":" then then_token TColon (lex fuel' r)
          else if Ascii.eqb c "," then then_token TComma (lex fuel' r)
          else if Ascii.eqb c dquote then
            match lex_string r with
            | Some (str, r') => then_token (TStr str) (lex fuel' r')
            | None => None
            end
          else if Ascii.eqb c "-" || is_digit c then
            match lex_number s with
            | Some (t, r') => then_token t (lex fuel' r')
            | None => None
            end
          else if Ascii.eqb c "t" then
            match strip_prefix "true" s with
            | Some r' => then_token TTrue (lex fuel' r')
            | None => None
            end
          else if Ascii.eqb c "f" then
            match strip_prefix "false" s with
            | Some r' => then_token TFalse (lex fuel' r')
            | None => None
            end
          else if Ascii.eqb c "n" then
            match strip_prefix "null" s with
            | Some r' => then_token TNull (lex fuel' r')
            | None => None
            end
          else None
      end
  end.

(** ** [JSON.parse]: from tokens to a value *)

(** Defining a property twice keeps its first place and its last value. *)
Fixpoint member_put (k : string) (v : json) (ms : list (string * json))
  : list (string * json) :=
  match ms with
  | [] => [(k, v)]
  | (k', v') :: ms' =>
      if String.eqb k k' then (k', v) :: ms' else (k', v') :: member_put k v ms'
  end.

Definition object_of (members : list (string * json)) : list (string * json) :=
  fold_left (fun acc kv => member_put (fst kv) (snd kv) acc) members [].

(** A value; the rest of an array after an element; the rest of an object
    after a member.  Each call takes at least one token. *)
Fixpoint parse_value (fuel : nat) (ts : list token) : option (json * list token) :=
  match fuel with
  | O => None
  | S fuel' =>
      match ts with
      | TNull :: r => Some (JNull, r)
      | TTrue :: r => Some (JBool true, r)
      | TFalse :: r => Some (JBool false, r)
      | TNum z :: r => Some (JNum z, r)
      | TReal lit :: r => Some (JReal lit, r)
      | TStr s :: r => Some (JStr s, r)
      | TLBrack :: TRBrack :: r => Some (JArr [], r)
      | TLBrack :: r =>
          match parse_value fuel' r with
          | Some (v, r1) =>
              match parse_elements fuel' r1 with
              | Some (vs, r2) => Some (JArr (v :: vs), r2)
              | None => None
              end
          | None => None
          end
      | TLBrace :: TRBrace :: r => Some (JObj [], r)
      | TLBrace :: TStr k :: TColon :: r =>
          match parse_value fuel' r with
          | Some (v, r1) =>
              match parse_members fuel' r1 with
              | Some (ms, r2) => Some (JObj (object_of ((k, v) :: ms)), r2)
              | None => None
              end
          | None => None
          end
      | _ => None
      end
  end
with parse_elements (fuel : nat) (ts : list token) : option (list json * list token) :=
  match fuel with
  | O => None
  | S fuel' =>
      match ts with
      | TRBrack :: r => Some ([], r)
      | TComma :: r =>
          match parse_value fuel' r with
          | Some (v, r1) =>
              match parse_elements fuel' r1 with
              | Some (vs, r2) => Some (v :: vs, r2)
              | None => None
              end
          | None => None
          end
      | _ => None
      end
  end
with parse_members (fuel : nat) (ts : list token)
  : option (list (string * json) * list token) :=
  match fuel with
  | O => None
  | S fuel' =>
      match ts with
      | TRBrace :: r => Some ([], r)
      | TComma :: TStr k :: TColon :: r =>
          match parse_value fuel' r with
          | Some (v, r1) =>
              match parse_members fuel' r1 with
              | Some (ms, r2) => Some ((k, v) :: ms, r2)
              | None => None
              end
          | None => None
          end
      | _ => None
      end
  end.

(** [JSON.parse(text)] without a reviver; [None] is a [SyntaxError]. *)
Definition parse (text : string) : option json :=
  match lex (S (String.length text)) text with
  | None => None
  | Some ts =>
      match parse_value (S (List.length ts)) ts with
      | Some (j, []) => Some j
      | _ => None
      end
  end.

(** ** What the facts about printing and parsing are stated with *)

(** The text cannot continue a number. *)
Definition number_end (rest : string) : bool :=
  match rest with
  | EmptyString => true
  | String c _ =>
      negb (is_digit c || Ascii.eqb c "." || Ascii.eqb c "e" || Ascii.eqb c "E")
  end.

(** What may follow a number in a text without blanks: nothing, or a token
    that is not a number. *)
Definition not_a_number (ts : list token) : bool :=
  match ts with
  | TNum _ :: _ | TReal _ :: _ => false
  | _ => true
  end.

(** The tokens can be written one after the other and read back: no number
    kept as text, and no number right after a number. *)
Fixpoint lexable (ts : list token) : bool :=
  match ts with
  | [] => true
  | TReal _ :: _ => false
  | TNum _ :: ts' => not_a_number ts' && lexable ts'
  | _ :: ts' => lexable ts'
  end.

(** No name twice. *)
Fixpoint distinct (l : list string) : bool :=
  match l with
  | [] => true
  | k :: l' => negb (existsb (String.eqb k) l') && distinct l'
  end.

(** The values whose text is read back as themselves: no number kept as
    text, and no name twice in an object. *)
Fixpoint printable (j : json) : bool :=
  match j with
  | JReal _ => false
  | JArr l => forallb printable l
  | JObj l => distinct (map fst l) && forallb (fun kv => printable (snd kv)) l
  | _ => true
  end.

(** The first token of a value does not close anything. *)
Definition opens_value (ts : list token) : bool :=
  match ts with
  | TNull :: _ | TTrue :: _ | TFalse :: _ | TNum _ :: _ | TStr _ :: _
  | TLBrack :: _ | TLBrace :: _ => true
  | _ => false
  end.

(** An element and a member after the first, with the comma before them. *)
Definition element_tokens (x : json) : list token := TComma :: tokens x.

Definition member_tokens (kv : string * json) : list token :=
  TStr (fst kv) :: TColon :: tokens (snd kv).

(** The tokens of [j], followed by anything, are parsed as [j]. *)
Definition parsed_back (j : json) : Prop :=
  printable j = true ->
  forall fuel rest, (List.length (tokens j) < fuel)%nat ->
  parse_value fuel (tokens j ++ rest) = Some (j, rest).

(** The tokens of [j] can be written before any tokens that can. *)
Definition lexed_back (j : json) : Prop :=
  printable j = true ->
  forall rest, not_a_number rest = true -> lexable rest = true ->
  lexable (tokens j ++ rest) = true.

End JSON.

Import JSON.

(* ===================================================================== *)
(** * JavaScript values and the two JSON callbacks of the hook *)
(* ===================================================================== *)

(** The values [JSON.parse] with the reviver of [loadSeenRepositories] can
    build, and the ones [saveSeenRepositories] serialises. *)
Inductive jsval : Type :=
| VNull
| VBool (b : bool)
| VNum (z : Z)
| VReal (literal : string)
| VStr (s : string)
| VArr (elements : list jsval)
| VObj (props : list (string * jsval))
| VSet (elements : list jsval).

(** [JSON.stringify(seen, (_, value) => value instanceof Set ?
    Array.from(value) : value)]: the replacer is applied to every property
    before it is serialised, so a [Set] at any depth is written as the array
    of its elements in insertion order. *)
Fixpoint replace_sets (v : jsval) : json :=
  match v with
  | VNull => JNull
  | VBool b => JBool b
  | VNum z => JNum z
  | VReal lit => JReal lit
  | VStr s => JStr s
  | VArr l => JArr (map replace_sets l)
  | VObj l => JObj (map (fun kv => (fst kv, replace_sets (snd kv))) l)
  | VSet l => JArr (map replace_sets l)
  end.

(** [SameValueZero], the equality of [Set].  An object or an array is equal
    to itself only, and the ones [JSON.parse] builds are all distinct. *)
Definition same_value_zero (a b : jsval) : bool :=
  match a, b with
  | VNull, VNull => true
  | VBool x, VBool y => Bool.eqb x y
  | VNum x, VNum y => x =? y
  | VReal x, VReal y => String.eqb x y
  | VStr x, VStr y => String.eqb x y
  | _, _ => false
  end.

Definition value_set_add (v : jsval) (s : list jsval) : list jsval :=
  if existsb (same_value_zero v) s then s else s ++ [v].

(** The set of the values an iteration yields, first occurrences first. *)
Definition set_of_list (l : list jsval) : list jsval :=
  fold_left (fun acc v => value_set_add v acc) l [].

(** Modelled from the spec: of the error classes of [lib/errors.ts], which
    is not among the sources, the spec names the failures of a fetch
    ([RateLimitExceeded], [InvalidToken], [CeilingExceeded], [Other]);
    [lib/github.ts] constructs [RateLimitExceededError],
    [OnlyFirst1000ResultsError] and [InvalidTokenError] with a message, and each
    is taken to extend [Error], whose [message] is that string.  [TypeError]
    and [SyntaxError] are the built-in classes. *)
Inductive error_class : Type :=
| Error
| RateLimitExceededError
| OnlyFirst1000ResultsError
| InvalidTokenError
| TypeError
| SyntaxError.

(** The outcome of a call into the engine: a value, or an error of the engine
    (its message is implementation-defined and left out). *)
Inductive loaded (A : Type) : Type :=
| Loaded (a : A)
| Raised (c : error_class).
Arguments Loaded {A} a.
Arguments Raised {A} c.

(** [new Set(value)]: an array gives its elements, a string its characters
    (here its 8-bit characters), [null] nothing; a number, a boolean or a
    plain object is not iterable. *)
Definition new_Set (value : jsval) : loaded jsval :=
  match value with
  | VArr l => Loaded (VSet (set_of_list l))
  | VSet l => Loaded (VSet (set_of_list l))
  | VStr s =>
      Loaded (VSet (set_of_list
                      (map (fun c => VStr (String c "")) (list_ascii_of_string s))))
  | VNull => Loaded (VSet [])
  | VBool _ | VNum _ | VReal _ | VObj _ => Raised TypeError
  end.

(** The reviver of [loadSeenRepositories]:
    [(key, value) => key === 'seenPages' ? new Set(value) : value]. *)
Definition reviver (key : string) (value : jsval) : loaded jsval :=
  if String.eqb key "seenPages" then new_Set value else Loaded value.

(** [JSON.parse] with that reviver, after the text is parsed: the reviver is
    called on every property, the innermost first, and on the root under the
    empty key. *)
Fixpoint internalize (key : string) (j : json) : loaded jsval :=
  match j with
  | JNull => reviver key VNull
  | JBool b => reviver key (VBool b)
  | JNum z => reviver key (VNum z)
  | JReal lit => reviver key (VReal lit)
  | JStr s => reviver key (VStr s)
  | JArr l =>
      let fix elements (i : nat) (l : list json) : loaded (list jsval) :=
        match l with
        | [] => Loaded []
        | x :: l' =>
            match internalize (string_of_Z (Z.of_nat i)) x with
            | Raised c => Raised c
            | Loaded v =>
                match elements (S i) l' with
                | Raised c => Raised c
                | Loaded vs => Loaded (v :: vs)
                end
            end
        end in
      match elements O l with
      | Raised c => Raised c
      | Loaded vs => reviver key (VArr vs)
      end
  | JObj l =>
      let fix members (l : list (string * json)) : loaded (list (string * jsval)) :=
        match l with
        | [] => Loaded []
        | (k, x) :: l' =>
            match internalize k x with
            | Raised c => Raised c
            | Loaded v =>
                match members l' with
                | Raised c => Raised c
                | Loaded vs => Loaded ((k, v) :: vs)
                end
            end
        end in
      match members l with
      | Raised c => Raised c
      | Loaded vs => reviver key (VObj vs)
      end
  end.

(** [loadSeenRepositories], given the item of [localStorage] ([None] when
    [getItem] answers [null]): the empty object when there is no item or an
    empty one, and otherwise whatever [JSON.parse] does with it. *)
Definition loadSeenRepositories (stored : option string) : loaded jsval :=
  match stored with
  | None => Loaded (VObj [])
  | Some text =>
      if String.eqb text "" then Loaded (VObj [])
      else
        match JSON.parse text with
        | None => Raised SyntaxError
        | Some j => internalize "" j
        end
  end.

Fixpoint internalize_elements (i : nat) (l : list json) : loaded (list jsval) :=
  match l with
  | [] => Loaded []
  | x :: l' =>
      match internalize (string_of_Z (Z.of_nat i)) x with
      | Raised c => Raised c
      | Loaded v =>
          match internalize_elements (S i) l' with
          | Raised c => Raised c
          | Loaded vs => Loaded (v :: vs)
          end
      end
  end.

Fixpoint internalize_members (l : list (string * json))
  : loaded (list (string * jsval)) :=
  match l with
  | [] => Loaded []
  | (k, x) :: l' =>
      match internalize k x with
      | Raised c => Raised c
      | Loaded v =>
          match internalize_members l' with
          | Raised c => Raised c
          | Loaded vs => Loaded ((k, v) :: vs)
          end
      end
  end.

Definition is_set (v : jsval) : bool :=
  match v with
  | VSet _ => true
  | _ => false
  end.

(** Every property named [seenPages], at any depth, holds a [Set]. *)
Fixpoint seenPages_are_sets (v : jsval) : bool :=
  match v with
  | VArr l => forallb seenPages_are_sets l
  | VSet l => forallb seenPages_are_sets l
  | VObj l =>
      forallb (fun kv =>
                 (if String.eqb (fst kv) "seenPages" then is_set (snd kv) else true)
                 && seenPages_are_sets (snd kv)) l
  | _ => true
  end.

Definition revived_with_sets (j : json) : Prop :=
  forall key v, internalize key j = Loaded v ->
  seenPages_are_sets v = true /\
  (String.eqb key "seenPages" = true -> is_set v = true).

(* ===================================================================== *)
(** * [lib/github.ts]: search criteria *)
(* ===================================================================== *)

(** A [SearchCriteria] object: its own properties in insertion order.  The
    value [None] is [undefined], which [{ ...criteria, language: language ||
    undefined }] stores when no language is selected.  The type declares
    [stars], [language] and [created]. *)
Definition SearchCriteria : Type := list (string * option string).

(** [criteria.name]: [undefined] when the property is absent. *)
Fixpoint prop_get (name : string) (o : SearchCriteria) : option string :=
  match o with
  | [] => None
  | (k, v) :: o' => if String.eqb name k then v else prop_get name o'
  end.

(** Writing a property in an object literal or by assignment: an existing
    property keeps its place, a new one goes last. *)
Fixpoint prop_set (name : string) (v : option string) (o : SearchCriteria)
  : SearchCriteria :=
  match o with
  | [] => [(name, v)]
  | (k, v') :: o' =>
      if String.eqb name k then (k, v) :: o' else (k, v') :: prop_set name v o'
  end.

(** The properties [JSON.stringify] writes: those that are not [undefined]. *)
Fixpoint defined_props (o : SearchCriteria) : list (string * json) :=
  match o with
  | [] => []
  | (k, Some v) :: o' => (k, JStr v) :: defined_props o'
  | (_, None) :: o' => defined_props o'
  end.

(** [JSON.stringify(criteria)], the index of the seen store. *)
Definition criteria_key (c : SearchCriteria) : string :=
  print (JObj (defined_props c)).

Inductive FeedType : Type := random | new.

Definition PER_PAGE : Z := 10.
Definition MAX_PAGES : Z := 100.

(** [getSearchCriterias].  [weekAgo] is the ISO date of seven days before the
    call, which the source reads from the clock. *)
Definition getSearchCriterias (weekAgo : string) (feedType : FeedType)
  : list SearchCriteria :=
  match feedType with
  | new => [[("stars", Some ">10"); ("created", Some (">" ++ weekAgo)%string)]]
  | random =>
      [[("stars", Some "700...2000")]]
      ++ map (fun k =>
                let i := 2000 * Z.of_nat k in
                [("stars", Some (string_of_Z i ++ "..." ++ string_of_Z (i + 2000))%string)])
             (seq 1 24)
      ++ [[("stars", Some ">50000")]]
  end.

(** A value inside a template literal. *)
Definition template (v : option string) : string :=
  match v with Some s => s | None => "undefined" end.

(** Truthiness of an optional string property. *)
Definition truthy_string (v : option string) : bool :=
  match v with
  | Some s => negb (String.eqb s "")
  | None => false
  end.

Definition buildSearchQuery (criteria : SearchCriteria) : string :=
  let parts := [("stars:" ++ template (prop_get "stars" criteria))%string] in
  let parts :=
    if truthy_string (prop_get "language" criteria)
    then parts ++ [("language:" ++ template (prop_get "language" criteria))%string]
    else parts in
  let parts :=
    if truthy_string (prop_get "created" criteria)
    then parts ++ [("created:" ++ template (prop_get "created" criteria))%string]
    else parts in
  join " " parts.

Record FetchRepositoriesParams : Type := mkParams {
  criteria : SearchCriteria;
  page : Z
}.

(** The hook calls the same record [PageParam]. *)
Definition PageParam : Type := FetchRepositoriesParams.

(** The fields of a repository the cursor touches. *)
Record Repository : Type := mkRepository {
  id : Z;
  full_name : string
}.

Record SearchResponse : Type := mkSearchResponse {
  total_count : Z;
  items : list Repository
}.

(** A thrown error object: every value thrown on the paths modelled here is
    an instance of [Error]. *)
Record js_error : Type := mkError {
  err_class : error_class;
  err_message : string
}.

Inductive completion (A : Type) : Type :=
| Return (a : A)
| Throw (e : js_error).
Arguments Return {A} a.
Arguments Throw {A} e.

(** What the request sent by [fetch] carries: the query, the sort key, the
    page and the page size ([order] is always [desc]). *)
Record request : Type := mkRequest {
  req_query : string;
  req_sort : string;
  req_page : Z;
  req_per_page : Z
}.

(** What the network answers: the promise rejects, or a response arrives with
    a status and, when the status is a success, the parsed body.  With a saved
    token the source then rewrites each item with its subscriber count; that
    changes neither [total_count] nor the number of items, and a rejection
    there is a rejection of the whole call. *)
Inductive net_outcome : Type :=
| NetRejects (e : js_error)
| NetResponds (status : Z) (data : SearchResponse).

Definition response_ok (status : Z) : bool :=
  (200 <=? status) && (status <=? 299).

Definition rate_limit_error : js_error :=
  mkError RateLimitExceededError
    "Rate limit exceeded. Please add a GitHub token for extended access or try again later.".

Definition only_first_1000_error : js_error :=
  mkError OnlyFirst1000ResultsError "Only first 1000 search results are available".

Definition invalid_token_error : js_error :=
  mkError InvalidTokenError
    "Invalid token, please check your GitHub token and try again.".

Definition page_cap_error : js_error :=
  mkError Error "Only first 1000 results are available".

Definition failed_fetch_error : js_error :=
  mkError Error "Failed to fetch repositories".

Definition request_of (params : FetchRepositoriesParams) : request :=
  let query := buildSearchQuery (criteria params) in
  let isNewFeed := match prop_get "created" (criteria params) with
                   | Some _ => true | None => false end in
  let sortParam := if isNewFeed then "created" else "stars" in
  mkRequest query sortParam (page params) PER_PAGE.

(** [fetchRepositoriesPage], given the answer of the network to the request
    (which is not consulted when the page is beyond the cap). *)
Definition fetchRepositoriesPage (params : FetchRepositoriesParams)
    (network : request -> net_outcome) : completion SearchResponse :=
  if page params >? MAX_PAGES then Throw page_cap_error
  else
    match network (request_of params) with
    | NetRejects e => Throw e
    | NetResponds status data =>
        if negb (response_ok status) then
          if status =? 403 then Throw rate_limit_error
          else if status =? 422 then Throw only_first_1000_error
          else if status =? 401 then Throw invalid_token_error
          else Throw failed_fetch_error
        else Return data
    end.

(** The names of the properties [JSON.stringify] writes, in their order. *)
Definition written_names (c : SearchCriteria) : list string :=
  map fst (defined_props c).

(** ** The address of the search request *)

Definition GITHUB_API_BASE : string := "https://api.github.com".

(** The characters [encodeURIComponent] leaves as they are: the letters, the
    digits and the marks [- _ . ! ~ * ' ( )]. *)
Definition uri_unreserved (c : ascii) : bool :=
  let n := nat_of_ascii c in
  (Nat.leb 65 n && Nat.leb n 90) || (Nat.leb 97 n && Nat.leb n 122)
  || (Nat.leb 48 n && Nat.leb n 57)
  || existsb (Ascii.eqb c) ["-"; "_"; "."; "!"; "~"; "*"; "'"; "("; ")"]%char.

Definition upper_hex_digit (n : nat) : ascii :=
  nth n ["0"; "1"; "2"; "3"; "4"; "5"; "6"; "7";
         "8"; "9"; "A"; "B"; "C"; "D"; "E"; "F"]%char "0"%char.

(** A byte written as a percent sign and two hexadecimal digits. *)
Definition percent_encoded (c : ascii) : string :=
  let n := nat_of_ascii c in
  String "%" (String (upper_hex_digit (Nat.div n 16))
                (String (upper_hex_digit (Nat.modulo n 16)) "")).

(** [encodeURIComponent]: every byte of the text (its UTF-8 encoding) that is
    not an unreserved character is percent-encoded. *)
Fixpoint encodeURIComponent (s : string) : string :=
  match s with
  | EmptyString => ""
  | String c s' =>
      ((if uri_unreserved c then String c "" else percent_encoded c)
       ++ encodeURIComponent s')%string
  end.

(** The [url] that [fetchRepositoriesPage] hands to [fetch]. *)
Definition search_url (params : FetchRepositoriesParams) : string :=
  let query := buildSearchQuery (criteria params) in
  let isNewFeed := match prop_get "created" (criteria params) with
                   | Some _ => true | None => false end in
  let sortParam := if isNewFeed then "created" else "stars" in
  (GITHUB_API_BASE ++ "/search/repositories?q=" ++ encodeURIComponent query
   ++ "&sort=" ++ sortParam ++ "&order=desc&page=" ++ string_of_Z (page params)
   ++ "&per_page=" ++ string_of_Z PER_PAGE)%string.

(** ** [fetchRepositoriesPage] with its calls of [fetch]

    [fetchRepositoriesPage] above keeps of the function what the cursor
    depends on.  Here is the whole of it: the calls of [fetch] it makes, with
    their [Authorization] header, and the subscriber counts it adds to the
    repositories when a token is saved in [localStorage]. *)

Module Client.

(** A JavaScript object of the response: its properties in their order.
    [None] is [undefined]. *)
Definition js_object : Type := list (string * jsval).

Fixpoint obj_get (name : string) (o : js_object) : option jsval :=
  match o with
  | [] => None
  | (k, v) :: o' => if String.eqb name k then Some v else obj_get name o'
  end.

(** [{ ...o, name: v }]: a property that [o] has keeps its place. *)
Fixpoint obj_set (name : string) (v : jsval) (o : js_object) : js_object :=
  match o with
  | [] => [(name, v)]
  | (k, v') :: o' =>
      if String.eqb name k then (k, v) :: o' else (k, v') :: obj_set name v o'
  end.

(** A call of [fetch]: the resource, and the [Authorization] header when the
    second argument has one. *)
Record fetch_call : Type := mkFetch {
  resource : option jsval;
  authorization : option string
}.

(** The body of a search response, as its type declares it; the repositories
    are objects with any properties. *)
Record search_data : Type := mkData {
  data_total_count : Z;
  data_items : list js_object
}.

(** What the search request comes to: [fetch] (or [response.json()])
    rejects, or a response arrives with a status and a body. *)
Inductive search_outcome : Type :=
| SearchRejects (e : js_error)
| SearchResponds (status : Z) (data : search_data).

(** What a request for the details of a repository comes to: [fetch] (or
    [detailsResponse.json()]) rejects, the response is not [ok], or it is and
    has a body. *)
Inductive details_outcome : Type :=
| DetailsReject (e : js_error)
| DetailsNotOk
| DetailsOk (details : jsval).

(** The second argument of [fetch]:
    [token ? { headers: { Authorization: `token ${token}` } } : undefined]. *)
Definition request_init (token : option string) : option string :=
  if truthy_string token then Some ("token " ++ template token)%string else None.

(** [Promise.all]: the values of the promises in their order, or a rejection
    when one rejects.  Which rejection comes out when several promises reject
    is a matter of timing; the first in the order of the list is taken here. *)
Fixpoint promise_all {A} (l : list (completion A)) : completion (list A) :=
  match l with
  | [] => Return []
  | Throw e :: _ => Throw e
  | Return a :: l' =>
      match promise_all l' with
      | Return rest => Return (a :: rest)
      | Throw e => Throw e
      end
  end.

(** [array.map(f)], with the index of each element. *)
Fixpoint map_indexed {A B} (f : nat -> A -> B) (i : nat) (l : list A) : list B :=
  match l with
  | [] => []
  | a :: l' => f i a :: map_indexed f (S i) l'
  end.

Section Engine.

(** Whether the number that a literal with a fraction or an exponent denotes
    is zero, and the message of the [TypeError] for a property read off
    [null]: both are the engine's. *)
Variable denotes_zero : string -> bool.
Variable type_error_message : string.

(** Truthiness of a value. *)
Definition truthy (v : jsval) : bool :=
  match v with
  | VNull => false
  | VBool b => b
  | VNum z => negb (z =? 0)
  | VReal literal => negb (denotes_zero literal)
  | VStr s => negb (String.eqb s "")
  | VArr _ | VObj _ | VSet _ => true
  end.

(** [details.subscribers_count || 0].  Reading the property off [null]
    throws; a value that is not an object has no such property. *)
Definition subscribers_count_of (details : jsval) : completion jsval :=
  match details with
  | VNull => Throw (mkError TypeError type_error_message)
  | VObj o =>
      Return (match obj_get "subscribers_count" o with
              | Some v => if truthy v then v else VNum 0
              | None => VNum 0
              end)
  | _ => Return (VNum 0)
  end.

(** The function mapped over the repositories: the call of [fetch] it makes
    and the repository it resolves to. *)
Definition with_subscribers (token : option string)
    (details_network : nat -> fetch_call -> details_outcome)
    (i : nat) (repo : js_object) : fetch_call * completion js_object :=
  let call := mkFetch (obj_get "url" repo) (request_init token) in
  (call,
   match details_network i call with
   | DetailsReject e => Throw e
   | DetailsNotOk => Return (obj_set "subscribers_count" VNull repo)
   | DetailsOk details =>
       match subscribers_count_of details with
       | Throw e => Throw e
       | Return count => Return (obj_set "subscribers_count" count repo)
       end
   end).

(** [fetchRepositoriesPage({ criteria, page }, token)]: the calls of [fetch]
    made, in their order, and what the promise comes to.  [savedToken] is the
    item [github_token] of [localStorage]. *)
Definition fetchRepositoriesPage (params : FetchRepositoriesParams)
    (token savedToken : option string)
    (search_network : fetch_call -> search_outcome)
    (details_network : nat -> fetch_call -> details_outcome)
  : list fetch_call * completion search_data :=
  if page params >? MAX_PAGES then ([], Throw page_cap_error)
  else
    let call := mkFetch (Some (VStr (search_url params))) (request_init token) in
    match search_network call with
    | SearchRejects e => ([call], Throw e)
    | SearchResponds status data =>
        if negb (response_ok status) then
          ([call],
           if status =? 403 then Throw rate_limit_error
           else if status =? 422 then Throw only_first_1000_error
           else if status =? 401 then Throw invalid_token_error
           else Throw failed_fetch_error)
        else if truthy_string savedToken then
          let repositoriesWithSubscribers :=
            map_indexed (with_subscribers token details_network) O
              (data_items data) in
          (call :: map fst repositoriesWithSubscribers,
           match promise_all (map snd repositoriesWithSubscribers) with
           | Throw e => Throw e
           | Return items => Return (mkData (data_total_count data) items)
           end)
        else ([call], Return data)
    end.

End Engine.

(** What the cursor keeps of a repository and of a response. *)
Definition repository_of (repo : js_object) : Repository :=
  mkRepository
    (match obj_get "id" repo with Some (VNum z) => z | _ => 0 end)
    (match obj_get "full_name" repo with Some (VStr s) => s | _ => "" end).

Definition response_of (data : search_data) : SearchResponse :=
  mkSearchResponse (data_total_count data) (map repository_of (data_items data)).

Definition outcome_of (o : search_outcome) : net_outcome :=
  match o with
  | SearchRejects e => NetRejects e
  | SearchResponds status data => NetResponds status (response_of data)
  end.

(** The address of a request, and the network of the cursor that a network
    of [fetch] calls gives. *)
Definition url_of (r : request) : string :=
  (GITHUB_API_BASE ++ "/search/repositories?q=" ++ encodeURIComponent (req_query r)
   ++ "&sort=" ++ req_sort r ++ "&order=desc&page=" ++ string_of_Z (req_page r)
   ++ "&per_page=" ++ string_of_Z (req_per_page r))%string.

Definition network_of (token : option string)
    (search_network : fetch_call -> search_outcome) (r : request) : net_outcome :=
  outcome_of (search_network (mkFetch (Some (VStr (url_of r))) (request_init token))).

End Client.

(** The number of times a character occurs in a text. *)
Fixpoint occurrences (c : ascii) (s : string) : nat :=
  match s with
  | EmptyString => O
  | String c' s' => ((if Ascii.eqb c c' then 1 else 0) + occurrences c s')%nat
  end.

(** Reading a percent-encoded text back, byte by byte. *)
Fixpoint percent_decoded (s : string) : string :=
  match s with
  | EmptyString => ""
  | String c r =>
      if Ascii.eqb c "%" then
        match r with
        | String h1 (String h2 r') =>
            match hex_value h1, hex_value h2 with
            | Some x, Some y =>
                String (ascii_of_nat (x * 16 + y)) (percent_decoded r')
            | _, _ => String c (percent_decoded r)
            end
        | _ => String c (percent_decoded r)
        end
      else String c (percent_decoded r)
  end.

(* ===================================================================== *)
(** * [hooks/useGitHub.ts]: the seen store *)
(* ===================================================================== *)

(** A [Set<number>]: its elements in insertion order, without repetition. *)
Definition set_has (p : Z) (s : list Z) : bool := existsb (Z.eqb p) s.

Definition set_add (p : Z) (s : list Z) : list Z :=
  if set_has p s then s else s ++ [p].

(** One entry of [SeenRepositories]; [totalPages = None] is [null]. *)
Record FeedProgress : Type := mkProgress {
  seenPages : list Z;
  totalPages : option Z;
  exhausted : bool
}.

(** The [SeenRepositories] object: its entries in insertion order. *)
Definition SeenRepositories : Type := list (string * FeedProgress).

(** [seen[key]]; [None] is [undefined]. *)
Fixpoint seen_get (key : string) (s : SeenRepositories) : option FeedProgress :=
  match s with
  | [] => None
  | (k, d) :: s' => if String.eqb key k then Some d else seen_get key s'
  end.

(** [seen[key] = data]. *)
Fixpoint seen_set (key : string) (data : FeedProgress) (s : SeenRepositories)
  : SeenRepositories :=
  match s with
  | [] => [(key, data)]
  | (k, d) :: s' =>
      if String.eqb key k then (k, data) :: s' else (k, d) :: seen_set key data s'
  end.

(** The store as the JavaScript value it is. *)
Definition progress_value (d : FeedProgress) : jsval :=
  VObj [("seenPages", VSet (map VNum (seenPages d)));
        ("totalPages", match totalPages d with Some t => VNum t | None => VNull end);
        ("exhausted", VBool (exhausted d))].

Definition store_value (s : SeenRepositories) : jsval :=
  VObj (map (fun kd => (fst kd, progress_value (snd kd))) s).

(** The store a JavaScript value is, when it has the shape of
    [SeenRepositories] that [store_value] writes. *)
Definition as_pages (l : list jsval) : option (list Z) :=
  fold_right (fun v acc =>
                match v, acc with
                | VNum z, Some zs => Some (z :: zs)
                | _, _ => None
                end) (Some []) l.

Definition as_progress (v : jsval) : option FeedProgress :=
  match v with
  | VObj [(k1, VSet pages); (k2, total); (k3, VBool e)] =>
      if String.eqb k1 "seenPages" && String.eqb k2 "totalPages"
         && String.eqb k3 "exhausted" then
        match as_pages pages, total with
        | Some ps, VNum t => Some (mkProgress ps (Some t) e)
        | Some ps, VNull => Some (mkProgress ps None e)
        | _, _ => None
        end
      else None
  | _ => None
  end.

Definition as_store (v : jsval) : option SeenRepositories :=
  match v with
  | VObj l =>
      fold_right (fun kv acc =>
                    match as_progress (snd kv), acc with
                    | Some d, Some s => Some ((fst kv, d) :: s)
                    | _, _ => None
                    end) (Some []) l
  | _ => None
  end.

(** The text [saveSeenRepositories] hands to [localStorage.setItem]. *)
Definition serialize (s : SeenRepositories) : string :=
  print (replace_sets (store_value s)).

(** The part of the environment the hook reads and writes.

    [seen] is the object [loadSeenRepositories] returned, shared by
    [getNextSearchParams] and [tryFetchWithParams] and mutated in place;
    [stored] is the item of [localStorage] under [SEEN_STORAGE_KEY] ([None]
    when there is none).  The last three fields are ghost counters: the calls
    of [Math.random], of [fetchRepositoriesPage] and of
    [getNextSearchParams] made so far. *)
Record world : Type := mkWorld {
  seen : SeenRepositories;
  stored : option string;
  draws : nat;
  attempts : nat;
  selections : nat
}.

Definition set_seen (s : SeenRepositories) (w : world) : world :=
  mkWorld s (stored w) (draws w) (attempts w) (selections w).
Definition set_stored (v : option string) (w : world) : world :=
  mkWorld (seen w) v (draws w) (attempts w) (selections w).
Definition count_draw (w : world) : world :=
  mkWorld (seen w) (stored w) (S (draws w)) (attempts w) (selections w).
Definition count_attempt (w : world) : world :=
  mkWorld (seen w) (stored w) (draws w) (S (attempts w)) (selections w).
Definition count_selection (w : world) : world :=
  mkWorld (seen w) (stored w) (draws w) (attempts w) (S (selections w)).

(** [saveSeenRepositories(seen)]. *)
Definition saveSeenRepositories (s : SeenRepositories) (w : world) : world :=
  set_stored (Some (serialize s)) w.

(** [!seenData.totalPages] for a number or [null]. *)
Definition falsy_number (n : option Z) : bool :=
  match n with
  | None => true
  | Some t => t =? 0
  end.

(** The loop [for (page = 1; page <= effectiveTotalPages; page++)] of
    [getNextSearchParams]: the first page that the set does not hold. *)
Definition first_unseen (effectiveTotalPages : Z) (pages : list Z) : option Z :=
  find (fun p => negb (set_has p pages))
       (map Z.of_nat (seq 1 (Z.to_nat effectiveTotalPages))).

(** [Math.ceil(n / 10)] for an integer [n]. *)
Definition ceil_div10 (n : Z) : Z := (n + 9) / 10.

Record QueryResponse : Type := mkQueryResponse {
  q_total_count : Z;
  q_items : list (Repository * string);  (* each item with its [searchCriteria] *)
  nextPage : PageParam
}.

(** The stores of the data model: an entry per criteria key, each with a set
    of pages. *)
Definition store_wf (s : SeenRepositories) : Prop :=
  NoDup (map fst s) /\
  forall key d, In (key, d) s ->
    (exists c, key = criteria_key c) /\ NoDup (seenPages d).

(** The stores that are written and read back as themselves: no key twice,
    no entry under the name [seenPages], no page twice in an entry. *)
Definition store_ok (s : SeenRepositories) : Prop :=
  NoDup (map fst s) /\
  forall key d, In (key, d) s ->
    String.eqb key "seenPages" = false /\ NoDup (seenPages d).

(** [Number.MAX_SAFE_INTEGER], and the integers that a double holds exactly
    together with their neighbours ([Number.isSafeInteger]). *)
Definition MAX_SAFE_INTEGER : Z := 2 ^ 53 - 1.

Definition safe_integer (z : Z) : Prop :=
  - MAX_SAFE_INTEGER <= z <= MAX_SAFE_INTEGER.

(** The stores whose numbers are all safe integers: the text of such a store
    is read by the engine as it is read here. *)
Definition store_safe (s : SeenRepositories) : Prop :=
  forall key d, In (key, d) s ->
    Forall safe_integer (seenPages d) /\
    match totalPages d with
    | Some t => safe_integer t
    | None => True
    end.

(** The stores whose numbers are within bounds: every page count is between
    0 and [MAX_PAGES], every seen page between 1 and [MAX_PAGES]. *)
Definition store_bounded (s : SeenRepositories) : Prop :=
  forall key d, seen_get key s = Some d ->
    (exists t, totalPages d = Some t /\ 0 <= t <= MAX_PAGES) /\
    forall p, set_has p (seenPages d) = true -> 1 <= p <= MAX_PAGES.

(** The [retry] option of the query:
    [(failureCount, error) => !error.message.includes('Rate limit exceeded')
    && failureCount < 3]. *)
Definition retry (failureCount : Z) (error : js_error) : bool :=
  negb (includes "Rate limit exceeded" (err_message error)) && (failureCount <? 3).

(** The [getNextPageParam] option of the query. *)
Definition getNextPageParam (lastPage : QueryResponse) : PageParam :=
  nextPage lastPage.

(** What [tryFetchWithParams] returns for a response with results. *)
Definition answer (params : PageParam) (response : SearchResponse) : QueryResponse :=
  let criteriaKey := criteria_key (criteria params) in
  mkQueryResponse
    (total_count response)
    (map (fun repo => (repo, criteriaKey)) (items response))
    (mkParams (criteria params) (page params + 1)).

(** The world after the branch of [tryFetchWithParams] for a response with
    results has updated and saved the store. *)
Definition record_results (params : PageParam) (response : SearchResponse)
    (w : world) : world :=
  let criteriaKey := criteria_key (criteria params) in
  let totalPages_ := Z.min (ceil_div10 (total_count response)) MAX_PAGES in
  let seenData :=
    match seen_get criteriaKey (seen w) with
    | Some d => d
    | None => mkProgress [] (Some totalPages_) false
    end in
  let pages := set_add (page params) (seenPages seenData) in
  let seenData :=
    mkProgress pages (totalPages seenData)
      (Z.of_nat (List.length pages) >=? totalPages_) in
  let w := set_seen (seen_set criteriaKey seenData (seen w)) w in
  saveSeenRepositories (seen w) w.

(* ===================================================================== *)
(** * Inputs of the runs below *)
(* ===================================================================== *)

Definition bucket_low : SearchCriteria := [("stars", Some "700...2000")].
Definition bucket_top : SearchCriteria := [("stars", Some ">50000")].
Definition two_buckets : list SearchCriteria := [bucket_low; bucket_top].
Definition default_space : list SearchCriteria :=
  getSearchCriterias "2024-01-01" random.
Definition empty_world : world := mkWorld [] None 0 0 0.
Definition a_repository : Repository := mkRepository 1 "kamranahmedse/gitkot".
Definition no_results : SearchResponse := mkSearchResponse 0 [].
Definition results_25 : SearchResponse := mkSearchResponse 25 [a_repository].

(** The first request is answered 401, the later ones with 25 results. *)
Definition token_rejected_once (k : nat) (_ : request) : net_outcome :=
  match k with
  | O => NetResponds 401 no_results
  | S _ => NetResponds 200 results_25
  end.


(** Every request is answered 403. *)
Definition rate_limited (_ : nat) (_ : request) : net_outcome :=
  NetResponds 403 no_results.

(** The first two requests find nothing, the later ones 25 results. *)
Definition dry_twice (k : nat) (_ : request) : net_outcome :=
  match k with
  | O | S O => NetResponds 200 no_results
  | _ => NetResponds 200 results_25
  end.

(** Every request finds 25 results. *)
Definition serves_25 (_ : nat) (_ : request) : net_outcome :=
  NetResponds 200 results_25.

(** Every request finds nothing. *)
Definition always_dry (_ : nat) (_ : request) : net_outcome :=
  NetResponds 200 no_results.

Definition first_index (_ : nat) : nat := 0%nat.
Definition second_index (_ : nat) : nat := 1%nat.

(** A store in which page 1 of the low bucket is seen, of three pages. *)
Definition low_started : SeenRepositories :=
  [(criteria_key bucket_low, mkProgress [1] (Some 3) false)].

Definition world_low_started : world :=
  mkWorld low_started (Some (serialize low_started)) 0 0 0.

(** Both buckets exhausted. *)
Definition both_exhausted : SeenRepositories :=
  [(criteria_key bucket_low, mkProgress [1] (Some 1) true);
   (criteria_key bucket_top, mkProgress [] (Some 0) true)].

Definition world_both_exhausted : world :=
  mkWorld both_exhausted (Some (serialize both_exhausted)) 0 0 0.

Definition pages_135 : SeenRepositories :=
  [(criteria_key [("stars", Some "700...2000")], mkProgress [1; 3; 5] (Some 7) false)].

Definition stars_then_language : SearchCriteria :=
  [("stars", Some ">10"); ("language", Some "Go")].
Definition language_then_stars : SearchCriteria :=
  [("language", Some "Go"); ("stars", Some ">10")].

(** Every request for a page within the cap finds 25 results, the others are
    answered 500. *)
Definition serves_25_within_the_cap (_ : nat) (r : request) : net_outcome :=
  if req_page r >? MAX_PAGES then NetResponds 500 no_results
  else NetResponds 200 results_25.

(** A stored text in which an entry holds a page twice. *)
Definition stored_with_a_page_twice : string :=
  print (JObj [(criteria_key bucket_low,
                JObj [("seenPages", JArr [JNum 1; JNum 1; JNum 2]);
                      ("totalPages", JNum 3);
                      ("exhausted", JBool false)])]).

(** A repository as the search answers it, the search that finds it, and
    the details that count 42 subscribers. *)
Definition gitkot : Client.js_object :=
  [("id", VNum 1);
   ("full_name", VStr "kamranahmedse/gitkot");
   ("url", VStr "https://api.github.com/repos/kamranahmedse/gitkot")].

Definition finds_gitkot (_ : Client.fetch_call) : Client.search_outcome :=
  Client.SearchResponds 200 (Client.mkData 1 [gitkot]).

Definition counts_42 (_ : nat) (_ : Client.fetch_call) : Client.details_outcome :=
  Client.DetailsOk (VObj [("subscribers_count", VNum 42)]).

Definition no_reals (_ : string) : bool := false.

(* ===================================================================== *)
(** * [hooks/useGitHub.ts]: the cursor *)
(* ===================================================================== *)

Section Cursor.

(** [SEARCH_CRITERIAS] is imported by the hook from [lib/github], whose
    source here exports [getSearchCriterias] instead: the constant is a
    parameter of the development. *)
Variable SEARCH_CRITERIAS : list SearchCriteria.

(** The [language] option of [useGitHub] ([None] is [null]). *)
Variable language : option string.

(** [Math.floor(Math.random() * n)] is [Math_random k mod n] at the [k]-th
    draw: every index below [n] can come out. *)
Variable Math_random : nat -> nat.

(** The answer of the network at the [k]-th call of [fetchRepositoriesPage]. *)
Variable network : nat -> request -> net_outcome.

(** [language || undefined]. *)
Definition language_or_undefined : option string :=
  if truthy_string language then language else None.

(** [{ ...criteria, language: language || undefined }]. *)
Definition with_language (c : SearchCriteria) : SearchCriteria :=
  prop_set "language" language_or_undefined c.

(** [seen[JSON.stringify(criteria)]?.exhausted], as a condition. *)
Definition is_exhausted (s : SeenRepositories) (c : SearchCriteria) : bool :=
  match seen_get (criteria_key c) s with
  | Some d => exhausted d
  | None => false
  end.

Definition availableCriterias (s : SeenRepositories) : list SearchCriteria :=
  filter (fun c => negb (is_exhausted s c)) (map with_language SEARCH_CRITERIAS).

(** One pass through the body of [getNextSearchParams]: the value it returns
    ([inl]), or the world in which it calls itself again ([inr]). *)
Definition select_step (w0 : world) : (PageParam * world) + world :=
  let w := count_selection w0 in
  let available := availableCriterias (seen w) in
  if Nat.eqb (List.length available) 0 then
    inl (mkParams (with_language (nth 0 SEARCH_CRITERIAS [])) 1, set_stored None w)
  else
    let index := Nat.modulo (Math_random (draws w)) (List.length available) in
    let w := count_draw w in
    let criteria := nth index available [] in
    let criteriaKey := criteria_key criteria in
    match seen_get criteriaKey (seen w) with
    | None => inl (mkParams criteria 1, w)
    | Some seenData =>
        if falsy_number (totalPages seenData) then inl (mkParams criteria 1, w)
        else
          let effectiveTotalPages :=
            Z.min (match totalPages seenData with Some t => t | None => 0 end)
                  MAX_PAGES in
          match first_unseen effectiveTotalPages (seenPages seenData) with
          | Some page => inl (mkParams criteria page, w)
          | None =>
              let seenData :=
                mkProgress (seenPages seenData) (totalPages seenData) true in
              let w := set_seen (seen_set criteriaKey seenData (seen w)) w in
              inr (saveSeenRepositories (seen w) w)
          end
    end.

(** ** [getNextSearchParams] terminates *)

Lemma seen_get_set_same key d s : seen_get key (seen_set key d s) = Some d.
Proof.
  induction s as [|[k d'] s IH]; simpl.
  - now rewrite String.eqb_refl.
  - destruct (String.eqb key k) eqn:E; simpl; rewrite E; auto.
Qed.

Lemma seen_get_set_other key key' d s :
  key' <> key -> seen_get key' (seen_set key d s) = seen_get key' s.
Proof.
  intros N. induction s as [|[k d'] s IH]; simpl.
  - destruct (String.eqb_spec key' key); congruence.
  - destruct (String.eqb_spec key k); simpl.
    + subst k. destruct (String.eqb_spec key' key); congruence.
    + now rewrite IH.
Qed.

Lemma filter_length_lt {A} (f g : A -> bool) (l : list A) (x : A) :
  (forall y, g y = true -> f y = true) ->
  In x l -> f x = true -> g x = false ->
  (List.length (filter g l) < List.length (filter f l))%nat.
Proof.
  intros Hgf Hin Hf Hg.
  assert (Hle : forall l', (List.length (filter g l') <= List.length (filter f l'))%nat).
  { induction l' as [|y l' IH]; simpl; [lia|].
    destruct (g y) eqn:Eg.
    - rewrite (Hgf _ Eg). simpl. lia.
    - destruct (f y); simpl; lia. }
  induction l as [|y l IH]; simpl; [contradiction|].
  destruct Hin as [-> | Hin].
  - rewrite Hf, Hg. simpl. specialize (Hle l). lia.
  - specialize (IH Hin). destruct (g y) eqn:Eg.
    + rewrite (Hgf _ Eg). simpl. lia.
    + destruct (f y); simpl; lia.
Qed.

(** A recursive call of [getNextSearchParams] sees strictly fewer available
    criteria: the one just chosen is now exhausted. *)
Lemma select_step_decreases w w' :
  select_step w = inr w' ->
  (List.length (availableCriterias (seen w')) < List.length (availableCriterias (seen w)))%nat.
Proof.
  unfold select_step. cbn [seen count_selection count_draw draws].
  destruct (Nat.eqb_spec (List.length (availableCriterias (seen w))) 0) as [|Hlen];
    [discriminate|].
  set (c := nth _ (availableCriterias (seen w)) []).
  destruct (seen_get (criteria_key c) (seen w)) as [d|] eqn:Hget; [|discriminate].
  destruct (falsy_number (totalPages d)); [discriminate|].
  destruct (first_unseen _ _); [discriminate|].
  intros [= <-]. cbn [seen saveSeenRepositories set_stored set_seen].
  assert (Hin : In c (availableCriterias (seen w))).
  { apply nth_In. apply Nat.mod_upper_bound. exact Hlen. }
  unfold availableCriterias in *.
  apply filter_In in Hin. destruct Hin as [Hin Hav].
  apply filter_length_lt with (x := c); auto.
  - intros y. unfold is_exhausted.
    destruct (String.eqb_spec (criteria_key y) (criteria_key c)) as [E|N].
    + rewrite E, seen_get_set_same. discriminate.
    + now rewrite seen_get_set_other.
  - unfold is_exhausted. now rewrite seen_get_set_same.
Qed.

(** A value together with the equation that it is what was computed. *)
Definition inspect {A} (a : A) : {b : A | a = b} := exist _ a eq_refl.

(** [getNextSearchParams(seen)]: the result and the world it leaves. *)
Equations getNextSearchParams (w : world) : PageParam * world
  by wf (List.length (availableCriterias (seen w))) lt :=
getNextSearchParams w with inspect (select_step w) := {
  | @exist (inl r) _ => r
  | @exist (inr w') H => getNextSearchParams w' }.
Next Obligation.
  now apply select_step_decreases.
Qed.

(** [tryFetchWithParams(params)].  The function calls itself after a fetch
    without results and after an error, and nothing bounds the number of
    calls: [fuel] is the number of calls allowed, and [None] says that they
    were all used before a result or an error came out. *)
Fixpoint tryFetchWithParams (fuel : nat) (params : PageParam) (w : world)
  : option (completion QueryResponse) * world :=
  match fuel with
  | O => (None, w)
  | S fuel' =>
      let criteriaKey := criteria_key (criteria params) in
      let outcome := fetchRepositoriesPage params (network (attempts w)) in
      let w := count_attempt w in
      match outcome with
      | Return response =>
          if total_count response =? 0 then
            let seenData :=
              match seen_get criteriaKey (seen w) with
              | Some d => d
              | None => mkProgress [] (Some 0) true
              end in
            let w := set_seen (seen_set criteriaKey seenData (seen w)) w in
            let w := saveSeenRepositories (seen w) w in
            let (nextParams, w) := getNextSearchParams w in
            tryFetchWithParams fuel' nextParams w
          else
            let totalPages_ :=  (* the local constant [totalPages] *)
              Z.min (ceil_div10 (total_count response)) MAX_PAGES in
            let seenData :=
              match seen_get criteriaKey (seen w) with
              | Some d => d
              | None => mkProgress [] (Some totalPages_) false
              end in
            let pages := set_add (page params) (seenPages seenData) in
            let seenData :=
              mkProgress pages (totalPages seenData)
                (Z.of_nat (List.length pages) >=? totalPages_) in
            let w := set_seen (seen_set criteriaKey seenData (seen w)) w in
            let w := saveSeenRepositories (seen w) w in
            (Some (Return
               (mkQueryResponse
                  (total_count response)
                  (map (fun repo => (repo, criteriaKey)) (items response))
                  (mkParams (criteria params) (page params + 1)))),
             w)
      | Throw error =>
          if includes "Rate limit exceeded" (err_message error)
          then (Some (Throw error), w)
          else
            let (nextParams, w) := getNextSearchParams w in
            tryFetchWithParams fuel' nextParams w
      end
  end.

(** The fallback of [tryFetchWithParams]: choose again, then fetch again. *)
Definition fallback (fuel : nat) (w : world)
  : option (completion QueryResponse) * world :=
  let (nextParams, w) := getNextSearchParams w in
  tryFetchWithParams fuel nextParams w.

(** What a call of [queryFn] comes to.  The source does not look at the
    shape of the value it loads.  With a value that is not a store (the text
    [null], say, or an object with a property that is not an entry) it goes
    on as JavaScript does with such a value, which the typed cursor does not
    follow: [NotAStore] marks these items, and is not an answer of the
    source. *)
Inductive query_result : Type :=
| Settled (c : completion QueryResponse)  (* the promise resolves or rejects *)
| LoadRaised (c : error_class)            (* [loadSeenRepositories] raised *)
| NotAStore      (* the value loaded is not a store: outside the cursor *)
| Unfinished.    (* the calls allowed were all used *)

(** [queryFn(context)]: load the store, take the page parameter of the
    context or choose one, and fetch. *)
Definition queryFn (fuel : nat) (pageParam : option PageParam) (w : world)
  : query_result * world :=
  match loadSeenRepositories (stored w) with
  | Raised c => (LoadRaised c, w)
  | Loaded v =>
      match as_store v with
      | None => (NotAStore, w)
      | Some s =>
          let w := set_seen s w in
          let (initialParams, w) :=
            match pageParam with
            | Some p => (p, w)
            | None => getNextSearchParams w
            end in
          match tryFetchWithParams fuel initialParams w with
          | (Some c, w) => (Settled c, w)
          | (None, w) => (Unfinished, w)
          end
      end
  end.

(** [fetchMore], [n] times over.  Each call has the query function run with
    the page parameter that [getNextPageParam] reads off the answer before
    it; the answers are returned in their order, and [None] when one of the
    queries does not return a page. *)
Fixpoint fetchMore (fuel : nat) (n : nat) (lastPage : QueryResponse) (w : world)
  : option (list QueryResponse) * world :=
  match n with
  | O => (Some [], w)
  | S n' =>
      match queryFn fuel (Some (getNextPageParam lastPage)) w with
      | (Settled (Return q), w') =>
          match fetchMore fuel n' q w' with
          | (Some qs, w'') => (Some (q :: qs), w'')
          | (None, w'') => (None, w'')
          end
      | (_, w') => (None, w')
      end
  end.

(** Every criteria of [SEARCH_CRITERIAS], with the language merged in, is
    marked exhausted in the store. *)
Definition all_exhausted (s : SeenRepositories) : Prop :=
  forall c, In c SEARCH_CRITERIAS -> is_exhausted s (with_language c) = true.

(** The page is among the seen pages of the criteria of [p]. *)
Definition page_seen (s : SeenRepositories) (p : PageParam) : bool :=
  match seen_get (criteria_key (criteria p)) s with
  | Some d => set_has (page p) (seenPages d)
  | None => false
  end.

(** Every entry that is not exhausted and has no page count ([null] or [0])
    has not seen page 1. *)
Definition probe_consistent (s : SeenRepositories) : Prop :=
  forall key d,
    seen_get key s = Some d ->
    exhausted d = false -> falsy_number (totalPages d) = true ->
    set_has 1 (seenPages d) = false.

(** The outcome of a fetch after which [tryFetchWithParams] returns or
    throws: the rate-limit phrase in the message of the error, or a page with
    results. *)
Definition terminal (o : completion SearchResponse) : bool :=
  match o with
  | Throw e => includes "Rate limit exceeded" (err_message e)
  | Return response => negb (total_count response =? 0)
  end.


(** The world after the branch [response.total_count === 0] has updated and
    saved the store. *)
Definition record_no_results (key : string) (w : world) : world :=
  let seenData :=
    match seen_get key (seen w) with
    | Some d => d
    | None => mkProgress [] (Some 0) true
    end in
  let w := set_seen (seen_set key seenData (seen w)) w in
  saveSeenRepositories (seen w) w.

(** ** Unfolding and induction *)

Lemma getNextSearchParams_eq w :
  getNextSearchParams w =
  match select_step w with
  | inl r => r
  | inr w' => getNextSearchParams w'
  end.
Proof.
  simp getNextSearchParams.
  destruct (inspect (select_step w)) as [[r|w'] H]; cbn; now rewrite H.
Qed.

(** Induction along the calls of [getNextSearchParams]. *)
Lemma getNextSearchParams_induction (P : world -> PageParam * world -> Prop) :
  (forall w r, select_step w = inl r -> P w r) ->
  (forall w w', select_step w = inr w' ->
                P w' (getNextSearchParams w') -> P w (getNextSearchParams w')) ->
  forall w, P w (getNextSearchParams w).
Proof.
  intros Hret Hrec.
  assert (H : forall n w, (List.length (availableCriterias (seen w)) < n)%nat ->
                          P w (getNextSearchParams w)).
  { induction n as [|n IH]; intros w Hn; [lia|].
    rewrite getNextSearchParams_eq.
    destruct (select_step w) as [r|w'] eqn:E.
    - now apply Hret.
    - apply Hrec; [exact E|]. apply IH.
      apply select_step_decreases in E. lia. }
  intros w. eapply H. apply Nat.lt_succ_diag_r.
Qed.

(** ** The catch clause *)

Lemma tryFetch_throw fuel params w e :
  fetchRepositoriesPage params (network (attempts w)) = Throw e ->
  tryFetchWithParams (S fuel) params w =
  if includes "Rate limit exceeded" (err_message e)
  then (Some (Throw e), count_attempt w)
  else fallback fuel (count_attempt w).
Proof.
  intros H. cbn [tryFetchWithParams]. rewrite H. reflexivity.
Qed.

(** C3. When the fetch fails with the rate-limit error, [tryFetchWithParams]
    rethrows that very error at once: the seen object and the stored item are
    what they were, and [getNextSearchParams] is not called (neither its call
    counter nor the count of random draws moves). *)
Theorem rate_limit_propagates_unchanged fuel params w :
  fetchRepositoriesPage params (network (attempts w)) = Throw rate_limit_error ->
  let (result, w') := tryFetchWithParams (S fuel) params w in
  result = Some (Throw rate_limit_error) /\
  seen w' = seen w /\ stored w' = stored w /\
  selections w' = selections w /\ draws w' = draws w /\
  attempts w' = S (attempts w).
Proof.
  intros H. rewrite (tryFetch_throw _ _ _ H). cbn. repeat split.
Qed.

(** C1, as the code has it.  An invalid-token failure is not terminal: its
    message lacks the rate-limit phrase, so [tryFetchWithParams] does not
    rethrow it.  The failing attempt itself leaves the seen object and the
    stored item as they were, and the function goes on with the parameters
    [getNextSearchParams] chooses next. *)
Theorem invalid_token_falls_back fuel params w :
  fetchRepositoriesPage params (network (attempts w)) = Throw invalid_token_error ->
  tryFetchWithParams (S fuel) params w = fallback fuel (count_attempt w) /\
  seen (count_attempt w) = seen w /\ stored (count_attempt w) = stored w.
Proof.
  intros H. rewrite (tryFetch_throw _ _ _ H). cbn. repeat split.
Qed.


(** ** Selection *)

Lemma all_exhausted_available s :
  all_exhausted s <-> availableCriterias s = [].
Proof.
  unfold all_exhausted, availableCriterias. split.
  - intros H. induction SEARCH_CRITERIAS as [|c l IH]; [reflexivity|].
    cbn. rewrite (H c (or_introl eq_refl)). cbn.
    apply IH. intros c' Hc'. apply H. now right.
  - intros H c Hc.
    destruct (is_exhausted s (with_language c)) eqn:E; [reflexivity|].
    assert (Hin : In (with_language c)
                     (filter (fun c => negb (is_exhausted s c))
                             (map with_language SEARCH_CRITERIAS))).
    { apply filter_In. split; [now apply in_map|now rewrite E]. }
    rewrite H in Hin. destruct Hin.
Qed.

Lemma select_step_reset w :
  availableCriterias (seen w) = [] ->
  select_step w =
  inl (mkParams (with_language (nth 0 SEARCH_CRITERIAS [])) 1,
       set_stored None (count_selection w)).
Proof.
  intros H. unfold select_step. cbn [seen count_selection]. now rewrite H.
Qed.

(** What the reset does.  When every criteria is exhausted,
    [getNextSearchParams] removes the stored item, so that a load made before
    anything is saved again reads the empty store, and returns page 1 of the
    first criteria (with the language merged in). *)
Lemma all_exhausted_resets_store w :
  all_exhausted (seen w) ->
  let (next, w') := getNextSearchParams w in
  next = mkParams (with_language (nth 0 SEARCH_CRITERIAS [])) 1 /\
  stored w' = None /\
  loadSeenRepositories (stored w') = Loaded (store_value []).
Proof.
  intros H. apply all_exhausted_available in H.
  rewrite getNextSearchParams_eq, (select_step_reset _ H). cbn. repeat split.
Qed.

(** What it does not do.  The object [seen] that the query holds is not
    emptied: it keeps every entry, each still exhausted, and the next save
    writes them all back. *)
Lemma reset_keeps_seen_object w :
  all_exhausted (seen w) -> seen (snd (getNextSearchParams w)) = seen w.
Proof.
  intros H. apply all_exhausted_available in H.
  now rewrite getNextSearchParams_eq, (select_step_reset _ H).
Qed.

Lemma first_unseen_spec eff pages p :
  first_unseen eff pages = Some p ->
  set_has p pages = false /\ 1 <= p <= eff.
Proof.
  unfold first_unseen. intros H. apply find_some in H. destruct H as [Hin Hn].
  split.
  - now destruct (set_has p pages).
  - apply in_map_iff in Hin. destruct Hin as [n [<- Hn']].
    apply in_seq in Hn'. lia.
Qed.

Lemma probe_consistent_mark s key d :
  probe_consistent s ->
  probe_consistent (seen_set key (mkProgress (seenPages d) (totalPages d) true) s).
Proof.
  intros H k d' Hget Hex Hf.
  destruct (String.eqb_spec k key) as [->|N].
  - rewrite seen_get_set_same in Hget. injection Hget as <-. discriminate.
  - rewrite seen_get_set_other in Hget by exact N. eapply H; eauto.
Qed.

Lemma select_step_marks w w' :
  select_step w = inr w' ->
  exists key d,
    seen_get key (seen w) = Some d /\
    seen w' = seen_set key (mkProgress (seenPages d) (totalPages d) true) (seen w).
Proof.
  unfold select_step. cbn [seen count_selection count_draw draws].
  destruct (Nat.eqb (List.length (availableCriterias (seen w))) 0); [discriminate|].
  destruct (seen_get _ (seen w)) as [d|] eqn:Hget; [|discriminate].
  destruct (falsy_number (totalPages d)); [discriminate|].
  destruct (first_unseen _ _); [discriminate|].
  intros [= <-]. eexists. exists d. split; [exact Hget|reflexivity].
Qed.

Lemma page_seen_mark key d s p :
  seen_get key s = Some d ->
  page_seen (seen_set key (mkProgress (seenPages d) (totalPages d) true) s) p
  = page_seen s p.
Proof.
  intros Hget. unfold page_seen.
  destruct (String.eqb_spec (criteria_key (criteria p)) key) as [->|N].
  - now rewrite seen_get_set_same, Hget.
  - now rewrite seen_get_set_other.
Qed.

(** C4, as the code has it.  In a store where an entry that is not exhausted
    and has no page count has not seen page 1, [getNextSearchParams] never
    returns a page that the entry of the returned criteria holds as seen (in
    the store it was given, and in the store it leaves), unless every
    criteria is exhausted and the stored item has just been removed. *)
Theorem selected_page_is_unseen w :
  probe_consistent (seen w) ->
  let (next, w') := getNextSearchParams w in
  (page_seen (seen w) next = false /\ page_seen (seen w') next = false) \/
  (availableCriterias (seen w') = [] /\ stored w' = None).
Proof.
  pattern w, (getNextSearchParams w). apply getNextSearchParams_induction;
    clear w.
  - intros w [next w'] Hstep Hpc. revert Hstep. unfold select_step.
    cbn [seen count_selection count_draw draws].
    destruct (Nat.eqb_spec (List.length (availableCriterias (seen w))) 0) as [Hlen|Hlen].
    + intros [= <- <-]. right. cbn. split; [|reflexivity].
      now destruct (availableCriterias (seen w)).
    + set (c := nth _ (availableCriterias (seen w)) []).
      assert (Hin : In c (availableCriterias (seen w))).
      { apply nth_In. apply Nat.mod_upper_bound. exact Hlen. }
      apply filter_In in Hin. destruct Hin as [_ Hav].
      unfold is_exhausted in Hav. clearbody c.
      destruct (seen_get (criteria_key c) (seen w)) as [d|] eqn:Hget.
      * destruct (falsy_number (totalPages d)) eqn:Hf.
        -- intros [= <- <-]. left. unfold page_seen.
           cbn [criteria page seen count_draw count_selection]. rewrite Hget.
           split; (apply (Hpc _ _ Hget); [|exact Hf]; now destruct (exhausted d)).
        -- destruct (first_unseen _ _) as [pg|] eqn:Hfu; [|discriminate].
           intros [= <- <-]. left. unfold page_seen.
           cbn [criteria page seen count_draw count_selection]. rewrite Hget.
           apply first_unseen_spec in Hfu. now split.
      * intros [= <- <-]. left. unfold page_seen.
        cbn [criteria page seen count_draw count_selection]. rewrite Hget.
        now split.
  - intros w w' Hstep IH Hpc.
    destruct (select_step_marks _ Hstep) as (key & d & Hget & Hseen).
    destruct (getNextSearchParams w') as [next w''].
    rewrite Hseen in IH.
    destruct IH as [[I1 I2]|I]; [now apply probe_consistent_mark| |now right].
    left. split; [|exact I2]. now rewrite page_seen_mark in I1.
Qed.

(** ** A fetch without results *)

Lemma tryFetch_no_results fuel params w response :
  fetchRepositoriesPage params (network (attempts w)) = Return response ->
  total_count response = 0 ->
  tryFetchWithParams (S fuel) params w =
  fallback fuel (record_no_results (criteria_key (criteria params)) (count_attempt w)).
Proof.
  intros H H0. cbn [tryFetchWithParams]. rewrite H, H0. reflexivity.
Qed.

Lemma seen_set_same_value key d s :
  seen_get key s = Some d -> seen_set key d s = s.
Proof.
  induction s as [|[k d'] s IH]; cbn; [discriminate|].
  destruct (String.eqb_spec key k) as [->|N].
  - now intros [= ->].
  - intros H. now rewrite IH.
Qed.

(** For a criteria that has no entry yet, a fetch without results creates the
    entry [{ seenPages: {}, totalPages: 0, exhausted: true }], saves the store
    and goes on with another choice. *)
Lemma no_results_fresh_entry fuel params w response :
  fetchRepositoriesPage params (network (attempts w)) = Return response ->
  total_count response = 0 ->
  seen_get (criteria_key (criteria params)) (seen w) = None ->
  let s' := seen_set (criteria_key (criteria params))
                     (mkProgress [] (Some 0) true) (seen w) in
  tryFetchWithParams (S fuel) params w =
  fallback fuel (saveSeenRepositories s' (set_seen s' (count_attempt w))).
Proof.
  intros H H0 Hget. rewrite (tryFetch_no_results _ _ _ H H0).
  unfold record_no_results. cbn [seen count_attempt set_seen]. now rewrite Hget.
Qed.

(** For a criteria that has an entry, the same branch leaves the entry as it
    is, exhausted or not. *)
Lemma no_results_existing_entry fuel params w response d :
  fetchRepositoriesPage params (network (attempts w)) = Return response ->
  total_count response = 0 ->
  seen_get (criteria_key (criteria params)) (seen w) = Some d ->
  tryFetchWithParams (S fuel) params w =
  fallback fuel (saveSeenRepositories (seen w) (count_attempt w)).
Proof.
  intros H H0 Hget. rewrite (tryFetch_no_results _ _ _ H H0).
  unfold record_no_results. cbn [seen count_attempt set_seen].
  rewrite Hget, (seen_set_same_value _ _ Hget). reflexivity.
Qed.

(** ** How long the fallback runs *)

Lemma select_step_world w :
  match select_step w with
  | inl (p, w') => attempts w' = attempts w /\ 1 <= page p <= MAX_PAGES
  | inr w' => attempts w' = attempts w
  end.
Proof.
  unfold select_step. cbn [seen count_selection count_draw draws].
  destruct (Nat.eqb _ 0); [cbn; split; [reflexivity|unfold MAX_PAGES; lia]|].
  destruct (seen_get _ (seen w)) as [d|];
    [|cbn; split; [reflexivity|unfold MAX_PAGES; lia]].
  destruct (falsy_number (totalPages d));
    [cbn; split; [reflexivity|unfold MAX_PAGES; lia]|].
  destruct (first_unseen _ _) as [pg|] eqn:Hfu; [|reflexivity].
  apply first_unseen_spec in Hfu. cbn. split; [reflexivity|lia].
Qed.

Lemma getNextSearchParams_world w :
  attempts (snd (getNextSearchParams w)) = attempts w /\
  1 <= page (fst (getNextSearchParams w)) <= MAX_PAGES.
Proof.
  pattern w, (getNextSearchParams w). apply getNextSearchParams_induction;
    clear w.
  - intros w [p w'] H. pose proof (select_step_world w) as Hw.
    rewrite H in Hw. exact Hw.
  - intros w w' H [IH1 IH2]. pose proof (select_step_world w) as Hw.
    rewrite H in Hw. split; [congruence|exact IH2].
Qed.

Lemma fallback_attempts fuel w :
  forall np w', getNextSearchParams w = (np, w') ->
  fallback fuel w = tryFetchWithParams fuel np w' /\
  attempts w' = attempts w /\ 1 <= page np <= MAX_PAGES.
Proof.
  intros np w' H. unfold fallback. rewrite H.
  pose proof (getNextSearchParams_world w) as Hw. rewrite H in Hw. cbn in Hw.
  intuition.
Qed.

(** After an outcome that is not terminal, the function goes on with one
    attempt more on the counter and a page within the cap. *)
Lemma tryFetch_continues fuel params w :
  terminal (fetchRepositoriesPage params (network (attempts w))) = false ->
  exists np w',
    tryFetchWithParams (S fuel) params w = tryFetchWithParams fuel np w' /\
    attempts w' = S (attempts w) /\ 1 <= page np <= MAX_PAGES.
Proof.
  intros Ht.
  destruct (fetchRepositoriesPage params (network (attempts w))) as [r|e] eqn:E;
    cbn in Ht.
  - apply negb_false_iff, Z.eqb_eq in Ht.
    rewrite (tryFetch_no_results _ _ _ E Ht).
    destruct (getNextSearchParams
                (record_no_results (criteria_key (criteria params)) (count_attempt w)))
      as [np w'] eqn:G.
    exists np, w'. destruct (fallback_attempts fuel _ G) as (-> & Ha & Hp).
    repeat split; try apply Hp. rewrite Ha. reflexivity.
  - rewrite (tryFetch_throw _ _ _ E), Ht.
    destruct (getNextSearchParams (count_attempt w)) as [np w'] eqn:G.
    exists np, w'. destruct (fallback_attempts fuel _ G) as (-> & Ha & Hp).
    repeat split; try apply Hp. rewrite Ha. reflexivity.
Qed.


Lemma tryFetch_unfinished fuel : forall params w,
  (forall k p, (k < fuel)%nat ->
     terminal (fetchRepositoriesPage p (network (attempts w + k))) = false) ->
  fst (tryFetchWithParams fuel params w) = None /\
  attempts (snd (tryFetchWithParams fuel params w)) = (attempts w + fuel)%nat.
Proof.
  induction fuel as [|fuel IH]; intros params w H.
  - cbn. split; [reflexivity|lia].
  - destruct (@tryFetch_continues fuel params w) as (np & w' & -> & Ha & _).
    { specialize (H O params). rewrite Nat.add_0_r in H. apply H. lia. }
    destruct (IH np w') as [I1 I2].
    { intros k p Hk. rewrite Ha. replace (S (attempts w) + k)%nat
        with (attempts w + S k)%nat by lia. apply H. lia. }
    split; [exact I1|]. rewrite I2, Ha. lia.
Qed.


(** ** What a selection returns and what it does to the store *)

Lemma first_unseen_none eff pages :
  first_unseen eff pages = None ->
  forall p, 1 <= p <= eff -> set_has p pages = true.
Proof.
  unfold first_unseen. intros H p Hp.
  pose proof (find_none _ _ H (Z.of_nat (Z.to_nat p))) as Hn.
  rewrite Z2Nat.id in Hn by lia.
  apply negb_false_iff. apply Hn. rewrite <- (Z2Nat.id p) by lia.
  apply in_map. apply in_seq. lia.
Qed.

(** A pass that returns: the store is untouched; either nothing was
    available, and the stored item is removed, or the criteria returned was
    available. *)
Lemma select_step_returns w next w' :
  select_step w = inl (next, w') ->
  seen w' = seen w /\ attempts w' = attempts w /\
  selections w' = S (selections w) /\ 1 <= page next <= MAX_PAGES /\
  (availableCriterias (seen w) = [] /\ stored w' = None /\
   draws w' = draws w /\
   next = mkParams (with_language (nth 0 SEARCH_CRITERIAS [])) 1
   \/
   In (criteria next) (availableCriterias (seen w)) /\
   stored w' = stored w /\ draws w' = S (draws w)).
Proof.
  unfold select_step. cbn [seen count_selection count_draw draws].
  destruct (Nat.eqb_spec (List.length (availableCriterias (seen w))) 0) as [Hlen|Hlen].
  - intros [= <- <-]. cbn. repeat split; try (unfold MAX_PAGES; lia).
    left. repeat split. now destruct (availableCriterias (seen w)).
  - set (c := nth _ (availableCriterias (seen w)) []).
    assert (Hin : In c (availableCriterias (seen w))).
    { apply nth_In. apply Nat.mod_upper_bound. exact Hlen. }
    clearbody c.
    destruct (seen_get (criteria_key c) (seen w)) as [d|].
    + destruct (falsy_number (totalPages d)).
      * intros [= <- <-]. cbn. repeat split; try (unfold MAX_PAGES; lia).
        right. now repeat split.
      * destruct (first_unseen _ _) as [pg|] eqn:Hfu; [|discriminate].
        intros [= <- <-]. apply first_unseen_spec in Hfu. cbn.
        repeat split; try lia. right. now repeat split.
    + intros [= <- <-]. cbn. repeat split; try (unfold MAX_PAGES; lia).
      right. now repeat split.
Qed.

(** A pass that calls the function again: the criteria chosen had an entry
    with a page count, every page up to the count (and the cap) is seen, and
    the entry is marked exhausted and the store saved. *)
Lemma select_step_recurses w w' :
  select_step w = inr w' ->
  exists c d t,
    In c (availableCriterias (seen w)) /\
    seen_get (criteria_key c) (seen w) = Some d /\
    totalPages d = Some t /\ t <> 0 /\
    (forall p, 1 <= p <= Z.min t MAX_PAGES -> set_has p (seenPages d) = true) /\
    seen w' = seen_set (criteria_key c)
                (mkProgress (seenPages d) (totalPages d) true) (seen w) /\
    stored w' = Some (serialize (seen w')) /\
    attempts w' = attempts w /\ selections w' = S (selections w) /\
    draws w' = S (draws w).
Proof.
  unfold select_step. cbn [seen count_selection count_draw draws].
  destruct (Nat.eqb_spec (List.length (availableCriterias (seen w))) 0) as [Hlen|Hlen];
    [discriminate|].
  set (c := nth _ (availableCriterias (seen w)) []).
  assert (Hin : In c (availableCriterias (seen w))).
  { apply nth_In. apply Nat.mod_upper_bound. exact Hlen. }
  clearbody c.
  destruct (seen_get (criteria_key c) (seen w)) as [d|] eqn:Hget; [|discriminate].
  destruct (falsy_number (totalPages d)) eqn:Hf; [discriminate|].
  destruct (first_unseen _ _) eqn:Hfu; [discriminate|].
  intros [= <-]. exists c, d.
  destruct (totalPages d) as [t|] eqn:Ht; [|discriminate Hf].
  exists t. cbn in Hf. apply Z.eqb_neq in Hf.
  repeat split; auto. now apply first_unseen_none.
Qed.

Lemma availableCriterias_length s :
  (List.length (availableCriterias s) <= List.length SEARCH_CRITERIAS)%nat.
Proof.
  unfold availableCriterias.
  rewrite <- (length_map with_language SEARCH_CRITERIAS). apply filter_length_le.
Qed.

Lemma availableCriterias_In s c :
  In c (availableCriterias s) <->
  In c (map with_language SEARCH_CRITERIAS) /\ is_exhausted s c = false.
Proof.
  unfold availableCriterias. rewrite filter_In, negb_true_iff. reflexivity.
Qed.

Lemma with_language_get c :
  prop_get "language" (with_language c) = language_or_undefined.
Proof.
  unfold with_language. generalize language_or_undefined as v.
  induction c as [|[k v'] c IH]; intros v; cbn [prop_set prop_get].
  - now rewrite String.eqb_refl.
  - destruct (String.eqb "language" k) eqn:E; cbn [prop_get]; rewrite E; auto.
Qed.

(** X1.  [getNextSearchParams] returns a page between 1 and the cap, so the
    page-cap rejection of [fetchRepositoriesPage] never meets a selection. The
    criteria it returns has the language of the hook as its language; it is
    one of the criteria of [SEARCH_CRITERIAS], with the language merged in,
    that is not exhausted in the store it leaves, unless none is left: then
    the stored item is removed and the answer is page 1 of the first criteria. *)
Theorem selection_is_available_and_within_the_cap w :
  let (next, w') := getNextSearchParams w in
  1 <= page next <= MAX_PAGES /\
  prop_get "language" (criteria next) = language_or_undefined /\
  (In (criteria next) (map with_language SEARCH_CRITERIAS) /\
   is_exhausted (seen w') (criteria next) = false
   \/
   availableCriterias (seen w') = [] /\ stored w' = None /\
   next = mkParams (with_language (nth 0 SEARCH_CRITERIAS [])) 1).
Proof.
  pattern w, (getNextSearchParams w). apply getNextSearchParams_induction;
    clear w.
  - intros w [next w'] Hstep.
    destruct (@select_step_returns _ _ _ Hstep) as (Hs & _ & _ & Hp & H).
    split; [exact Hp|]. rewrite Hs.
    destruct H as [(Ha & Hst & _ & Hn)|(Hin & _)].
    + split; [|right; auto]. rewrite Hn. apply with_language_get.
    + apply availableCriterias_In in Hin. split; [|now left].
      destruct Hin as [Hin _]. apply in_map_iff in Hin.
      destruct Hin as (c & <- & _). apply with_language_get.
  - intros w w' _ IH. exact IH.
Qed.

Lemma find_least (f : Z -> bool) n : forall start x,
  find f (map Z.of_nat (seq start n)) = Some x ->
  forall q, Z.of_nat start <= q < x -> f q = false.
Proof.
  induction n as [|n IH]; intros start x; cbn [seq map find]; [discriminate|].
  destruct (f (Z.of_nat start)) eqn:E.
  - intros [= <-] q Hq. lia.
  - intros H q Hq. destruct (Z.eq_dec q (Z.of_nat start)) as [->|N]; [exact E|].
    apply (IH _ _ H). lia.
Qed.

Lemma first_unseen_least eff pages p :
  first_unseen eff pages = Some p ->
  forall q, 1 <= q < p -> set_has q pages = true.
Proof.
  unfold first_unseen. intros H q Hq.
  apply negb_false_iff.
  apply (@find_least (fun p => negb (set_has p pages)) _ 1%nat p H). lia.
Qed.

(** X2.  The page that [getNextSearchParams] returns. After a reset (no
    criteria is available in the store it leaves) it is page 1. Otherwise the
    criteria returned is not exhausted, and the page is read off its entry:
    without an entry, or with an entry whose page count is [null] or 0, it is
    page 1, whether the entry holds page 1 as seen or not; with a page count
    [t] that is not 0 it is the least page from 1 to [t] (and to the cap) that
    the entry has not seen: it is not seen, and every page below it is. *)
Theorem selection_returns_page_1_or_the_least_unseen_page w :
  let (next, w') := getNextSearchParams w in
  if Nat.eqb (List.length (availableCriterias (seen w'))) 0 then page next = 1
  else
    match seen_get (criteria_key (criteria next)) (seen w') with
    | None => page next = 1
    | Some d =>
        exhausted d = false /\
        match totalPages d with
        | None => page next = 1
        | Some t =>
            if t =? 0 then page next = 1
            else
              1 <= page next <= Z.min t MAX_PAGES /\
              set_has (page next) (seenPages d) = false /\
              forall p, 1 <= p < page next -> set_has p (seenPages d) = true
        end
    end.
Proof.
  pattern w, (getNextSearchParams w). apply getNextSearchParams_induction;
    clear w.
  - intros w [next w'] Hstep.
    destruct (@select_step_returns _ _ _ Hstep) as (Hs & _). rewrite Hs.
    revert Hstep. unfold select_step.
    cbn [seen count_selection count_draw draws].
    destruct (Nat.eqb_spec (List.length (availableCriterias (seen w))) 0)
      as [Hlen|Hlen]; [now intros [= <- <-]|].
    set (c := nth _ (availableCriterias (seen w)) []).
    assert (Hin : In c (availableCriterias (seen w))).
    { apply nth_In. apply Nat.mod_upper_bound. exact Hlen. }
    apply availableCriterias_In in Hin. destruct Hin as [_ Hex].
    unfold is_exhausted in Hex. clearbody c.
    destruct (seen_get (criteria_key c) (seen w)) as [d|] eqn:Hget.
    + destruct (falsy_number (totalPages d)) eqn:Hf.
      * intros [= <- <-]. cbn [criteria page]. rewrite Hget.
        split; [exact Hex|]. destruct (totalPages d) as [t|]; [|reflexivity].
        cbn [falsy_number] in Hf. now rewrite Hf.
      * destruct (first_unseen _ _) as [pg|] eqn:Hfu; [|discriminate].
        intros [= <- <-]. cbn [criteria page]. rewrite Hget.
        split; [exact Hex|]. destruct (totalPages d) as [t|]; [|discriminate].
        cbn [falsy_number] in Hf. rewrite Hf.
        destruct (first_unseen_spec _ _ Hfu) as [Hun Hb].
        split; [exact Hb|]. split; [exact Hun|].
        exact (first_unseen_least _ _ Hfu).
    + intros [= <- <-]. cbn [criteria page]. now rewrite Hget.
  - intros w w' _ IH. exact IH.
Qed.

Lemma seen_set_keys key d d' s :
  seen_get key s = Some d -> map fst (seen_set key d' s) = map fst s.
Proof.
  induction s as [|[k d0] s IH]; cbn; [discriminate|].
  destruct (String.eqb_spec key k) as [->|N]; [reflexivity|].
  intros H. cbn. now rewrite IH.
Qed.

(** X3.  [getNextSearchParams] changes the store in one way only: it marks
    entries exhausted. No entry is added or removed, no entry changes its seen
    pages or its page count, and an entry it marks has a page count that is
    not 0 and has seen every page from 1 to that count (or to the cap). *)
Theorem selection_only_marks_finished_entries w :
  let w' := snd (getNextSearchParams w) in
  map fst (seen w') = map fst (seen w) /\
  forall key d,
    seen_get key (seen w) = Some d ->
    exists d',
      seen_get key (seen w') = Some d' /\
      seenPages d' = seenPages d /\ totalPages d' = totalPages d /\
      (exhausted d' = exhausted d \/
       exhausted d' = true /\
       exists t, totalPages d = Some t /\ t <> 0 /\
         forall p, 1 <= p <= Z.min t MAX_PAGES -> set_has p (seenPages d) = true).
Proof.
  cbv zeta. pattern w, (getNextSearchParams w).
  apply getNextSearchParams_induction; clear w.
  - intros w [next w'] Hstep.
    destruct (@select_step_returns _ _ _ Hstep) as (Hs & _). cbn [snd]. rewrite Hs.
    split; [reflexivity|]. intros key d Hget. exists d. auto.
  - intros w w1 Hstep [IHk IH].
    destruct (@select_step_recurses _ _ Hstep)
      as (c & d0 & t & _ & Hget0 & Ht & Ht0 & Hfull & Hseen & _).
    split.
    + rewrite IHk, Hseen. now apply seen_set_keys with (d := d0).
    + intros key d Hget.
      destruct (String.eqb_spec key (criteria_key c)) as [->|N].
      * assert (d = d0) as -> by congruence.
        destruct (IH (criteria_key c)
                     (mkProgress (seenPages d0) (totalPages d0) true))
          as (d' & Hget' & Hp & Htp & Hex).
        { rewrite Hseen. apply seen_get_set_same. }
        exists d'. cbn in Hp, Htp, Hex. repeat split; auto.
        right. split; [destruct Hex as [E|[E _]]; exact E|].
        exists t. auto.
      * destruct (IH key d) as (d' & Hget' & Hp & Htp & Hex).
        { rewrite Hseen. now rewrite seen_get_set_other. }
        exists d'. auto.
Qed.

(** X4.  [getNextSearchParams] runs its body at most once more than there are
    criteria available, and draws at most one random number for each of them:
    the call costs at most [|SEARCH_CRITERIAS| + 1] passes and makes no
    request. *)
Theorem selection_makes_bounded_passes w :
  let w' := snd (getNextSearchParams w) in
  (selections w < selections w'
   <= selections w + List.length (availableCriterias (seen w)) + 1)%nat /\
  (draws w <= draws w' <= draws w + List.length (availableCriterias (seen w)))%nat /\
  (List.length (availableCriterias (seen w)) <= List.length SEARCH_CRITERIAS)%nat /\
  attempts w' = attempts w.
Proof.
  cbv zeta.
  assert (H : (selections w < selections (snd (getNextSearchParams w))
               <= selections w + List.length (availableCriterias (seen w)) + 1)%nat /\
              (draws w <= draws (snd (getNextSearchParams w))
               <= draws w + List.length (availableCriterias (seen w)))%nat).
  { pattern w, (getNextSearchParams w). apply getNextSearchParams_induction;
      clear w.
    - intros w [next w'] Hstep.
      destruct (@select_step_returns _ _ _ Hstep) as (_ & _ & Hsel & _ & H).
      cbn [snd]. rewrite Hsel.
      destruct H as [(_ & _ & -> & _)|(Hin & _ & ->)]; [lia|].
      destruct (availableCriterias (seen w)); [destruct Hin|cbn; lia].
    - intros w w1 Hstep IH.
      destruct (@select_step_recurses _ _ Hstep) as (c & d0 & t & H).
      destruct H as (_ & _ & _ & _ & _ & _ & _ & _ & Hsel & Hdr).
      apply select_step_decreases in Hstep. lia. }
  destruct H as [H1 H2]. split; [exact H1|]. split; [exact H2|].
  split; [apply availableCriterias_length|].
  apply getNextSearchParams_world.
Qed.

(** ** What [tryFetchWithParams] comes to *)

Lemma tryFetch_results fuel params w response :
  fetchRepositoriesPage params (network (attempts w)) = Return response ->
  total_count response <> 0 ->
  tryFetchWithParams (S fuel) params w =
  (Some (Return (answer params response)),
   record_results params response (count_attempt w)).
Proof.
  intros H H0. cbn [tryFetchWithParams]. rewrite H.
  apply Z.eqb_neq in H0. rewrite H0. reflexivity.
Qed.

(** The three ways of a call: an error, no results, results. *)
Lemma tryFetch_cases fuel params w :
  (exists e,
     fetchRepositoriesPage params (network (attempts w)) = Throw e /\
     tryFetchWithParams (S fuel) params w =
     if includes "Rate limit exceeded" (err_message e)
     then (Some (Throw e), count_attempt w)
     else fallback fuel (count_attempt w)) \/
  (exists response,
     fetchRepositoriesPage params (network (attempts w)) = Return response /\
     total_count response = 0 /\
     tryFetchWithParams (S fuel) params w =
     fallback fuel
       (record_no_results (criteria_key (criteria params)) (count_attempt w))) \/
  (exists response,
     fetchRepositoriesPage params (network (attempts w)) = Return response /\
     total_count response <> 0 /\
     tryFetchWithParams (S fuel) params w =
     (Some (Return (answer params response)),
      record_results params response (count_attempt w))).
Proof.
  destruct (fetchRepositoriesPage params (network (attempts w))) as [r|e] eqn:E.
  - destruct (Z.eq_dec (total_count r) 0) as [H0|H0].
    + right. left. exists r. repeat split; auto.
      exact (@tryFetch_no_results fuel params w r E H0).
    + right. right. exists r. repeat split; auto.
      exact (@tryFetch_results fuel params w r E H0).
  - left. exists e. split; [reflexivity|].
    exact (@tryFetch_throw fuel params w e E).
Qed.

(** A property of the world that every step of the cursor keeps holds of the
    world [getNextSearchParams] leaves. *)
Lemma getNextSearchParams_invariant (I : world -> Prop) :
  (forall w next w', select_step w = inl (next, w') -> I w -> I w') ->
  (forall w w', select_step w = inr w' -> I w -> I w') ->
  forall w, I w -> I (snd (getNextSearchParams w)).
Proof.
  intros Hret Hrec w. pattern w, (getNextSearchParams w).
  apply getNextSearchParams_induction; clear w.
  - intros w [next w'] Hstep Hw. now apply (Hret w next w').
  - intros w w' Hstep IH Hw. apply IH. now apply (Hrec w w').
Qed.

(** And of the world [tryFetchWithParams] leaves, however it ends. *)
Lemma tryFetchWithParams_invariant (I : world -> Prop) :
  (forall w, I w -> I (count_attempt w)) ->
  (forall c w, I w -> I (record_no_results (criteria_key c) w)) ->
  (forall params response w, I w -> I (record_results params response w)) ->
  (forall w, I w -> I (snd (getNextSearchParams w))) ->
  forall fuel params w, I w -> I (snd (tryFetchWithParams fuel params w)).
Proof.
  intros Hatt Hno Hres Hnext.
  induction fuel as [|fuel IH]; intros params w Hw; [exact Hw|].
  assert (Hfb : forall w1, I w1 -> I (snd (fallback fuel w1))).
  { intros w1 H1. unfold fallback. specialize (Hnext w1 H1).
    destruct (getNextSearchParams w1) as [np w2]. now apply IH. }
  destruct (tryFetch_cases fuel params w)
    as [(e & _ & ->)|[(r & _ & _ & ->)|(r & _ & _ & ->)]].
  - destruct (includes _ _); [now apply Hatt|]. apply Hfb. now apply Hatt.
  - apply Hfb. apply Hno. now apply Hatt.
  - apply Hres. now apply Hatt.
Qed.

Lemma set_has_add p q pages :
  set_has p (set_add q pages) = set_has p pages || (p =? q).
Proof.
  unfold set_add. destruct (set_has q pages) eqn:E.
  - destruct (Z.eqb_spec p q) as [->|]; [|now rewrite orb_false_r].
    now rewrite E.
  - unfold set_has. rewrite existsb_app. cbn. now rewrite orb_false_r.
Qed.




Lemma page_seen_recorded params response w :
  page_seen (seen (record_results params response w)) params = true.
Proof.
  unfold record_results, page_seen.
  cbn [seen saveSeenRepositories set_stored set_seen].
  rewrite seen_get_set_same. cbn [seenPages].
  now rewrite set_has_add, Z.eqb_refl, orb_true_r.
Qed.


(** The entries of [s] are all in [s'], each with its page count and at
    least its seen pages. *)
Lemma kept_refl s :
  forall key d, seen_get key s = Some d ->
  exists d', seen_get key s = Some d' /\ totalPages d' = totalPages d /\
             forall p, set_has p (seenPages d) = true ->
                       set_has p (seenPages d') = true.
Proof. intros key d H. exists d. auto. Qed.

Lemma kept_set key d1 s :
  (forall d0, seen_get key s = Some d0 ->
              totalPages d1 = totalPages d0 /\
              forall p, set_has p (seenPages d0) = true ->
                        set_has p (seenPages d1) = true) ->
  forall k d, seen_get k s = Some d ->
  exists d', seen_get k (seen_set key d1 s) = Some d' /\
             totalPages d' = totalPages d /\
             forall p, set_has p (seenPages d) = true ->
                       set_has p (seenPages d') = true.
Proof.
  intros H k d Hget. destruct (String.eqb_spec k key) as [->|N].
  - rewrite seen_get_set_same. exists d1. destruct (H d Hget). auto.
  - rewrite seen_get_set_other by exact N. exists d. auto.
Qed.

Lemma kept_step (s0 : SeenRepositories) (f : world -> world) :
  (forall w k d, seen_get k (seen w) = Some d ->
     exists d', seen_get k (seen (f w)) = Some d' /\
                totalPages d' = totalPages d /\
                forall p, set_has p (seenPages d) = true ->
                          set_has p (seenPages d') = true) ->
  forall w,
    (forall k d, seen_get k s0 = Some d ->
       exists d', seen_get k (seen w) = Some d' /\
                  totalPages d' = totalPages d /\
                  forall p, set_has p (seenPages d) = true ->
                            set_has p (seenPages d') = true) ->
    forall k d, seen_get k s0 = Some d ->
      exists d', seen_get k (seen (f w)) = Some d' /\
                 totalPages d' = totalPages d /\
                 forall p, set_has p (seenPages d) = true ->
                           set_has p (seenPages d') = true.
Proof.
  intros Hf w Hw k d Hget.
  destruct (Hw k d Hget) as (d1 & H1 & Ht1 & Hp1).
  destruct (Hf w k d1 H1) as (d2 & H2 & Ht2 & Hp2).
  exists d2. split; [exact H2|]. split; [congruence|auto].
Qed.

Lemma kept_record_no_results key w :
  forall k d, seen_get k (seen w) = Some d ->
  exists d', seen_get k (seen (record_no_results key w)) = Some d' /\
             totalPages d' = totalPages d /\
             forall p, set_has p (seenPages d) = true ->
                       set_has p (seenPages d') = true.
Proof.
  unfold record_no_results. cbn [seen saveSeenRepositories set_stored set_seen].
  apply kept_set. intros d0 ->. auto.
Qed.

Lemma kept_record_results params response w :
  forall k d, seen_get k (seen w) = Some d ->
  exists d', seen_get k (seen (record_results params response w)) = Some d' /\
             totalPages d' = totalPages d /\
             forall p, set_has p (seenPages d) = true ->
                       set_has p (seenPages d') = true.
Proof.
  unfold record_results. cbn [seen saveSeenRepositories set_stored set_seen].
  apply kept_set. intros d0 ->. cbn [seenPages totalPages].
  split; [reflexivity|]. intros p Hp. now rewrite set_has_add, Hp.
Qed.

Lemma kept_getNextSearchParams w :
  forall k d, seen_get k (seen w) = Some d ->
  exists d', seen_get k (seen (snd (getNextSearchParams w))) = Some d' /\
             totalPages d' = totalPages d /\
             forall p, set_has p (seenPages d) = true ->
                       set_has p (seenPages d') = true.
Proof.
  apply (@getNextSearchParams_invariant
           (fun w' => forall k d, seen_get k (seen w) = Some d ->
              exists d', seen_get k (seen w') = Some d' /\
                         totalPages d' = totalPages d /\
                         forall p, set_has p (seenPages d) = true ->
                                   set_has p (seenPages d') = true)).
  - intros w0 next w' Hstep.
    destruct (@select_step_returns _ _ _ Hstep) as (-> & _). auto.
  - intros w0 w' Hstep.
    destruct (@select_step_recurses _ _ Hstep)
      as (c & d0 & t & _ & Hget & _ & _ & _ & Hseen & _).
    intros Hw k d Hk. destruct (Hw k d Hk) as (d1 & H1 & Ht1 & Hp1).
    assert (H : exists d', seen_get k (seen w') = Some d' /\
                           totalPages d' = totalPages d1 /\
                           forall p, set_has p (seenPages d1) = true ->
                                     set_has p (seenPages d') = true).
    { rewrite Hseen. apply kept_set; [|exact H1]. intros d2 Hd2.
      assert (d2 = d0) as -> by congruence. cbn. auto. }
    destruct H as (d2 & H2 & Ht2 & Hp2).
    exists d2. split; [exact H2|]. split; [congruence|auto].
  - apply kept_refl.
Qed.

(** X5.  An entry of the store is never removed, never changes its page count
    and never loses a seen page: this holds of [getNextSearchParams] and of
    [tryFetchWithParams], however it ends and however many times it calls
    itself. (The page count of a criteria is the one of the first response
    that found results for it.) *)
Theorem entries_are_kept fuel params w key d :
  seen_get key (seen w) = Some d ->
  (exists d',
     seen_get key (seen (snd (getNextSearchParams w))) = Some d' /\
     totalPages d' = totalPages d /\
     forall p, set_has p (seenPages d) = true -> set_has p (seenPages d') = true) /\
  (exists d',
     seen_get key (seen (snd (tryFetchWithParams fuel params w))) = Some d' /\
     totalPages d' = totalPages d /\
     forall p, set_has p (seenPages d) = true -> set_has p (seenPages d') = true).
Proof.
  intros Hget. split; [now apply kept_getNextSearchParams|].
  revert key d Hget.
  apply (@tryFetchWithParams_invariant
           (fun w' => forall k d, seen_get k (seen w) = Some d ->
              exists d', seen_get k (seen w') = Some d' /\
                         totalPages d' = totalPages d /\
                         forall p, set_has p (seenPages d) = true ->
                                   set_has p (seenPages d') = true)).
  - auto.
  - intros c. apply (@kept_step (seen w) (record_no_results (criteria_key c))).
    intros w0. apply kept_record_no_results.
  - intros params0 response.
    apply (@kept_step (seen w) (record_results params0 response)).
    intros w0. apply kept_record_results.
  - apply (@kept_step (seen w) (fun w0 => snd (getNextSearchParams w0))).
    intros w0. apply kept_getNextSearchParams.
  - apply kept_refl.
Qed.

Lemma fallback_bounds fuel w :
  exists np w1,
    fallback fuel w = tryFetchWithParams fuel np w1 /\
    1 <= page np <= MAX_PAGES.
Proof.
  destruct (getNextSearchParams w) as [np w1] eqn:G.
  exists np, w1. destruct (fallback_attempts fuel _ G) as (E & _ & Hp).
  now split.
Qed.

(** A call that returns has ended in the branch for a response with
    results, at its last request. *)
Lemma tryFetch_returns fuel : forall params w q w',
  tryFetchWithParams fuel params w = (Some (Return q), w') ->
  exists p response w0,
    (p = params \/ 1 <= page p <= MAX_PAGES) /\
    fetchRepositoriesPage p (network (attempts w0)) = Return response /\
    total_count response <> 0 /\
    q = answer p response /\
    w' = record_results p response (count_attempt w0).
Proof.
  induction fuel as [|fuel IH]; intros params w q w' H; [discriminate|].
  assert (Hfb : forall w1,
             fallback fuel w1 = (Some (Return q), w') ->
             exists p response w0,
               (p = params \/ 1 <= page p <= MAX_PAGES) /\
               fetchRepositoriesPage p (network (attempts w0)) = Return response /\
               total_count response <> 0 /\
               q = answer p response /\
               w' = record_results p response (count_attempt w0)).
  { intros w1 H1. destruct (fallback_bounds fuel w1) as (np & w2 & E & Hnp).
    rewrite E in H1. destruct (IH _ _ _ _ H1) as (p & r & w0 & Hp & Hrest).
    exists p, r, w0. split; [|exact Hrest].
    right. now destruct Hp as [->|Hp]. }
  destruct (tryFetch_cases fuel params w)
    as [(e & _ & E)|[(r & _ & _ & E)|(r & Hr & H0 & E)]]; rewrite E in H.
  - destruct (includes _ _); [discriminate|]. now apply Hfb in H.
  - now apply Hfb in H.
  - injection H as <- <-. exists params, r, w. repeat split; auto.
Qed.

(** X6.  When [tryFetchWithParams] returns, the answer is the page of its last
    request, which found results: the count and the repositories of the
    response, each with the key of the criteria, and the next page of the same
    criteria as the next page parameter. That page is then among the seen
    pages of its criteria; the entry of the criteria is exhausted exactly when
    it has seen as many pages as the count of that response makes (at most the
    cap), whatever page count the entry holds; and the stored item is the text
    of the store. The last request is for the parameters given or for a
    selection, whose page is within the cap. *)
Theorem returned_page_is_recorded fuel params w q w' :
  tryFetchWithParams fuel params w = (Some (Return q), w') ->
  exists p response,
    (p = params \/ 1 <= page p <= MAX_PAGES) /\
    fetchRepositoriesPage p (network (Nat.pred (attempts w'))) = Return response /\
    total_count response <> 0 /\
    q_total_count q = total_count response /\
    q_items q = map (fun repo => (repo, criteria_key (criteria p))) (items response) /\
    getNextPageParam q = mkParams (criteria p) (page p + 1) /\
    page_seen (seen w') p = true /\
    (exists d,
       seen_get (criteria_key (criteria p)) (seen w') = Some d /\
       exhausted d
       = (Z.of_nat (List.length (seenPages d))
          >=? Z.min (ceil_div10 (total_count response)) MAX_PAGES)) /\
    stored w' = Some (serialize (seen w')).
Proof.
  intros H.
  destruct (@tryFetch_returns fuel params w q w' H)
    as (p & r & w0 & Hp & Hr & H0 & -> & ->).
  exists p, r. split; [exact Hp|]. split; [exact Hr|]. split; [exact H0|].
  split; [reflexivity|]. split; [reflexivity|]. split; [reflexivity|].
  split; [apply page_seen_recorded|]. split; [|reflexivity].
  unfold record_results. cbn [seen saveSeenRepositories set_stored set_seen].
  rewrite seen_get_set_same. eexists. split; reflexivity.
Qed.

(** An error of [fetchRepositoriesPage] whose message has the rate-limit
    phrase is the error of a 403 answer, or a rejection of [fetch] itself. *)
Lemma fetch_throws_the_phrase params net e :
  fetchRepositoriesPage params net = Throw e ->
  includes "Rate limit exceeded" (err_message e) = true ->
  page params <= MAX_PAGES /\
  (e = rate_limit_error /\ (exists data, net (request_of params) = NetResponds 403 data)
   \/ net (request_of params) = NetRejects e).
Proof.
  unfold fetchRepositoriesPage.
  destruct (Z.gtb_spec (page params) MAX_PAGES) as [Hgt|Hle];
    [intros [= <-]; discriminate|].
  split; [exact Hle|].
  destruct (net (request_of params)) as [e0|status data].
  - injection H as <-. now right.
  - destruct (negb (response_ok status)); [|discriminate].
    destruct (Z.eqb_spec status 403) as [->|_].
    + injection H as <-. left. split; [reflexivity|now exists data].
    + destruct (status =? 422); [injection H as <-; discriminate|].
      destruct (status =? 401); injection H as <-; discriminate.
Qed.

(** X7.  When [tryFetchWithParams] throws, what it throws is the error of its
    last request, and the message of that error has the rate-limit phrase: it
    is the error of a 403 answer, or a rejection of [fetch] itself with that
    phrase. The [retry] option of the query refuses every such error, so no
    error of [tryFetchWithParams] is ever retried. *)
Theorem only_rate_limit_errors_escape fuel : forall params w e w',
  tryFetchWithParams fuel params w = (Some (Throw e), w') ->
  includes "Rate limit exceeded" (err_message e) = true /\
  (forall failureCount, retry failureCount e = false) /\
  exists p,
    fetchRepositoriesPage p (network (Nat.pred (attempts w'))) = Throw e /\
    page p <= MAX_PAGES /\
    (e = rate_limit_error /\
     (exists data,
        network (Nat.pred (attempts w')) (request_of p) = NetResponds 403 data)
     \/ network (Nat.pred (attempts w')) (request_of p) = NetRejects e).
Proof.
  induction fuel as [|fuel IH]; intros params w e w' H; [discriminate|].
  assert (Hfb : forall w1,
             fallback fuel w1 = (Some (Throw e), w') ->
             includes "Rate limit exceeded" (err_message e) = true /\
             (forall failureCount, retry failureCount e = false) /\
             exists p,
               fetchRepositoriesPage p (network (Nat.pred (attempts w'))) = Throw e /\
               page p <= MAX_PAGES /\
               (e = rate_limit_error /\
                (exists data,
                   network (Nat.pred (attempts w')) (request_of p)
                   = NetResponds 403 data)
                \/ network (Nat.pred (attempts w')) (request_of p) = NetRejects e)).
  { intros w1 H1. destruct (fallback_bounds fuel w1) as (np & w2 & E & _).
    rewrite E in H1. now apply IH in H1. }
  destruct (tryFetch_cases fuel params w)
    as [(e0 & He & E)|[(r & _ & _ & E)|(r & _ & _ & E)]]; rewrite E in H.
  - destruct (includes _ (err_message e0)) eqn:Hi; [|now apply Hfb in H].
    injection H as <- <-. split; [exact Hi|]. split.
    + intros n. unfold retry. now rewrite Hi.
    + exists params. cbn [attempts count_attempt Nat.pred].
      split; [exact He|]. now apply fetch_throws_the_phrase.
  - now apply Hfb in H.
  - discriminate.
Qed.

(** X8.  The page count of a criteria is set by the first response that finds
    results for it. For a criteria without an entry, a response with [n]
    results creates the entry with the page fetched as its one seen page and
    the number of pages of [PER_PAGE] repositories that [n] results fill, at
    most [MAX_PAGES], as its page count; the criteria is exhausted at once
    exactly when the results fill one page. *)
Theorem first_response_sets_the_page_count fuel params w response :
  fetchRepositoriesPage params (network (attempts w)) = Return response ->
  0 < total_count response ->
  seen_get (criteria_key (criteria params)) (seen w) = None ->
  let w' := snd (tryFetchWithParams (S fuel) params w) in
  let pageCount := Z.min (ceil_div10 (total_count response)) MAX_PAGES in
  seen_get (criteria_key (criteria params)) (seen w')
  = Some (mkProgress [page params] (Some pageCount) (1 >=? pageCount)) /\
  1 <= pageCount <= MAX_PAGES /\
  (pageCount - 1) * PER_PAGE < total_count response /\
  (total_count response <= pageCount * PER_PAGE \/ pageCount = MAX_PAGES) /\
  ((1 >=? pageCount) = true <-> total_count response <= PER_PAGE).
Proof.
  intros Hr Hn Hget. cbv zeta.
  rewrite (@tryFetch_results fuel params w response Hr) by lia.
  unfold record_results.
  cbn [snd seen saveSeenRepositories set_stored set_seen count_attempt].
  rewrite Hget, seen_get_set_same. cbn [seenPages totalPages set_add set_has existsb
    app List.length].
  split; [reflexivity|].
  unfold ceil_div10, MAX_PAGES, PER_PAGE.
  pose proof (Z.div_mod (total_count response + 9) 10) as Hd.
  pose proof (Z.mod_pos_bound (total_count response + 9) 10) as Hm.
  split; [lia|]. split; [lia|]. split; [lia|].
  rewrite Z.geb_le. lia.
Qed.

(** X9.  With a network that finds results for every request,
    [tryFetchWithParams] returns within two requests: at the first when the
    page is within the cap, and otherwise at the second, made for a selection.
    A query then returns a page when the value it loads is a store: there is
    no stored item, or the item is the text of a store. *)
Theorem a_network_with_results_ends_the_query :
  (forall k r, exists data,
      network k r = NetResponds 200 data /\ total_count data <> 0) ->
  (forall params w,
     exists q w',
       tryFetchWithParams 2 params w = (Some (Return q), w') /\
       if page params >? MAX_PAGES
       then attempts w' = S (S (attempts w))
       else attempts w' = S (attempts w) /\
            getNextPageParam q = mkParams (criteria params) (page params + 1)) /\
  (forall pageParam w v s,
     loadSeenRepositories (stored w) = Loaded v -> as_store v = Some s ->
     exists q w', queryFn 2 pageParam w = (Settled (Return q), w')).
Proof.
  intros Hnet.
  assert (Hfetch : forall params k,
             page params <= MAX_PAGES ->
             exists data,
               fetchRepositoriesPage params (network k) = Return data /\
               total_count data <> 0).
  { intros params k Hp. destruct (Hnet k (request_of params)) as (data & E & Hn).
    exists data. split; [|exact Hn]. unfold fetchRepositoriesPage.
    destruct (Z.gtb_spec (page params) MAX_PAGES); [lia|]. now rewrite E. }
  assert (Hone : forall fuel params w,
             page params <= MAX_PAGES ->
             exists data,
               tryFetchWithParams (S fuel) params w
               = (Some (Return (answer params data)),
                  record_results params data (count_attempt w))).
  { intros fuel params w Hp.
    destruct (Hfetch params (attempts w) Hp) as (data & Hr & Hn).
    exists data. now apply tryFetch_results. }
  assert (Htwo : forall params w,
             exists q w',
               tryFetchWithParams 2 params w = (Some (Return q), w') /\
               if page params >? MAX_PAGES
               then attempts w' = S (S (attempts w))
               else attempts w' = S (attempts w) /\
                    getNextPageParam q
                    = mkParams (criteria params) (page params + 1)).
  { intros params w. destruct (Z.gtb_spec (page params) MAX_PAGES) as [Hgt|Hle].
    - assert (E : fetchRepositoriesPage params (network (attempts w))
                  = Throw page_cap_error).
      { unfold fetchRepositoriesPage.
        destruct (Z.gtb_spec (page params) MAX_PAGES); [reflexivity|lia]. }
      rewrite (@tryFetch_throw 1 params w page_cap_error E).
      cbn [err_message page_cap_error]. change (includes _ _) with false.
      cbv iota. destruct (getNextSearchParams (count_attempt w)) as [np w1] eqn:G.
      destruct (@fallback_attempts 1 _ np w1 G) as (-> & Ha & Hp).
      destruct (Hone O np w1) as (data & ->); [lia|].
      eexists. eexists. split; [reflexivity|].
      unfold record_results. cbn [attempts saveSeenRepositories set_stored set_seen
        count_attempt]. now rewrite Ha.
    - destruct (Hone 1%nat params w Hle) as (data & ->).
      eexists. eexists. split; [reflexivity|]. split; reflexivity. }
  split; [exact Htwo|].
  intros pageParam w v s Hload Hs. unfold queryFn. rewrite Hload, Hs.
  destruct pageParam as [p|].
  - destruct (Htwo p (set_seen s w)) as (q & w' & -> & _). now exists q, w'.
  - destruct (getNextSearchParams (set_seen s w)) as [np w1].
    destruct (Htwo np w1) as (q & w' & -> & _). now exists q, w'.
Qed.

(** X10.  The numbers of the store stay within bounds. When the counts the
    network answers are not negative and the page asked for is at least 1,
    [tryFetchWithParams] keeps every page count between 0 and [MAX_PAGES] and
    every seen page between 1 and [MAX_PAGES], however it ends: a page beyond
    the cap is never recorded. *)
Theorem store_stays_within_bounds fuel params w :
  (forall k r status data,
     network k r = NetResponds status data -> 0 <= total_count data) ->
  1 <= page params ->
  store_bounded (seen w) ->
  store_bounded (seen (snd (getNextSearchParams w))) /\
  store_bounded (seen (snd (tryFetchWithParams fuel params w))).
Proof.
  intros Hnet Hpage Hw.
  assert (Hset : forall key d s,
             store_bounded s ->
             (exists t, totalPages d = Some t /\ 0 <= t <= MAX_PAGES) ->
             (forall p, set_has p (seenPages d) = true -> 1 <= p <= MAX_PAGES) ->
             store_bounded (seen_set key d s)).
  { intros key d s Hs Ht Hp k d0.
    destruct (String.eqb_spec k key) as [->|N].
    - rewrite seen_get_set_same. intros [= <-]. now split.
    - rewrite seen_get_set_other by exact N. apply Hs. }
  assert (Hnext : forall w0, store_bounded (seen w0) ->
                             store_bounded (seen (snd (getNextSearchParams w0)))).
  { apply getNextSearchParams_invariant with (I := fun w => store_bounded (seen w)).
    - intros w0 next w' Hstep.
      destruct (@select_step_returns _ _ _ Hstep) as (-> & _). auto.
    - intros w0 w' Hstep H.
      destruct (@select_step_recurses _ _ Hstep)
        as (c & d & t & _ & Hget & _ & _ & _ & -> & _).
      destruct (H _ _ Hget) as [Ht Hp]. now apply Hset. }
  split; [now apply Hnext|].
  revert params w Hpage Hw.
  induction fuel as [|fuel IH]; intros params w Hpage Hw; [exact Hw|].
  assert (Hfb : forall w1, store_bounded (seen w1) ->
                           store_bounded (seen (snd (fallback fuel w1)))).
  { intros w1 H1. pose proof (Hnext w1 H1) as Hn.
    pose proof (getNextSearchParams_world w1) as [_ Hp].
    unfold fallback. destruct (getNextSearchParams w1) as [np w2].
    apply IH; [cbn in Hp; lia|exact Hn]. }
  destruct (tryFetch_cases fuel params w)
    as [(e & _ & ->)|[(r & _ & _ & ->)|(r & Hr & H0 & ->)]].
  - destruct (includes _ _); [exact Hw|]. now apply Hfb.
  - apply Hfb. unfold record_no_results.
    cbn [seen saveSeenRepositories set_stored set_seen count_attempt].
    destruct (seen_get _ (seen w)) as [d|] eqn:Hget.
    + destruct (Hw _ _ Hget) as [Ht Hp]. now apply Hset.
    + apply Hset; [exact Hw| |discriminate].
      exists 0. split; [reflexivity|unfold MAX_PAGES; lia].
  - cbn [snd]. unfold record_results.
    cbn [seen saveSeenRepositories set_stored set_seen count_attempt].
    assert (Hle : page params <= MAX_PAGES /\ 0 <= total_count r).
    { revert Hr. unfold fetchRepositoriesPage.
      destruct (Z.gtb_spec (page params) MAX_PAGES); [discriminate|].
      destruct (network _ _) as [e|status data] eqn:En; [discriminate|].
      destruct (negb (response_ok status)).
      - destruct (status =? 403); [discriminate|].
        destruct (status =? 422); [discriminate|].
        destruct (status =? 401); discriminate.
      - intros [= <-]. split; [lia|]. now apply (Hnet _ _ _ _ En). }
    destruct Hle as [Hle Hcount].
    assert (Hadd : forall pages,
               (forall p, set_has p pages = true -> 1 <= p <= MAX_PAGES) ->
               forall p, set_has p (set_add (page params) pages) = true ->
                         1 <= p <= MAX_PAGES).
    { intros pages Hp p. rewrite set_has_add. intros H.
      apply orb_prop in H. destruct H as [H|H]; [now apply Hp|].
      apply Z.eqb_eq in H. lia. }
    destruct (seen_get _ (seen w)) as [d|] eqn:Hget.
    + destruct (Hw _ _ Hget) as [Ht Hp]. apply Hset; [exact Hw|exact Ht|].
      cbn [seenPages]. now apply Hadd.
    + apply Hset; [exact Hw| |].
      * cbn [totalPages]. eexists. split; [reflexivity|].
        unfold ceil_div10, MAX_PAGES.
        pose proof (Z.div_mod (total_count r + 9) 10).
        pose proof (Z.mod_pos_bound (total_count r + 9) 10). lia.
      * cbn [seenPages]. apply Hadd. discriminate.
Qed.

(** ** The store stays well formed *)

(** A key is the text of a JSON object: it starts with a brace, so it is
    neither an array index nor the name [seenPages]. *)
Lemma criteria_key_opens c : exists rest, criteria_key c = String "{" rest.
Proof. eexists. reflexivity. Qed.

Lemma criteria_key_is_not_seenPages c :
  String.eqb (criteria_key c) "seenPages" = false.
Proof. destruct (criteria_key_opens c) as [rest ->]. reflexivity. Qed.

Lemma seen_get_In key d s : seen_get key s = Some d -> In (key, d) s.
Proof.
  induction s as [|[k d0] s IH]; cbn; [discriminate|].
  destruct (String.eqb_spec key k) as [->|N].
  - intros [= ->]. now left.
  - intros H. right. now apply IH.
Qed.

Lemma seen_get_absent key s : seen_get key s = None -> ~ In key (map fst s).
Proof.
  induction s as [|[k d0] s IH]; cbn; [tauto|].
  destruct (String.eqb_spec key k) as [->|N]; [discriminate|].
  intros H [E|Hin]; [congruence|]. now apply IH.
Qed.

Lemma seen_set_fresh key d s :
  seen_get key s = None -> seen_set key d s = s ++ [(key, d)].
Proof.
  induction s as [|[k d0] s IH]; cbn; [reflexivity|].
  destruct (String.eqb key k); [discriminate|]. intros H. now rewrite IH.
Qed.

Lemma seen_set_In k d0 key d s :
  In (k, d0) (seen_set key d s) -> (k = key /\ d0 = d) \/ In (k, d0) s.
Proof.
  induction s as [|[k' d'] s IH]; cbn.
  - intros [[= <- <-]|[]]. now left.
  - destruct (String.eqb_spec key k') as [->|N]; cbn.
    + intros [[= <- <-]|H]; [now left|right; now right].
    + intros [H|H]; [right; now left|].
      destruct (IH H) as [E|Hin]; [now left|right; now right].
Qed.

Lemma store_ok_set key d s :
  store_ok s -> String.eqb key "seenPages" = false -> NoDup (seenPages d) ->
  store_ok (seen_set key d s).
Proof.
  intros [Hk Hs] Hkey Hd. split.
  - destruct (seen_get key s) as [d0|] eqn:E.
    + now rewrite (@seen_set_keys key d0 d s E).
    + rewrite (@seen_set_fresh key d s E), map_app. cbn.
      apply NoDup_app; [exact Hk|repeat constructor; intros []|].
      intros x Hx [<-|[]]. now apply seen_get_absent in E.
  - intros k d0 Hin. apply seen_set_In in Hin.
    destruct Hin as [[-> ->]|Hin]; [now split|now apply Hs].
Qed.

Lemma set_add_NoDup p pages : NoDup pages -> NoDup (set_add p pages).
Proof.
  intros H. unfold set_add. destruct (set_has p pages) eqn:E; [exact H|].
  apply NoDup_app; [exact H|repeat constructor; intros []|].
  intros x Hx [<-|[]].
  assert (set_has p pages = true); [|congruence].
  apply existsb_exists. exists p. split; [exact Hx|apply Z.eqb_refl].
Qed.

Lemma store_ok_entry key d s :
  store_ok s -> seen_get key s = Some d -> NoDup (seenPages d).
Proof. intros [_ Hs] H. apply seen_get_In in H. now apply Hs in H. Qed.

Lemma store_ok_record_no_results c w :
  store_ok (seen w) -> store_ok (seen (record_no_results (criteria_key c) w)).
Proof.
  intros H. unfold record_no_results.
  cbn [seen saveSeenRepositories set_stored set_seen].
  apply store_ok_set; [exact H|apply criteria_key_is_not_seenPages|].
  destruct (seen_get _ (seen w)) eqn:E;
    [now apply (@store_ok_entry _ _ _ H E)|constructor].
Qed.

Lemma store_ok_record_results params response w :
  store_ok (seen w) -> store_ok (seen (record_results params response w)).
Proof.
  intros H. unfold record_results.
  cbn [seen saveSeenRepositories set_stored set_seen].
  apply store_ok_set; [exact H|apply criteria_key_is_not_seenPages|].
  cbn [seenPages]. apply set_add_NoDup.
  destruct (seen_get _ (seen w)) eqn:E;
    [now apply (@store_ok_entry _ _ _ H E)|constructor].
Qed.

Lemma store_ok_getNextSearchParams w :
  store_ok (seen w) -> store_ok (seen (snd (getNextSearchParams w))).
Proof.
  apply getNextSearchParams_invariant with (I := fun w => store_ok (seen w)).
  - intros w0 next w' Hstep.
    destruct (@select_step_returns _ _ _ Hstep) as (-> & _). auto.
  - intros w0 w' Hstep H.
    destruct (@select_step_recurses _ _ Hstep)
      as (c & d & t & _ & Hget & _ & _ & _ & -> & _).
    apply store_ok_set; [exact H|apply criteria_key_is_not_seenPages|].
    cbn. now apply (@store_ok_entry _ _ _ H Hget).
Qed.

Lemma store_ok_tryFetchWithParams fuel params w :
  store_ok (seen w) -> store_ok (seen (snd (tryFetchWithParams fuel params w))).
Proof.
  apply tryFetchWithParams_invariant with (I := fun w => store_ok (seen w)); auto.
  - intros c w0. apply store_ok_record_no_results.
  - intros params0 response w0. apply store_ok_record_results.
  - intros w0. apply store_ok_getNextSearchParams.
Qed.

(** X11.  The cursor keeps the store well formed: no key twice, no entry under
    the name [seenPages], no page twice in an entry, after
    [getNextSearchParams] and after [tryFetchWithParams] however it ends. *)
Theorem cursor_keeps_the_store_well_formed fuel params w :
  store_ok (seen w) ->
  store_ok (seen (snd (getNextSearchParams w))) /\
  store_ok (seen (snd (tryFetchWithParams fuel params w))).
Proof.
  intros H. split.
  - now apply store_ok_getNextSearchParams.
  - now apply store_ok_tryFetchWithParams.
Qed.

(** ** The reset is written over *)

Lemma is_exhausted_set_other key d s c :
  criteria_key c <> key ->
  is_exhausted (seen_set key d s) c = is_exhausted s c.
Proof. intros N. unfold is_exhausted. now rewrite seen_get_set_other. Qed.

(** X12.  The object [seen] survives the reset. When every criteria is
    exhausted [getNextSearchParams] removes the stored item and answers page 1
    of the first criteria; if that page has results, [tryFetchWithParams]
    saves the object it holds: the stored item is there again, and in it every
    criteria with another key than the first is exhausted as before. *)
Theorem reset_is_written_over w response :
  all_exhausted (seen w) ->
  let (next, w1) := getNextSearchParams w in
  fetchRepositoriesPage next (network (attempts w1)) = Return response ->
  total_count response <> 0 ->
  let w2 := snd (tryFetchWithParams 1 next w1) in
  stored w1 = None /\
  stored w2 = Some (serialize (seen w2)) /\
  forall c, In c SEARCH_CRITERIAS ->
    criteria_key (with_language c) <> criteria_key (criteria next) ->
    is_exhausted (seen w2) (with_language c) = true.
Proof.
  intros Hall. pose proof Hall as Hav. apply all_exhausted_available in Hav.
  rewrite getNextSearchParams_eq, (select_step_reset _ Hav).
  intros Hr H0. rewrite (@tryFetch_results 0%nat _ _ _ Hr H0).
  cbn [snd]. split; [reflexivity|]. split; [reflexivity|].
  intros c Hc N. unfold record_results.
  cbn [seen saveSeenRepositories set_stored set_seen count_attempt count_selection
       criteria].
  rewrite is_exhausted_set_other by exact N. now apply Hall.
Qed.

End Cursor.

(* ===================================================================== *)
(** * Facts about JSON text *)
(* ===================================================================== *)

Module JSONFacts.

Local Open Scope string_scope.

(** ** The fuel is enough *)

Lemma span_digits_length s :
  (String.length (snd (span_digits s)) <= String.length s)%nat.
Proof.
  induction s as [|c s IH]; cbn; [lia|].
  destruct (is_digit c); [|cbn; lia].
  destruct (span_digits s); cbn in *. lia.
Qed.

Lemma span_digits_rest s d r :
  span_digits s = (d, r) -> (String.length r <= String.length s)%nat.
Proof.
  intros H. pose proof (span_digits_length s) as L. now rewrite H in L.
Qed.

Lemma lex_int_part_length s d r :
  lex_int_part s = Some (d, r) -> (String.length r < String.length s)%nat.
Proof.
  destruct s as [|c s]; cbn [lex_int_part]; [discriminate|].
  destruct (Ascii.eqb c "0"); [intros [= <- <-]; cbn; lia|].
  destruct (is_digit c) eqn:E; [|discriminate].
  cbn [span_digits]. rewrite E.
  destruct (span_digits s) as [d' r'] eqn:Es. intros [= <- <-].
  apply span_digits_rest in Es. cbn. lia.
Qed.

Lemma lex_fraction_length s f r :
  lex_fraction s = Some (f, r) -> (String.length r <= String.length s)%nat.
Proof.
  destruct s as [|c s]; cbn [lex_fraction]; [intros [= <- <-]; lia|].
  destruct (Ascii.eqb c "."); [|intros [= <- <-]; lia].
  destruct (span_digits s) as [[|a d] r'] eqn:Es; [discriminate|].
  intros [= <- <-]. apply span_digits_rest in Es. cbn. lia.
Qed.

Lemma lex_exponent_length s e r :
  lex_exponent s = Some (e, r) -> (String.length r <= String.length s)%nat.
Proof.
  destruct s as [|c s]; cbn [lex_exponent]; [intros [= <- <-]; lia|].
  destruct (Ascii.eqb c "e" || Ascii.eqb c "E"); [|intros [= <- <-]; lia].
  destruct s as [|c' s'].
  - cbn. discriminate.
  - destruct (Ascii.eqb c' "+" || Ascii.eqb c' "-").
    + destruct (span_digits s') as [[|a d] r'] eqn:Es; [discriminate|].
      intros [= <- <-]. apply span_digits_rest in Es. cbn. lia.
    + destruct (span_digits (String c' s')) as [[|a d] r'] eqn:Es; [discriminate|].
      intros [= <- <-]. apply span_digits_rest in Es. cbn in *. lia.
Qed.

Lemma strip_minus_length s :
  (String.length (snd (strip_minus s)) <= String.length s)%nat.
Proof.
  destruct s as [|c s]; cbn; [lia|]. destruct (Ascii.eqb c "-"); cbn; lia.
Qed.

Lemma lex_number_length s t r :
  lex_number s = Some (t, r) -> (String.length r < String.length s)%nat.
Proof.
  unfold lex_number. pose proof (strip_minus_length s) as Hm.
  destruct (strip_minus s) as [minus s1]. cbn [snd] in Hm.
  destruct (lex_int_part s1) as [[digits s2]|] eqn:E1; [|discriminate].
  destruct (lex_fraction s2) as [[fraction s3]|] eqn:E2; [|discriminate].
  destruct (lex_exponent s3) as [[exponent s4]|] eqn:E3; [|discriminate].
  apply lex_int_part_length in E1. apply lex_fraction_length in E2.
  apply lex_exponent_length in E3.
  destruct fraction, exponent; intros [= _ <-]; lia.
Qed.

Lemma prepend_some p x str rest :
  prepend p x = Some (str, rest) -> exists s0, x = Some (s0, rest).
Proof.
  destruct x as [[s0 r0]|]; cbn; [|discriminate]. intros [= _ <-]. now exists s0.
Qed.

Lemma lex_string_length n : forall s str r,
  (String.length s <= n)%nat ->
  lex_string s = Some (str, r) -> (String.length r < String.length s)%nat.
Proof.
  induction n as [|n IH]; intros s str r Hn; destruct s as [|c s];
    cbn [lex_string]; try discriminate; cbn in Hn; [lia|].
  destruct (Ascii.eqb c dquote); [intros [= _ <-]; cbn; lia|].
  destruct (Ascii.eqb c "\").
  - destruct s as [|e s]; [discriminate|].
    destruct (Ascii.eqb e "u").
    + destruct s as [|h1 [|h2 [|h3 [|h4 s]]]]; try discriminate.
      destruct (hex4 h1 h2 h3 h4); [|discriminate].
      intros H. apply prepend_some in H. destruct H as [s0 H].
      apply IH in H; cbn in *; lia.
    + destruct (unescape e); [|discriminate].
      intros H. apply prepend_some in H. destruct H as [s0 H].
      apply IH in H; cbn in *; lia.
  - destruct (Nat.ltb (nat_of_ascii c) 32); [discriminate|].
    intros H. apply prepend_some in H. destruct H as [s0 H].
    apply IH in H; cbn in *; lia.
Qed.

Lemma strip_prefix_length p : forall s r,
  strip_prefix p s = Some r ->
  String.length s = (String.length p + String.length r)%nat.
Proof.
  induction p as [|a p IH]; intros s r; cbn.
  - now intros [= <-].
  - destruct s as [|b s]; [discriminate|].
    destruct (Ascii.eqb a b); [|discriminate].
    intros H. apply IH in H. cbn. lia.
Qed.

(** Any fuel above the length of the text gives the same tokens: a text that
    [lex] rejects is rejected for what it holds. *)
Lemma lex_fuel k : forall s n m,
  (String.length s <= k)%nat ->
  (String.length s < n)%nat -> (String.length s < m)%nat ->
  lex n s = lex m s.
Proof.
  induction k as [|k IH]; intros s n m Hk Hn Hm;
    destruct n as [|n]; try lia; destruct m as [|m]; try lia;
    destruct s as [|c r]; try reflexivity; cbn in Hk, Hn, Hm; [lia|].
  cbn [lex].
  repeat match goal with
         | |- (if ?b then _ else _) = (if ?b then _ else _) => destruct b
         end;
    try reflexivity;
    try (apply IH; lia);
    try (f_equal; apply IH; lia).
  - destruct (lex_string r) as [[str r']|] eqn:E; [|reflexivity].
    apply (@lex_string_length _ r str r' (le_n _)) in E. f_equal. apply IH; lia.
  - destruct (lex_number (String c r)) as [[t r']|] eqn:E; [|reflexivity].
    apply lex_number_length in E. cbn in E. f_equal. apply IH; lia.
  - destruct (strip_prefix "true" (String c r)) as [r'|] eqn:E; [|reflexivity].
    apply strip_prefix_length in E. cbn in E. f_equal. apply IH; lia.
  - destruct (strip_prefix "false" (String c r)) as [r'|] eqn:E; [|reflexivity].
    apply strip_prefix_length in E. cbn in E. f_equal. apply IH; lia.
  - destruct (strip_prefix "null" (String c r)) as [r'|] eqn:E; [|reflexivity].
    apply strip_prefix_length in E. cbn in E. f_equal. apply IH; lia.
Qed.

Ltac parse_cases :=
  repeat match goal with
         | H : match ?x with _ => _ end = Some _ |- _ =>
             destruct x eqn:?; try discriminate H
         | H : Some _ = Some _ |- _ => injection H as <- <-
         end.

(** Each of the three parsers takes at least one token. *)
Lemma parse_rest n :
  (forall ts j r, parse_value n ts = Some (j, r) ->
                  (List.length r < List.length ts)%nat) /\
  (forall ts l r, parse_elements n ts = Some (l, r) ->
                  (List.length r < List.length ts)%nat) /\
  (forall ts l r, parse_members n ts = Some (l, r) ->
                  (List.length r < List.length ts)%nat).
Proof.
  induction n as [|n (IHv & IHe & IHm)]; [repeat split; discriminate|].
  split; [|split]; intros ts j r H;
    cbn [parse_value parse_elements parse_members] in H; parse_cases;
    repeat match goal with
           | E : parse_value n _ = Some _ |- _ => apply IHv in E
           | E : parse_elements n _ = Some _ |- _ => apply IHe in E
           | E : parse_members n _ = Some _ |- _ => apply IHm in E
           end;
    cbn [List.length] in *; lia.
Qed.

(** Any fuel above the number of tokens gives the same result. *)
Lemma parse_fuel k :
  (forall ts n m, (List.length ts <= k)%nat ->
     (List.length ts < n)%nat -> (List.length ts < m)%nat ->
     parse_value n ts = parse_value m ts) /\
  (forall ts n m, (List.length ts <= k)%nat ->
     (List.length ts < n)%nat -> (List.length ts < m)%nat ->
     parse_elements n ts = parse_elements m ts) /\
  (forall ts n m, (List.length ts <= k)%nat ->
     (List.length ts < n)%nat -> (List.length ts < m)%nat ->
     parse_members n ts = parse_members m ts).
Proof.
  induction k as [|k (IHv & IHe & IHm)].
  - repeat split; intros [|t ts] [|n] [|m] Hk Hn Hm; cbn in *;
      try lia; reflexivity.
  - split; [|split]; intros ts [|n] [|m] Hk Hn Hm; try lia;
      cbn [parse_value parse_elements parse_members];
      repeat match goal with
             | |- match ?l with [] => _ | _ :: _ => _ end = _ =>
                 destruct l as [|[] ?]; try reflexivity
             end;
      cbn [List.length] in *;
      match goal with
      | |- context [parse_value n ?X] =>
          rewrite (IHv X n m) by (cbn [List.length]; lia);
          destruct (parse_value m X) as [[? ?r1]|] eqn:E; [|reflexivity];
          apply (proj1 (parse_rest m)) in E; cbn [List.length] in E
      end;
      match goal with
      | |- context [parse_elements n ?X] => rewrite (IHe X n m) by lia
      | |- context [parse_members n ?X] => rewrite (IHm X n m) by lia
      end;
      reflexivity.
Qed.

(** [parse] with more fuel than it takes gives what [parse] gives. *)
Lemma parse_fuel_enough text n m :
  (String.length text < n)%nat ->
  match lex n text with
  | None => parse text = None
  | Some ts =>
      (List.length ts < m)%nat ->
      parse text = match parse_value m ts with
                   | Some (j, []) => Some j
                   | _ => None
                   end
  end.
Proof.
  intros Hn. unfold parse.
  rewrite (@lex_fuel _ text (S (String.length text)) n (le_n _)) by lia.
  destruct (lex n text) as [ts|]; [|reflexivity].
  intros Hm.
  now rewrite (proj1 (parse_fuel _) ts (S (List.length ts)) m (le_n _)) by lia.
Qed.

(** ** Printing, then parsing *)

Lemma span_digits_uint (u : Decimal.uint) rest :
  number_end rest = true ->
  span_digits (NilEmpty.string_of_uint u ++ rest) = (NilEmpty.string_of_uint u, rest).
Proof.
  intros Hr. induction u; cbn; try (rewrite IHu; reflexivity).
  destruct rest as [|c r]; [reflexivity|]. cbn in *.
  destruct (is_digit c); [discriminate|reflexivity].
Qed.

Lemma Z_of_digits_uint (u : Decimal.uint) :
  Z_of_digits (NilEmpty.string_of_uint u) = Z.of_uint u.
Proof. unfold Z_of_digits. now rewrite NilEmpty.usu. Qed.

Lemma nzhead_not_D0 (u u' : Decimal.uint) : Decimal.nzhead u <> Decimal.D0 u'.
Proof. induction u; cbn; try discriminate. exact IHu. Qed.

Lemma to_uint_head (p : positive) :
  match Pos.to_uint p with
  | Decimal.Nil | Decimal.D0 _ => False
  | _ => True
  end.
Proof.
  pose proof (DecimalPos.Unsigned.to_of (Pos.to_uint p)) as H.
  rewrite DecimalPos.Unsigned.of_to in H. cbn [N.to_uint] in H.
  pose proof (DecimalPos.Unsigned.to_uint_nonnil p) as Hnil.
  pose proof (DecimalPos.Unsigned.to_uint_nonzero p) as Hzero.
  destruct (Pos.to_uint p) as [|u| | | | | | | | |]; try exact I.
  - now apply Hnil.
  - unfold Decimal.unorm in H. cbn [Decimal.nzhead] in H.
    destruct (Decimal.nzhead u) eqn:E.
    + apply Hzero. exact H.
    + exact (@nzhead_not_D0 u u0 E).
    + congruence. + congruence. + congruence. + congruence. + congruence.
    + congruence. + congruence. + congruence. + congruence.
Qed.

Lemma digit_cases (P : ascii -> Prop) :
  P "0"%char -> P "1"%char -> P "2"%char -> P "3"%char -> P "4"%char ->
  P "5"%char -> P "6"%char -> P "7"%char -> P "8"%char -> P "9"%char ->
  forall c, is_digit c = true -> P c.
Proof.
  intros. destruct c as [[|] [|] [|] [|] [|] [|] [|] [|]];
    try discriminate; assumption.
Qed.

Lemma lex_fraction_none rest :
  number_end rest = true -> lex_fraction rest = Some ("", rest).
Proof.
  destruct rest as [|c r]; [reflexivity|].
  destruct c as [[|] [|] [|] [|] [|] [|] [|] [|]]; try reflexivity;
    discriminate.
Qed.

Lemma lex_exponent_none rest :
  number_end rest = true -> lex_exponent rest = Some ("", rest).
Proof.
  destruct rest as [|c r]; [reflexivity|].
  destruct c as [[|] [|] [|] [|] [|] [|] [|] [|]]; try reflexivity;
    discriminate.
Qed.

Lemma lex_number_digits c r rest :
  is_digit c = true -> c <> "0"%char ->
  span_digits (String c r ++ rest) = (String c r, rest) ->
  number_end rest = true ->
  lex_number (String c r ++ rest) = Some (TNum (Z_of_digits (String c r)), rest) /\
  lex_number (String "-" (String c r) ++ rest)
  = Some (TNum (- Z_of_digits (String c r)), rest).
Proof.
  intros Hd H0 Hs Hr.
  assert (Hi : lex_int_part (String c r ++ rest) = Some (String c r, rest)).
  { unfold lex_int_part. cbn [append].
    destruct (Ascii.eqb_spec c "0"); [contradiction|]. rewrite Hd.
    f_equal. exact Hs. }
  assert (Hm : strip_minus (String c r ++ rest) = (false, String c r ++ rest)).
  { cbn [append strip_minus]. pattern c.
    apply digit_cases; try reflexivity; exact Hd. }
  unfold lex_number. split.
  - rewrite Hm. cbv beta iota.
    rewrite Hi, (lex_fraction_none _ Hr), (lex_exponent_none _ Hr).
    reflexivity.
  - change (strip_minus (String "-" (String c r) ++ rest))
      with (true, String c r ++ rest). cbv beta iota.
    rewrite Hi, (lex_fraction_none _ Hr), (lex_exponent_none _ Hr).
    reflexivity.
Qed.

Lemma string_of_positive (p : positive) :
  exists c r,
    NilEmpty.string_of_uint (Pos.to_uint p) = String c r /\
    is_digit c = true /\ c <> "0"%char /\
    Z_of_digits (String c r) = Zpos p.
Proof.
  pose proof (to_uint_head p) as Hh.
  pose proof (Z_of_digits_uint (Pos.to_uint p)) as Hz.
  assert (Hv : Z.of_uint (Pos.to_uint p) = Zpos p).
  { unfold Z.of_uint. now rewrite DecimalPos.Unsigned.of_to. }
  rewrite Hv in Hz. clear Hv.
  destruct (Pos.to_uint p) as [|u|u|u|u|u|u|u|u|u|u]; try contradiction;
    cbn [NilEmpty.string_of_uint] in *;
    (eexists; eexists; split; [reflexivity|]);
    (split; [reflexivity|split; [discriminate|exact Hz]]).
Qed.

(** The text of an integer starts with a digit or a minus sign and is read
    back as the integer, when what follows cannot continue a number. *)
Lemma lex_number_string_of_Z z rest :
  number_end rest = true ->
  lex_number (string_of_Z z ++ rest) = Some (TNum z, rest) /\
  exists c r, string_of_Z z = String c r /\
              (is_digit c = true \/ c = "-"%char).
Proof.
  intros Hr. unfold string_of_Z. destruct z as [|p|p]; cbn [Z.to_int].
  - split.
    + cbn. rewrite (lex_fraction_none _ Hr), (lex_exponent_none _ Hr).
      reflexivity.
    + exists "0"%char, "". split; [reflexivity|now left].
  - destruct (string_of_positive p) as (c & r & E & Hd & H0 & Hz).
    pose proof (span_digits_uint (Pos.to_uint p) rest Hr) as Hs.
    assert (En : NilZero.string_of_int (Decimal.Pos (Pos.to_uint p)) = String c r).
    { cbn. unfold NilZero.string_of_uint. rewrite <- E.
      destruct (Pos.to_uint p); try reflexivity. discriminate E. }
    rewrite En. rewrite E in Hs. split.
    + rewrite <- Hz. now apply lex_number_digits.
    + exists c, r. split; [reflexivity|now left].
  - destruct (string_of_positive p) as (c & r & E & Hd & H0 & Hz).
    pose proof (span_digits_uint (Pos.to_uint p) rest Hr) as Hs.
    assert (En : NilZero.string_of_int (Decimal.Neg (Pos.to_uint p))
                 = String "-" (String c r)).
    { cbn. unfold NilZero.string_of_uint. rewrite <- E.
      destruct (Pos.to_uint p); try reflexivity. discriminate E. }
    rewrite En. rewrite E in Hs. split.
    + change (Z.neg p) with (- Z.pos p). rewrite <- Hz.
      now apply lex_number_digits.
    + exists "-"%char, (String c r). split; [reflexivity|now right].
Qed.

Lemma append_assoc' (a b c : string) : (a ++ b) ++ c = a ++ (b ++ c).
Proof. induction a; cbn; [reflexivity|now rewrite IHa]. Qed.

Lemma length_append' (a b : string) :
  String.length (a ++ b) = (String.length a + String.length b)%nat.
Proof. induction a; cbn; [reflexivity|now rewrite IHa]. Qed.

Lemma lex_string_escape_char c tail :
  lex_string (escape_char c ++ tail) = prepend (String c "") (lex_string tail).
Proof.
  destruct c as [[|] [|] [|] [|] [|] [|] [|] [|]]; reflexivity.
Qed.

(** A quoted string is read back as the string. *)
Lemma lex_string_escape s rest :
  lex_string (escape s ++ String dquote rest) = Some (s, rest).
Proof.
  induction s as [|c s IH]; [reflexivity|].
  cbn [escape]. rewrite append_assoc', lex_string_escape_char, IH. reflexivity.
Qed.

Lemma number_end_render ts :
  not_a_number ts = true -> number_end (render ts) = true.
Proof.
  destruct ts as [|t ts]; [reflexivity|].
  destruct t; try discriminate; reflexivity.
Qed.

Lemma lex_number_branch c r fuel :
  is_digit c = true \/ c = "-"%char ->
  lex (S fuel) (String c r) =
  match lex_number (String c r) with
  | Some (t, r') => then_token t (lex fuel r')
  | None => None
  end.
Proof.
  intros [H| ->]; [|reflexivity].
  revert r. pattern c. apply digit_cases; try exact H; reflexivity.
Qed.

(** The tokens of a printed text are the tokens it was printed from. *)
Lemma lex_render ts :
  lexable ts = true ->
  forall fuel, (String.length (render ts) < fuel)%nat ->
  lex fuel (render ts) = Some ts.
Proof.
  induction ts as [|t ts IH]; intros Hl fuel Hf.
  - destruct fuel; [inversion Hf|reflexivity].
  - destruct fuel as [|fuel]; [inversion Hf|].
    cbn [render] in *. rewrite length_append' in Hf.
    destruct t; cbn [lexable] in Hl; try discriminate Hl;
      try (cbn in Hf |- *; rewrite IH; [reflexivity|exact Hl|lia]).
    + (* a number *)
      apply andb_prop in Hl. destruct Hl as [Hn Hl].
      apply number_end_render in Hn. cbn [token_text] in *.
      destruct (lex_number_string_of_Z z _ Hn) as (E & c & r & Ez & Hc).
      rewrite Ez in *. cbn [append] in *.
      rewrite (lex_number_branch _ _ Hc), E. cbn in Hf.
      rewrite IH; [reflexivity|exact Hl|lia].
    + (* a string *)
      cbn [token_text quote append]. rewrite append_assoc'. cbn [append].
      change (lex (S fuel) (String dquote (escape s ++ String dquote (render ts))))
        with (match lex_string (escape s ++ String dquote (render ts)) with
              | Some (str, r') => then_token (TStr str) (lex fuel r')
              | None => None
              end).
      rewrite lex_string_escape.
      cbn [token_text quote String.length] in Hf.
      rewrite IH; [reflexivity|exact Hl|lia].
Qed.

Lemma json_induction (P : json -> Prop) :
  P JNull -> (forall b, P (JBool b)) -> (forall z, P (JNum z)) ->
  (forall lit, P (JReal lit)) -> (forall s, P (JStr s)) ->
  (forall l, Forall P l -> P (JArr l)) ->
  (forall l, Forall (fun kv => P (snd kv)) l -> P (JObj l)) ->
  forall j, P j.
Proof.
  intros Hnull Hbool Hnum Hreal Hstr Harr Hobj.
  fix IH 1. intros [|b|z|lit|s|l|l].
  - exact Hnull.
  - apply Hbool.
  - apply Hnum.
  - apply Hreal.
  - apply Hstr.
  - apply Harr. induction l as [|x l IHl]; constructor; [apply IH|exact IHl].
  - apply Hobj. induction l as [|[k x] l IHl]; constructor; [apply IH|exact IHl].
Qed.

Lemma member_put_fresh k v ms :
  existsb (String.eqb k) (map fst ms) = false ->
  member_put k v ms = (ms ++ [(k, v)])%list.
Proof.
  induction ms as [|[k' v'] ms IH]; cbn; [reflexivity|].
  destruct (String.eqb k k'); [discriminate|]. cbn. intros H. now rewrite IH.
Qed.

Lemma existsb_app_false {A} (f : A -> bool) l1 l2 :
  existsb f (l1 ++ l2)%list = false <->
  existsb f l1 = false /\ existsb f l2 = false.
Proof.
  rewrite existsb_app. destruct (existsb f l1), (existsb f l2); cbn; intuition.
Qed.

Lemma object_of_distinct ms :
  distinct (map fst ms) = true -> object_of ms = ms.
Proof.
  unfold object_of.
  assert (H : forall l acc,
             distinct (map fst l) = true ->
             (forall k, In k (map fst l) ->
                        existsb (String.eqb k) (map fst acc) = false) ->
             fold_left (fun acc kv => member_put (fst kv) (snd kv) acc) l acc
             = (acc ++ l)%list).
  { induction l as [|[k v] l IH]; intros acc Hd Hacc; cbn.
    - now rewrite app_nil_r.
    - cbn in Hd. apply andb_prop in Hd. destruct Hd as [Hk Hd].
      apply negb_true_iff in Hk.
      rewrite member_put_fresh by (apply Hacc; now left).
      rewrite IH; [now rewrite <- app_assoc|exact Hd|].
      intros k' Hk'. rewrite map_app. apply existsb_app_false. split.
      + apply Hacc. now right.
      + cbn. rewrite orb_false_r.
        destruct (String.eqb_spec k' k) as [->|N]; [|reflexivity].
        exfalso. assert (E : existsb (String.eqb k) (map fst l) = true).
        { apply existsb_exists. exists k. split; [exact Hk'|apply String.eqb_refl]. }
        congruence. }
  intros Hd. rewrite (H ms [] Hd); [reflexivity|]. intros; reflexivity.
Qed.

Lemma tokens_open j rest : printable j = true -> opens_value (tokens j ++ rest) = true.
Proof. destruct j as [|[|]| | | | |]; try reflexivity. discriminate. Qed.

Lemma parse_array_open fuel r :
  opens_value r = true ->
  parse_value (S fuel) (TLBrack :: r) =
  match parse_value fuel r with
  | Some (v, r1) =>
      match parse_elements fuel r1 with
      | Some (vs, r2) => Some (JArr (v :: vs), r2)
      | None => None
      end
  | None => None
  end.
Proof. destruct r as [|[] r]; try discriminate; reflexivity. Qed.

Lemma parse_elements_back xs :
  Forall parsed_back xs -> forallb printable xs = true ->
  forall fuel rest,
    (List.length (flat_map element_tokens xs) < fuel)%nat ->
    parse_elements fuel (flat_map element_tokens xs ++ TRBrack :: rest)
    = Some (xs, rest).
Proof.
  induction 1 as [|x xs Hx _ IH]; intros Hp fuel rest Hf.
  - destruct fuel; [inversion Hf|reflexivity].
  - cbn in Hp. apply andb_prop in Hp. destruct Hp as [Hpx Hp].
    destruct fuel as [|fuel]; [inversion Hf|].
    cbn [flat_map element_tokens app List.length] in *.
    rewrite length_app in Hf. rewrite <- app_assoc.
    cbn [parse_elements]. rewrite (Hx Hpx) by lia.
    rewrite IH by (auto; lia). reflexivity.
Qed.

Lemma parse_members_back ms :
  Forall (fun kv => parsed_back (snd kv)) ms ->
  forallb (fun kv => printable (snd kv)) ms = true ->
  forall fuel rest,
    (List.length (flat_map (fun kv => TComma :: member_tokens kv) ms) < fuel)%nat ->
    parse_members fuel
      (flat_map (fun kv => TComma :: member_tokens kv) ms ++ TRBrace :: rest)
    = Some (ms, rest).
Proof.
  induction 1 as [|[k x] ms Hx _ IH]; intros Hp fuel rest Hf.
  - destruct fuel; [inversion Hf|reflexivity].
  - cbn in Hp. apply andb_prop in Hp. destruct Hp as [Hpx Hp].
    destruct fuel as [|fuel]; [inversion Hf|].
    cbn [flat_map member_tokens app fst snd List.length] in *.
    rewrite length_app in Hf. rewrite <- app_assoc.
    cbn [parse_members]. cbn [snd] in Hx. rewrite (Hx Hpx) by lia.
    rewrite IH by (auto; lia). reflexivity.
Qed.

(** The tokens of a value are parsed back as the value. *)
Lemma parse_tokens j : parsed_back j.
Proof.
  induction j as [|b|z|lit|s|l IH|l IH] using json_induction;
    intros Hp fuel rest Hf;
    try (destruct fuel; [inversion Hf|reflexivity]).
  - destruct b; (destruct fuel; [inversion Hf|reflexivity]).
  - destruct fuel as [|fuel]; [inversion Hf|].
    destruct l as [|x xs]; [reflexivity|].
    inversion IH as [|? ? Hx Hxs]; subst.
    cbn in Hp. apply andb_prop in Hp. destruct Hp as [Hpx Hpxs].
    cbn [tokens map commas] in *.
    change (flat_map (fun g' => TComma :: g') (map tokens xs))
      with (flat_map (fun g' => TComma :: g') (map tokens xs)) in *.
    rewrite flat_map_concat_map, map_map, <- flat_map_concat_map in *.
    fold element_tokens in *. change (fun x => TComma :: tokens x) with element_tokens in *.
    cbn [app List.length] in *. rewrite !length_app in Hf. cbn in Hf.
    rewrite <- !app_assoc. cbn [app].
    rewrite parse_array_open by (now apply tokens_open).
    rewrite (Hx Hpx) by lia.
    rewrite (parse_elements_back Hxs Hpxs) by lia. reflexivity.
  - destruct fuel as [|fuel]; [inversion Hf|].
    destruct l as [|[k x] ms]; [reflexivity|].
    pose proof Hp as Hp0.
    cbn in Hp. apply andb_prop in Hp. destruct Hp as [Hd Hp].
    apply andb_prop in Hp. destruct Hp as [Hpx Hpms].
    inversion IH as [|? ? Hx Hms]; subst. cbn [snd] in Hx.
    cbn [tokens map commas fst snd] in *.
    rewrite flat_map_concat_map, map_map, <- flat_map_concat_map in *.
    change (fun x0 => TComma :: TStr (fst x0) :: TColon :: tokens (snd x0))
      with (fun kv => TComma :: member_tokens kv) in *.
    cbn [app List.length] in *. rewrite !length_app in Hf. cbn in Hf.
    rewrite <- !app_assoc. cbn [app parse_value].
    rewrite (Hx Hpx) by lia.
    rewrite (parse_members_back Hms Hpms) by lia.
    rewrite object_of_distinct; [reflexivity|exact Hd].
Qed.

Lemma lexable_elements xs :
  Forall lexed_back xs -> forallb printable xs = true ->
  forall rest, lexable rest = true ->
  lexable (flat_map element_tokens xs ++ TRBrack :: rest) = true.
Proof.
  induction 1 as [|x xs Hx _ IH]; intros Hp rest Hr; [exact Hr|].
  cbn in Hp. apply andb_prop in Hp. destruct Hp as [Hpx Hp].
  cbn [flat_map element_tokens app lexable]. rewrite <- app_assoc.
  apply (Hx Hpx); [|now apply IH].
  destruct xs; reflexivity.
Qed.

Lemma lexable_members ms :
  Forall (fun kv => lexed_back (snd kv)) ms ->
  forallb (fun kv => printable (snd kv)) ms = true ->
  forall rest, lexable rest = true ->
  lexable (flat_map (fun kv => TComma :: member_tokens kv) ms ++ TRBrace :: rest)
  = true.
Proof.
  induction 1 as [|[k x] ms Hx _ IH]; intros Hp rest Hr; [exact Hr|].
  cbn in Hp. apply andb_prop in Hp. destruct Hp as [Hpx Hp].
  cbn [flat_map member_tokens app lexable fst snd]. rewrite <- app_assoc.
  apply (Hx Hpx); [|now apply IH].
  destruct ms; reflexivity.
Qed.

Lemma lexable_tokens j : lexed_back j.
Proof.
  induction j as [|b|z|lit|s|l IH|l IH] using json_induction;
    intros Hp rest Hn Hr; try exact Hr.
  - destruct b; exact Hr.
  - cbn. now rewrite Hn, Hr.
  - discriminate Hp.
  - destruct l as [|x xs]; [exact Hr|].
    inversion IH as [|? ? Hx Hxs]; subst.
    cbn in Hp. apply andb_prop in Hp. destruct Hp as [Hpx Hpxs].
    cbn [tokens map commas].
    rewrite flat_map_concat_map, map_map, <- flat_map_concat_map.
    change (fun x => TComma :: tokens x) with element_tokens.
    cbn [app lexable]. rewrite <- !app_assoc. cbn [app].
    apply (Hx Hpx); [|now apply lexable_elements].
    destruct xs; reflexivity.
  - destruct l as [|[k x] ms]; [exact Hr|].
    cbn in Hp. apply andb_prop in Hp. destruct Hp as [Hd Hp].
    apply andb_prop in Hp. destruct Hp as [Hpx Hpms].
    inversion IH as [|? ? Hx Hms]; subst. cbn [snd] in Hx.
    cbn [tokens map commas fst snd].
    rewrite flat_map_concat_map, map_map, <- flat_map_concat_map.
    change (fun x0 => TComma :: TStr (fst x0) :: TColon :: tokens (snd x0))
      with (fun kv => TComma :: member_tokens kv).
    cbn [app lexable]. rewrite <- !app_assoc. cbn [app].
    apply (Hx Hpx); [|now apply lexable_members].
    destruct ms; reflexivity.
Qed.

(** [JSON.parse(JSON.stringify(j))] is [j]. *)
Theorem parse_print j : printable j = true -> parse (print j) = Some j.
Proof.
  intros Hp. unfold parse, print.
  rewrite lex_render; [|now rewrite <- (app_nil_r (tokens j)); apply lexable_tokens|lia].
  pose proof (@parse_tokens j Hp (S (List.length (tokens j))) []) as H.
  rewrite app_nil_r in H. rewrite H by lia. reflexivity.
Qed.

End JSONFacts.

(* ===================================================================== *)
(** * Saving and loading the store *)
(* ===================================================================== *)

Lemma internalize_array key l :
  internalize key (JArr l) =
  match internalize_elements O l with
  | Raised c => Raised c
  | Loaded vs => reviver key (VArr vs)
  end.
Proof. reflexivity. Qed.

Lemma internalize_object key l :
  internalize key (JObj l) =
  match internalize_members l with
  | Raised c => Raised c
  | Loaded vs => reviver key (VObj vs)
  end.
Proof. reflexivity. Qed.

Lemma string_of_Z_not_seenPages z :
  String.eqb (string_of_Z z) "seenPages" = false.
Proof.
  destruct (@JSONFacts.lex_number_string_of_Z z "" eq_refl) as (_ & c & r & -> & [H| ->]);
    [|reflexivity].
  revert r. pattern c. apply JSONFacts.digit_cases; try exact H; reflexivity.
Qed.

Lemma criteria_key_not_seenPages c :
  String.eqb (criteria_key c) "seenPages" = false.
Proof. reflexivity. Qed.

Lemma internalize_pages pages : forall i,
  internalize_elements i (map JNum pages) = Loaded (map VNum pages).
Proof.
  induction pages as [|z pages IH]; intros i; [reflexivity|].
  cbn [map internalize_elements internalize]. unfold reviver.
  rewrite string_of_Z_not_seenPages, IH. reflexivity.
Qed.

Lemma set_of_list_pages pages :
  NoDup pages -> set_of_list (map VNum pages) = map VNum pages.
Proof.
  unfold set_of_list.
  assert (H : forall l acc,
             NoDup (acc ++ l) ->
             fold_left (fun acc v => value_set_add v acc) (map VNum l) (map VNum acc)
             = map VNum (acc ++ l)).
  { induction l as [|z l IH]; intros acc Hnd; cbn.
    - now rewrite app_nil_r.
    - assert (Hz : existsb (same_value_zero (VNum z)) (map VNum acc) = false).
      { apply NoDup_remove_2 in Hnd.
        destruct (existsb _ _) eqn:E; [|reflexivity].
        apply existsb_exists in E. destruct E as (v & Hv & Hs).
        apply in_map_iff in Hv. destruct Hv as (z' & <- & Hz').
        cbn in Hs. apply Z.eqb_eq in Hs. subst z'.
        exfalso. apply Hnd. apply in_or_app. now left. }
      unfold value_set_add at 2. rewrite Hz.
      change (map VNum acc ++ [VNum z]) with (map VNum acc ++ map VNum [z]).
      rewrite <- map_app, IH; rewrite <- app_assoc; [reflexivity|exact Hnd]. }
  intros Hnd. exact (H pages [] Hnd).
Qed.

Lemma replace_sets_pages pages :
  map replace_sets (map VNum pages) = map JNum pages.
Proof. now rewrite map_map. Qed.

(** Loading the text of an entry gives the entry back, under any name but
    [seenPages]. *)
Lemma internalize_progress k d :
  String.eqb k "seenPages" = false -> NoDup (seenPages d) ->
  internalize k (replace_sets (progress_value d)) = Loaded (progress_value d).
Proof.
  intros Hk Hnd. unfold progress_value.
  cbn [replace_sets map fst snd]. rewrite replace_sets_pages.
  rewrite internalize_object. cbn [internalize_members].
  rewrite internalize_array, internalize_pages.
  unfold reviver at 1. cbn [String.eqb Ascii.eqb Bool.eqb new_Set].
  rewrite (set_of_list_pages Hnd).
  destruct (totalPages d) as [t|]; cbn [replace_sets internalize];
    unfold reviver; rewrite Hk; reflexivity.
Qed.

Lemma internalize_store s :
  (forall key d, In (key, d) s ->
     String.eqb key "seenPages" = false /\ NoDup (seenPages d)) ->
  internalize_members
    (map (fun kv => (fst kv, replace_sets (snd kv)))
         (map (fun kd => (fst kd, progress_value (snd kd))) s))
  = Loaded (map (fun kd => (fst kd, progress_value (snd kd))) s).
Proof.
  induction s as [|[k d] s IH]; intros H; [reflexivity|].
  cbn [map fst snd internalize_members].
  destruct (H k d (or_introl eq_refl)) as [Hk Hnd].
  rewrite (@internalize_progress k d Hk Hnd), IH; [reflexivity|].
  intros k' d' Hin. apply H. now right.
Qed.

Lemma distinct_NoDup l : NoDup l -> JSON.distinct l = true.
Proof.
  induction 1 as [|k l Hk _ IH]; [reflexivity|]. cbn. rewrite IH, andb_true_r.
  apply negb_true_iff. destruct (existsb _ _) eqn:E; [|reflexivity].
  apply existsb_exists in E. destruct E as (k' & Hin & Heq).
  apply String.eqb_eq in Heq. subst. contradiction.
Qed.

Lemma forallb_map' {A B} (f : B -> bool) (g : A -> B) l :
  forallb f (map g l) = forallb (fun x => f (g x)) l.
Proof. induction l; cbn; [reflexivity|now rewrite IHl]. Qed.

Lemma printable_store s :
  NoDup (map fst s) -> JSON.printable (replace_sets (store_value s)) = true.
Proof.
  intros Hnd. unfold store_value. cbn [replace_sets JSON.printable].
  rewrite !map_map. cbn [fst snd].
  change (map (fun x : string * FeedProgress => fst x) s) with (map fst s).
  rewrite (distinct_NoDup Hnd). cbn [andb].
  rewrite forallb_map'. apply forallb_forall. intros [k d] _.
  cbn [fst snd progress_value replace_sets map JSON.printable JSON.distinct
       existsb String.eqb Ascii.eqb Bool.eqb negb andb orb forallb].
  rewrite map_map, forallb_map'. cbn.
  rewrite andb_true_iff. split.
  - apply forallb_forall. reflexivity.
  - now destruct (totalPages d).
Qed.

Lemma as_pages_pages pages : as_pages (map VNum pages) = Some pages.
Proof.
  induction pages as [|z pages IH]; [reflexivity|].
  cbn. unfold as_pages in IH. now rewrite IH.
Qed.

Lemma as_store_value s : as_store (store_value s) = Some s.
Proof.
  unfold store_value, as_store. induction s as [|[k d] s IH]; [reflexivity|].
  cbn [map fold_right fst snd]. rewrite IH.
  unfold as_progress, progress_value. cbn [String.eqb Ascii.eqb Bool.eqb andb].
  rewrite as_pages_pages.
  destruct d as [pages [t|] e]; reflexivity.
Qed.

(** C9. A store of the data model that [saveSeenRepositories] has written is
    read back by [loadSeenRepositories] as the same store, the pages of each
    entry in a [Set]. *)
Theorem save_then_load s w :
  store_wf s ->
  loadSeenRepositories (stored (saveSeenRepositories s w)) = Loaded (store_value s) /\
  as_store (store_value s) = Some s.
Proof.
  intros [Hnd Hs]. split; [|apply as_store_value].
  cbn [saveSeenRepositories set_stored stored loadSeenRepositories].
  unfold serialize.
  assert (Hne : String.eqb (print (replace_sets (store_value s))) "" = false)
    by reflexivity.
  rewrite Hne, (@JSONFacts.parse_print _ (@printable_store s Hnd)).
  unfold store_value. cbn [replace_sets]. rewrite internalize_object.
  rewrite internalize_store; [reflexivity|].
  intros k d Hin. destruct (Hs k d Hin) as [[c ->] Hp].
  split; [apply criteria_key_not_seenPages|exact Hp].
Qed.

Lemma pages_135_wf : store_wf pages_135.
Proof.
  split.
  - repeat constructor. intros [].
  - intros key d [[= <- <-]|[]]. split.
    + now exists [("stars", Some "700...2000")].
    + repeat constructor; cbn; intuition discriminate.
Qed.

(** The store with the pages 1, 3 and 5 seen comes back with the [Set] of
    1, 3 and 5. *)
Lemma save_then_load_witness :
  store_wf pages_135 /\
  loadSeenRepositories (stored (saveSeenRepositories pages_135 empty_world))
  = Loaded (VObj [(criteria_key [("stars", Some "700...2000")],
                   VObj [("seenPages", VSet [VNum 1; VNum 3; VNum 5]);
                         ("totalPages", VNum 7);
                         ("exhausted", VBool false)])]) /\
  as_store (store_value pages_135) = Some pages_135.
Proof.
  split; [exact pages_135_wf|].
  exact (@save_then_load pages_135 empty_world pages_135_wf).
Defined.

Lemma set_of_list_forallb (P : jsval -> bool) l :
  forallb P l = true -> forallb P (set_of_list l) = true.
Proof.
  unfold set_of_list.
  assert (H : forall l acc, forallb P acc = true -> forallb P l = true ->
              forallb P (fold_left (fun acc v => value_set_add v acc) l acc) = true).
  { clear l. induction l as [|v l IH]; intros acc Ha Hl; [exact Ha|].
    cbn in Hl |- *. apply andb_prop in Hl. destruct Hl as [Hv Hl].
    apply IH; [|exact Hl]. unfold value_set_add.
    destruct (existsb _ _); [exact Ha|].
    rewrite forallb_app, Ha. cbn. now rewrite Hv. }
  intros Hl. now apply H.
Qed.

Lemma reviver_sets key v v' :
  seenPages_are_sets v = true ->
  reviver key v = Loaded v' ->
  seenPages_are_sets v' = true /\
  (String.eqb key "seenPages" = true -> is_set v' = true).
Proof.
  intros Hv. unfold reviver. destruct (String.eqb key "seenPages").
  - destruct v; cbn [new_Set]; intros [= <-]; split; try reflexivity;
      cbn [seenPages_are_sets] in *.
    + apply set_of_list_forallb. rewrite forallb_map'. now apply forallb_forall.
    + now apply set_of_list_forallb.
    + now apply set_of_list_forallb.
  - intros [= <-]. split; [exact Hv|discriminate].
Qed.

Lemma internalize_elements_sets l :
  Forall revived_with_sets l ->
  forall i vs, internalize_elements i l = Loaded vs ->
  forallb seenPages_are_sets vs = true.
Proof.
  induction 1 as [|x l Hx _ IH]; intros i vs; cbn [internalize_elements].
  - now intros [= <-].
  - destruct (internalize _ x) as [v|] eqn:Ex; [|discriminate].
    destruct (internalize_elements (S i) l) as [vs'|] eqn:El; [|discriminate].
    intros [= <-]. cbn. rewrite (IH _ _ El), andb_true_r.
    now destruct (Hx _ _ Ex).
Qed.

Lemma internalize_members_sets l :
  Forall (fun kv => revived_with_sets (snd kv)) l ->
  forall vs, internalize_members l = Loaded vs ->
  forallb (fun kv =>
             (if String.eqb (fst kv) "seenPages" then is_set (snd kv) else true)
             && seenPages_are_sets (snd kv)) vs = true.
Proof.
  induction 1 as [|[k x] l Hx _ IH]; intros vs; cbn [internalize_members].
  - now intros [= <-].
  - destruct (internalize k x) as [v|] eqn:Ex; [|discriminate].
    destruct (internalize_members l) as [vs'|] eqn:El; [|discriminate].
    intros [= <-]. cbn [forallb fst snd]. rewrite (IH _ eq_refl), andb_true_r.
    destruct (Hx _ _ Ex) as [H1 H2]. rewrite H1, andb_true_r.
    destruct (String.eqb k "seenPages"); [now apply H2|reflexivity].
Qed.

Lemma internalize_sets j : revived_with_sets j.
Proof.
  induction j as [|b|z|lit|s|l IH|l IH] using JSONFacts.json_induction;
    intros key v; try (cbn [internalize]; now apply reviver_sets).
  - rewrite internalize_array.
    destruct (internalize_elements O l) as [vs|] eqn:E; [|discriminate].
    apply reviver_sets. cbn. exact (internalize_elements_sets IH _ E).
  - rewrite internalize_object.
    destruct (internalize_members l) as [vs|] eqn:E; [|discriminate].
    apply reviver_sets. cbn. exact (internalize_members_sets IH E).
Qed.

(** C8, as the code has it.  Without a stored item, or with an empty one,
    [loadSeenRepositories] returns the empty store.  A stored text that is not
    JSON makes [JSON.parse] raise a [SyntaxError], which nothing catches: the
    load raises.  Whenever the load returns, every property named [seenPages]
    of the value is a [Set]. *)
Theorem load_outcomes :
  loadSeenRepositories None = Loaded (store_value []) /\
  loadSeenRepositories (Some "") = Loaded (store_value []) /\
  (forall text,
     String.eqb text "" = false -> JSON.parse text = None ->
     loadSeenRepositories (Some text) = Raised SyntaxError) /\
  (forall stored v,
     loadSeenRepositories stored = Loaded v -> seenPages_are_sets v = true).
Proof.
  split; [reflexivity|]. split; [reflexivity|]. split.
  - intros text Hne Hp. cbn. now rewrite Hne, Hp.
  - intros [text|] v; cbn [loadSeenRepositories].
    + destruct (String.eqb text ""); [now intros [= <-]|].
      destruct (JSON.parse text) as [j|]; [|discriminate].
      intros H. now destruct (internalize_sets _ _ H).
    + now intros [= <-].
Qed.

(** The reviver raises as well when a property named [seenPages] holds a
    value that is not iterable.  That is the case of a store with an entry
    under the key [seenPages] itself, which no criteria has. *)
Lemma load_raises_on_non_iterable :
  loadSeenRepositories (Some (print (JObj [("seenPages", JNum 3)])))
  = Raised TypeError /\
  loadSeenRepositories (Some (serialize [("seenPages", mkProgress [1] None true)]))
  = Raised TypeError.
Proof. split; reflexivity. Qed.

(** C8, a run.  An item that is cut short makes the load raise. *)
Lemma load_raises_on_bad_text :
  JSON.parse "{" = None /\
  loadSeenRepositories (Some "{") = Raised SyntaxError /\
  loadSeenRepositories (Some "{") <> Loaded (store_value []).
Proof. repeat split. discriminate. Qed.

Lemma load_outcomes_witness :
  String.eqb "{" "" = false /\ JSON.parse "{" = None /\
  loadSeenRepositories (Some "{") = Raised SyntaxError /\
  seenPages_are_sets (store_value pages_135) = true.
Proof.
  split; [reflexivity|]. split; [reflexivity|]. split.
  - exact (proj1 (proj2 (proj2 load_outcomes)) "{" eq_refl eq_refl).
  - apply (proj2 (proj2 (proj2 load_outcomes)) (Some (serialize pages_135))).
    reflexivity.
Defined.

(* ===================================================================== *)
(** * The key of a criteria *)
(* ===================================================================== *)

Lemma prop_get_absent name c :
  ~ In name (map fst c) -> prop_get name c = None.
Proof.
  induction c as [|[k v] c IH]; cbn; [reflexivity|].
  intros H. destruct (String.eqb_spec name k) as [->|N].
  - exfalso. apply H. now left.
  - apply IH. intros Hin. apply H. now right.
Qed.

Lemma defined_props_get c :
  NoDup (map fst c) ->
  forall k j, In (k, j) (defined_props c) ->
  exists v, j = JStr v /\ prop_get k c = Some v.
Proof.
  induction c as [|[k' [v'|]] c IH]; cbn; intros Hnd k j Hin.
  - destruct Hin.
  - inversion Hnd as [|? ? Hk' Hnd']; subst. destruct Hin as [[= <- <-]|Hin].
    + exists v'. now rewrite String.eqb_refl.
    + destruct (IH Hnd' _ _ Hin) as (v & -> & Hg). exists v. split; [reflexivity|].
      destruct (String.eqb_spec k k') as [->|N]; [|exact Hg].
      rewrite prop_get_absent in Hg by exact Hk'. discriminate.
  - inversion Hnd as [|? ? Hk' Hnd']; subst.
    destruct (IH Hnd' _ _ Hin) as (v & -> & Hg). exists v. split; [reflexivity|].
    destruct (String.eqb_spec k k') as [->|N]; [|exact Hg].
    rewrite prop_get_absent in Hg by exact Hk'. discriminate.
Qed.

Lemma same_names_same_values (l1 l2 : list (string * json)) :
  map fst l1 = map fst l2 ->
  (forall k j1 j2, In (k, j1) l1 -> In (k, j2) l2 -> j1 = j2) ->
  l1 = l2.
Proof.
  revert l2. induction l1 as [|[k j] l1 IH]; intros [|[k' j'] l2]; cbn;
    try discriminate; [reflexivity|].
  intros [= <- Hm] H. f_equal.
  - f_equal. apply (H k); now left.
  - apply IH; [exact Hm|]. intros k0 j1 j2 H1 H2. apply (H k0); now right.
Qed.

(** C7, as the code has it.  The key is [JSON.stringify] of the object, which
    writes the properties in the order of their insertion: two criteria with
    equal fields have the same key when their written properties come in the
    same order. *)
Theorem same_fields_same_order_same_key c1 c2 :
  NoDup (map fst c1) -> NoDup (map fst c2) ->
  written_names c1 = written_names c2 ->
  (forall name, prop_get name c1 = prop_get name c2) ->
  criteria_key c1 = criteria_key c2.
Proof.
  intros Hn1 Hn2 Hw Hf. unfold criteria_key. f_equal. f_equal.
  apply same_names_same_values; [exact Hw|].
  intros k j1 j2 H1 H2.
  destruct (@defined_props_get c1 Hn1 _ _ H1) as (v1 & -> & G1).
  destruct (@defined_props_get c2 Hn2 _ _ H2) as (v2 & -> & G2).
  rewrite Hf in G1. congruence.
Qed.

(** C7, a run.  The same fields, written in two orders, give two keys. *)
Lemma key_depends_on_insertion_order :
  (forall name,
     prop_get name stars_then_language = prop_get name language_then_stars) /\
  criteria_key stars_then_language <> criteria_key language_then_stars.
Proof.
  split; [|discriminate].
  intros name. cbn.
  destruct (String.eqb_spec name "stars") as [->|]; [reflexivity|].
  destruct (String.eqb_spec name "language"); reflexivity.
Qed.

(** The two places that compute a key agree: the criteria of the low bucket
    as [getSearchCriterias] writes it and as [getNextSearchParams] returns it,
    with no language, have one key. *)
Lemma same_fields_same_order_same_key_witness :
  NoDup (map fst bucket_low) /\
  NoDup (map fst (with_language None bucket_low)) /\
  written_names bucket_low = written_names (with_language None bucket_low) /\
  (forall name,
     prop_get name bucket_low = prop_get name (with_language None bucket_low)) /\
  criteria_key bucket_low = criteria_key (with_language None bucket_low).
Proof.
  assert (H1 : NoDup (map fst bucket_low)).
  { repeat constructor. intros []. }
  assert (H2 : NoDup (map fst (with_language None bucket_low))).
  { repeat constructor; cbn; intuition discriminate. }
  assert (H3 : forall name,
             prop_get name bucket_low
             = prop_get name (with_language None bucket_low)).
  { intros name. cbn. destruct (String.eqb name "stars"); [reflexivity|].
    now destruct (String.eqb name "language"). }
  repeat (split; [assumption || reflexivity|]).
  exact (@same_fields_same_order_same_key bucket_low
           (with_language None bucket_low) H1 H2 eq_refl H3).
Defined.

(* ===================================================================== *)
(** * Runs of the cursor *)
(* ===================================================================== *)

(** The default feed has 26 criteria, from the low bucket to the top one. *)
Lemma default_space_buckets :
  List.length default_space = 26%nat /\
  hd [] default_space = bucket_low /\
  last default_space [] = bucket_top /\
  nth 1 default_space [] = [("stars", Some "2000...4000")] /\
  nth 24 default_space [] = [("stars", Some "48000...50000")].
Proof. repeat split. Qed.

(** C1, a run.  The fetch of page 1 of the low bucket fails with the
    invalid-token error; [tryFetchWithParams] does not throw it: it calls
    [getNextSearchParams] once, fetches the top bucket and returns its page. *)
Lemma invalid_token_is_not_propagated :
  fetchRepositoriesPage (mkParams bucket_low 1) (token_rejected_once 0)
  = Throw invalid_token_error /\
  (let (result, w') :=
     tryFetchWithParams two_buckets None second_index token_rejected_once 2
       (mkParams bucket_low 1) empty_world in
   result = Some (Return (mkQueryResponse 25
                    [(a_repository, criteria_key bucket_top)]
                    (mkParams (with_language None bucket_top) 2))) /\
   result <> Some (Throw invalid_token_error) /\
   selections w' = 1%nat /\ attempts w' = 2%nat).
Proof.
  split; [reflexivity|]. vm_compute. repeat split. discriminate.
Qed.

Lemma invalid_token_falls_back_witness :
  fetchRepositoriesPage (mkParams bucket_low 1)
    (token_rejected_once (attempts empty_world)) = Throw invalid_token_error /\
  (tryFetchWithParams two_buckets None second_index token_rejected_once 2
     (mkParams bucket_low 1) empty_world
   = fallback two_buckets None second_index token_rejected_once 1
       (count_attempt empty_world) /\
   seen (count_attempt empty_world) = seen empty_world /\
   stored (count_attempt empty_world) = stored empty_world).
Proof.
  split; [reflexivity|].
  apply (@invalid_token_falls_back two_buckets None second_index
           token_rejected_once 1 (mkParams bucket_low 1) empty_world).
  reflexivity.
Defined.

Lemma rate_limit_propagates_unchanged_witness :
  fetchRepositoriesPage (mkParams bucket_low 1)
    (rate_limited (attempts empty_world)) = Throw rate_limit_error /\
  (let (result, w') :=
     tryFetchWithParams two_buckets None first_index rate_limited 1
       (mkParams bucket_low 1) empty_world in
   result = Some (Throw rate_limit_error) /\
   seen w' = seen empty_world /\ stored w' = stored empty_world /\
   selections w' = selections empty_world /\ draws w' = draws empty_world /\
   attempts w' = S (attempts empty_world)).
Proof.
  split; [reflexivity|].
  apply (@rate_limit_propagates_unchanged two_buckets None first_index
           rate_limited 0 (mkParams bucket_low 1) empty_world).
  reflexivity.
Defined.




(** C4, a run.  The first query of a session in which both buckets are first
    found empty and the low bucket then has 25 results leaves the low bucket
    with page 1 seen, a page count of 0 and not exhausted, in the object and
    in the stored item alike; the next selection returns page 1 of the low
    bucket again, although criteria are available and the stored item is
    there. *)
Lemma seen_page_is_selected_again :
  let w := snd (queryFn two_buckets None first_index dry_twice 3 None
                  empty_world) in
  seen_get (criteria_key bucket_low) (seen w)
  = Some (mkProgress [1] (Some 0) false) /\
  loadSeenRepositories (stored w) = Loaded (store_value (seen w)) /\
  (let (next, w') := getNextSearchParams two_buckets None first_index w in
   next = mkParams (with_language None bucket_low) 1 /\
   page_seen (seen w) next = true /\
   page_seen (seen w') next = true /\
   availableCriterias two_buckets None (seen w') <> [] /\
   stored w' <> None).
Proof.
  vm_compute. repeat split; discriminate.
Qed.

Lemma low_started_consistent : probe_consistent (seen world_low_started).
Proof.
  intros key d. cbn. destruct (String.eqb key _); [|discriminate].
  intros [= <-] _ Hf. discriminate Hf.
Qed.

(** With page 1 of the low bucket seen, of three, the selection is page 2. *)
Lemma selected_page_is_unseen_witness :
  probe_consistent (seen world_low_started) /\
  (let (next, w') :=
     getNextSearchParams two_buckets None first_index world_low_started in
   (page_seen (seen world_low_started) next = false /\
    page_seen (seen w') next = false) \/
   (availableCriterias two_buckets None (seen w') = [] /\ stored w' = None)).
Proof.
  split; [exact low_started_consistent|].
  exact (@selected_page_is_unseen two_buckets None first_index
           world_low_started low_started_consistent).
Defined.

(** C5, a run.  The low bucket has an entry, and the fetch of its page 2
    finds nothing.  The entry stays what it was, not exhausted, and the next
    selection is page 2 of the low bucket again: with a server that finds
    nothing every attempt is that same fetch. *)
Lemma no_results_leaves_existing_entry :
  fetchRepositoriesPage (mkParams bucket_low 2) (always_dry 0)
  = Return no_results /\
  (let (result, w') :=
     tryFetchWithParams two_buckets None first_index always_dry 1
       (mkParams bucket_low 2) world_low_started in
   result = None /\
   seen_get (criteria_key bucket_low) (seen w')
   = Some (mkProgress [1] (Some 3) false) /\
   is_exhausted (seen w') bucket_low = false /\
   fst (getNextSearchParams two_buckets None first_index w')
   = mkParams (with_language None bucket_low) 2) /\
  (forall fuel,
     fst (tryFetchWithParams two_buckets None first_index always_dry fuel
            (mkParams bucket_low 2) world_low_started) = None).
Proof.
  split; [reflexivity|]. split; [vm_compute; repeat split|].
  intros fuel. apply tryFetch_unfinished. intros k p _.
  unfold fetchRepositoriesPage. destruct (page p >? MAX_PAGES); reflexivity.
Qed.

(** C6, a run.  Both buckets are exhausted.  [getNextSearchParams] removes
    the stored item and returns page 1 of the low bucket, but the object
    [seen] still holds both entries.  The fetch of that page finds 25 results
    and saves the object: the stored item is there again, the top bucket still
    exhausted in it, the low bucket with the page count it had.  Nothing has
    started over: the next selection finds page 1 of the low bucket seen,
    marks the bucket exhausted, and resets in the same way. *)
Lemma reset_does_not_clear_the_store :
  all_exhausted two_buckets None (seen world_both_exhausted) /\
  (let (next, w1) :=
     getNextSearchParams two_buckets None first_index world_both_exhausted in
   next = mkParams (with_language None bucket_low) 1 /\
   stored w1 = None /\
   seen w1 = both_exhausted /\
   let (result, w2) :=
     tryFetchWithParams two_buckets None first_index serves_25 1 next w1 in
   result = Some (Return (answer next results_25)) /\
   seen w2 = [(criteria_key bucket_low, mkProgress [1] (Some 1) false);
              (criteria_key bucket_top, mkProgress [] (Some 0) true)] /\
   loadSeenRepositories (stored w2) = Loaded (store_value (seen w2)) /\
   let (next', w3) := getNextSearchParams two_buckets None first_index w2 in
   next' = next /\ stored w3 = None /\ seen w3 = both_exhausted).
Proof.
  split; [intros c [<-|[<-|[]]]; reflexivity|].
  vm_compute. repeat split.
Qed.


(** A run of the success path.  With 25 results and 10 a page the page count
    is 3; the three pages of the low bucket, fetched one after the other
    through the page parameter each answer returns, exhaust it, and the next
    selection is the top bucket. *)
Lemma three_pages_exhaust_the_bucket :
  let run := queryFn two_buckets None first_index serves_25 1 in
  let (r1, w1) := run None empty_world in
  let (r2, w2) := run (Some (mkParams (with_language None bucket_low) 2)) w1 in
  let (r3, w3) := run (Some (mkParams (with_language None bucket_low) 3)) w2 in
  seen_get (criteria_key bucket_low) (seen w1)
  = Some (mkProgress [1] (Some 3) false) /\
  seen_get (criteria_key bucket_low) (seen w2)
  = Some (mkProgress [1; 2] (Some 3) false) /\
  seen_get (criteria_key bucket_low) (seen w3)
  = Some (mkProgress [1; 2; 3] (Some 3) true) /\
  loadSeenRepositories (stored w3) = Loaded (store_value (seen w3)) /\
  fst (getNextSearchParams two_buckets None first_index w3)
  = mkParams (with_language None bucket_top) 1.
Proof. vm_compute. repeat split. Qed.

(* ===================================================================== *)
(** * The key of a criteria determines its fields *)
(* ===================================================================== *)

Lemma print_injective j1 j2 :
  printable j1 = true -> printable j2 = true -> print j1 = print j2 -> j1 = j2.
Proof.
  intros H1 H2 E. apply JSONFacts.parse_print in H1, H2.
  rewrite E in H1. congruence.
Qed.

Lemma defined_props_names c name :
  In name (written_names c) -> In name (map fst c).
Proof.
  unfold written_names. induction c as [|[k [v|]] c IH]; cbn; intuition.
Qed.

Lemma NoDup_written_names c : NoDup (map fst c) -> NoDup (written_names c).
Proof.
  unfold written_names. induction c as [|[k [v|]] c IH]; cbn; intros H.
  - constructor.
  - inversion H as [|? ? Hk Hc]; subst. constructor; [|now apply IH].
    intros Hin. apply Hk. now apply defined_props_names.
  - inversion H; subst. now apply IH.
Qed.

Lemma printable_defined_props c :
  NoDup (map fst c) -> printable (JObj (defined_props c)) = true.
Proof.
  intros H. cbn [printable]. apply andb_true_iff. split.
  - apply distinct_NoDup. now apply NoDup_written_names.
  - apply forallb_forall. intros [k j] Hin.
    destruct (@defined_props_get c H k j Hin) as (v & -> & _). reflexivity.
Qed.

(** A property reads as the value [JSON.stringify] wrote for it, and as
    [undefined] when it wrote none. *)
Lemma prop_get_written c :
  NoDup (map fst c) ->
  forall name,
    prop_get name c =
    match find (fun kv => String.eqb name (fst kv)) (defined_props c) with
    | Some (_, JStr v) => Some v
    | _ => None
    end.
Proof.
  induction c as [|[k [v|]] c IH]; cbn; intros Hnd name; [reflexivity| |];
    inversion Hnd as [|? ? Hk Hc]; subst.
  - destruct (String.eqb name k); [reflexivity|now apply IH].
  - destruct (String.eqb_spec name k) as [->|N]; [|now apply IH].
    destruct (find _ (defined_props c)) as [[k' j]|] eqn:E; [|reflexivity].
    apply find_some in E. destruct E as [Hin Heq]. cbn in Heq.
    apply String.eqb_eq in Heq. subst k'. exfalso. apply Hk.
    apply defined_props_names. unfold written_names.
    now apply (in_map fst) in Hin.
Qed.

Lemma criteria_key_written c1 c2 :
  NoDup (map fst c1) -> NoDup (map fst c2) ->
  criteria_key c1 = criteria_key c2 -> defined_props c1 = defined_props c2.
Proof.
  intros H1 H2 E. unfold criteria_key in E.
  apply print_injective in E; try now apply printable_defined_props.
  now injection E.
Qed.

Lemma key_fields c1 c2 name :
  NoDup (map fst c1) -> NoDup (map fst c2) ->
  criteria_key c1 = criteria_key c2 -> prop_get name c1 = prop_get name c2.
Proof.
  intros H1 H2 E.
  rewrite (@prop_get_written c1 H1), (@prop_get_written c2 H2).
  now rewrite (@criteria_key_written c1 c2 H1 H2 E).
Qed.

(** X13.  Two criteria with one key write the same properties in the same
    order, and every field reads the same in both: no two criteria that differ
    in a field share an entry of the seen store. *)
Theorem key_determines_fields c1 c2 :
  NoDup (map fst c1) -> NoDup (map fst c2) ->
  criteria_key c1 = criteria_key c2 ->
  written_names c1 = written_names c2 /\
  forall name, prop_get name c1 = prop_get name c2.
Proof.
  intros H1 H2 E. pose proof (@criteria_key_written c1 c2 H1 H2 E) as Hd. split.
  - unfold written_names. now rewrite Hd.
  - intros name. now apply key_fields.
Qed.

Lemma key_determines_fields_witness :
  NoDup (map fst bucket_low) /\
  NoDup (map fst (with_language None bucket_low)) /\
  criteria_key bucket_low = criteria_key (with_language None bucket_low) /\
  written_names bucket_low = written_names (with_language None bucket_low) /\
  (forall name,
     prop_get name bucket_low = prop_get name (with_language None bucket_low)).
Proof.
  assert (H1 : NoDup (map fst bucket_low)).
  { repeat constructor. intros []. }
  assert (H2 : NoDup (map fst (with_language None bucket_low))).
  { repeat constructor; cbn; intuition discriminate. }
  split; [exact H1|]. split; [exact H2|]. split; [reflexivity|].
  exact (@key_determines_fields bucket_low (with_language None bucket_low)
           H1 H2 eq_refl).
Defined.

Lemma prop_get_set_same name v c : prop_get name (prop_set name v c) = v.
Proof.
  induction c as [|[k v'] c IH]; cbn.
  - now rewrite String.eqb_refl.
  - destruct (String.eqb name k) eqn:E; cbn; rewrite E; auto.
Qed.

Lemma prop_get_set_other name name' v c :
  name' <> name -> prop_get name' (prop_set name v c) = prop_get name' c.
Proof.
  intros N. induction c as [|[k v'] c IH]; cbn.
  - destruct (String.eqb_spec name' name); congruence.
  - destruct (String.eqb_spec name k); cbn.
    + subst k. destruct (String.eqb_spec name' name); congruence.
    + now rewrite IH.
Qed.

Lemma prop_set_names name v c :
  NoDup (map fst c) -> NoDup (map fst (prop_set name v c)).
Proof.
  intros H.
  destruct (in_dec string_dec name (map fst c)) as [Hin|Hout].
  - assert (E : map fst (prop_set name v c) = map fst c).
    { clear H. induction c as [|[k v'] c IH]; cbn in *; [contradiction|].
      destruct (String.eqb_spec name k) as [->|N]; [reflexivity|].
      cbn. f_equal. apply IH. destruct Hin; congruence. }
    now rewrite E.
  - assert (E : map fst (prop_set name v c) = map fst c ++ [name]).
    { clear H. induction c as [|[k v'] c IH]; cbn in *; [reflexivity|].
      destruct (String.eqb_spec name k) as [->|N]; [exfalso; auto|].
      cbn. f_equal. apply IH. intros Hin. apply Hout. now right. }
    rewrite E. apply NoDup_app; [exact H|repeat constructor; intros []|].
    intros x Hx [<-|[]]. contradiction.
Qed.

Lemma distinct_true_NoDup l : JSON.distinct l = true -> NoDup l.
Proof.
  induction l as [|k l IH]; cbn; intros H; constructor;
    apply andb_prop in H; destruct H as [Hk Hl]; [|now apply IH].
  intros Hin. apply negb_true_iff in Hk.
  assert (E : existsb (String.eqb k) l = true).
  { apply existsb_exists. exists k. split; [exact Hin|apply String.eqb_refl]. }
  congruence.
Qed.

Lemma NoDup_map_through {A B C} (f : A -> B) (g : A -> C) l :
  NoDup (map g l) ->
  (forall x y, In x l -> In y l -> f x = f y -> g x = g y) ->
  NoDup (map f l).
Proof.
  induction l as [|x l IH]; cbn; intros Hg H; constructor;
    inversion Hg as [|? ? Hx Hl]; subst.
  - intros Hin. apply in_map_iff in Hin. destruct Hin as (y & E & Hy).
    apply Hx. rewrite (H x y); auto. now apply in_map.
  - apply IH; auto.
Qed.

(** X14.  The criteria of the random feed, with any language merged in, are 26
    and have pairwise distinct keys: each has an entry of its own in the seen
    store. *)
Theorem random_feed_keys_are_distinct weekAgo language :
  let space := map (with_language language) (getSearchCriterias weekAgo random) in
  List.length space = 26%nat /\ NoDup (map criteria_key space).
Proof.
  split; [reflexivity|]. rewrite map_map.
  apply NoDup_map_through with (g := fun c => template (prop_get "stars" c)).
  - apply distinct_true_NoDup. vm_compute. reflexivity.
  - intros x y Hx Hy E.
    assert (Hn : forall c, In c (getSearchCriterias weekAgo random) ->
                           NoDup (map fst c)).
    { intros c Hc. cbn in Hc.
      repeat (destruct Hc as [<-|Hc]; [repeat constructor; intros []|]).
      destruct Hc. }
    apply (@key_fields _ _ "stars") in E; try (apply prop_set_names; auto).
    unfold with_language in E.
    rewrite !prop_get_set_other in E by discriminate. now rewrite E.
Qed.

(* ===================================================================== *)
(** * The search query and its address *)
(* ===================================================================== *)

Lemma truthy_language_or_undefined language :
  truthy_string (language_or_undefined language) = truthy_string language /\
  (truthy_string language = true ->
   language_or_undefined language = language).
Proof.
  unfold language_or_undefined.
  destruct (truthy_string language) eqn:E; [now split|split; [reflexivity|discriminate]].
Qed.

Lemma query_merged language c :
  buildSearchQuery (with_language language c) =
  join " "
    ([("stars:" ++ template (prop_get "stars" c))%string]
     ++ (if truthy_string language
         then [("language:" ++ template language)%string] else [])
     ++ (if truthy_string (prop_get "created" c)
         then [("created:" ++ template (prop_get "created" c))%string] else [])).
Proof.
  unfold buildSearchQuery, with_language.
  rewrite prop_get_set_same.
  rewrite !prop_get_set_other by discriminate.
  destruct (truthy_language_or_undefined language) as [-> H].
  destruct (truthy_string language); [rewrite (H eq_refl)|];
    destruct (truthy_string (prop_get "created" c)); reflexivity.
Qed.

(** X15.  The request made for a criteria the cursor has merged the language
    into. Its query is the stars of the criteria, then the language of the
    hook when there is one (whatever language the criteria had of its own,
    which a hook without a language removes), then the creation date of the
    criteria when it has one that is not empty; it is sorted by creation date
    when the criteria has a creation date at all, and by stars otherwise. *)
Theorem request_of_a_merged_criteria language c p :
  request_of (mkParams (with_language language c) p) =
  mkRequest
    (join " "
       ([("stars:" ++ template (prop_get "stars" c))%string]
        ++ (if truthy_string language
            then [("language:" ++ template language)%string] else [])
        ++ (if truthy_string (prop_get "created" c)
            then [("created:" ++ template (prop_get "created" c))%string]
            else [])))
    (match prop_get "created" c with Some _ => "created" | None => "stars" end)
    p PER_PAGE.
Proof.
  unfold request_of. cbn [criteria page]. rewrite query_merged.
  unfold with_language. rewrite prop_get_set_other by discriminate.
  now destruct (prop_get "created" c).
Qed.

(** X16.  The request of a criteria of a feed, with the language merged in:
    the new feed is sorted by creation date and asks for the repositories with
    more than 10 stars created after the date, the random feed is sorted by
    stars and asks for one range of stars; both ask for the given page, ten
    repositories a page. *)
Theorem requests_of_the_feeds weekAgo feedType language c p :
  In c (getSearchCriterias weekAgo feedType) ->
  let r := request_of (mkParams (with_language language c) p) in
  let language_part :=
    if truthy_string language
    then [("language:" ++ template language)%string] else [] in
  req_page r = p /\ req_per_page r = 10 /\
  match feedType with
  | new =>
      req_sort r = "created" /\
      req_query r =
      join " " (["stars:>10"] ++ language_part
                ++ [("created:>" ++ weekAgo)%string])
  | random =>
      req_sort r = "stars" /\
      exists range,
        c = [("stars", Some range)] /\
        req_query r = join " " ([("stars:" ++ range)%string] ++ language_part)
  end.
Proof.
  intros Hin. cbv zeta. unfold request_of. cbn [criteria page req_page req_per_page
    req_sort req_query]. split; [reflexivity|]. split; [reflexivity|].
  rewrite query_merged. unfold with_language.
  rewrite prop_get_set_other by discriminate.
  destruct feedType; cbn in Hin.
  - repeat (destruct Hin as [<-|Hin];
            [split; [reflexivity|]; eexists; split; [reflexivity|];
             cbn; now rewrite app_nil_r|]).
    destruct Hin.
  - destruct Hin as [<-|[]]. split; reflexivity.
Qed.

Lemma requests_of_the_feeds_witness :
  In [("stars", Some "2000...4000")] (getSearchCriterias "2024-01-01" random) /\
  (let r := request_of (mkParams (with_language (Some "Go")
                                    [("stars", Some "2000...4000")]) 3) in
   req_page r = 3 /\ req_per_page r = 10 /\ req_sort r = "stars" /\
   exists range,
     [("stars", Some "2000...4000")] = [("stars", Some range)] /\
     req_query r = join " " ([("stars:" ++ range)%string] ++ ["language:Go"])).
Proof.
  assert (H : In [("stars", Some "2000...4000")]
                 (getSearchCriterias "2024-01-01" random)) by (cbn; tauto).
  split; [exact H|].
  exact (@requests_of_the_feeds "2024-01-01" random (Some "Go")
           [("stars", Some "2000...4000")] 3 H).
Defined.

(** ** [encodeURIComponent] *)

Lemma encoded_char c tail :
  percent_decoded
    ((if uri_unreserved c then String c "" else percent_encoded c) ++ tail)
  = String c (percent_decoded tail) /\
  forallb (fun x => uri_unreserved x || Ascii.eqb x "%")
    (list_ascii_of_string
       (if uri_unreserved c then String c "" else percent_encoded c)) = true.
Proof.
  destruct c as [[|] [|] [|] [|] [|] [|] [|] [|]]; split; reflexivity.
Qed.

Lemma percent_decoded_encoded s : percent_decoded (encodeURIComponent s) = s.
Proof.
  induction s as [|c s IH]; [reflexivity|].
  cbn [encodeURIComponent]. rewrite (proj1 (encoded_char c _)), IH. reflexivity.
Qed.

Lemma list_ascii_of_append a b :
  list_ascii_of_string (a ++ b) = list_ascii_of_string a ++ list_ascii_of_string b.
Proof. induction a; cbn; [reflexivity|now rewrite IHa]. Qed.

Lemma encoded_alphabet s :
  forallb (fun x => uri_unreserved x || Ascii.eqb x "%")
    (list_ascii_of_string (encodeURIComponent s)) = true.
Proof.
  induction s as [|c s IH]; [reflexivity|].
  cbn [encodeURIComponent]. rewrite list_ascii_of_append, forallb_app, IH.
  now rewrite (proj2 (encoded_char c "")).
Qed.

Lemma occurrences_append c a b :
  occurrences c (a ++ b) = (occurrences c a + occurrences c b)%nat.
Proof. induction a; cbn; [reflexivity|rewrite IHa; lia]. Qed.

Lemma occurrences_none c s :
  forallb (fun x => negb (Ascii.eqb c x)) (list_ascii_of_string s) = true ->
  occurrences c s = O.
Proof.
  induction s as [|x s IH]; cbn; [reflexivity|].
  intros H. apply andb_prop in H. destruct H as [Hx Hs].
  apply negb_true_iff in Hx. rewrite Hx, IH; auto.
Qed.

Lemma forallb_weaken {A} (f g : A -> bool) l :
  (forall x, f x = true -> g x = true) ->
  forallb f l = true -> forallb g l = true.
Proof.
  intros H. induction l as [|x l IH]; cbn; [reflexivity|].
  intros E. apply andb_prop in E. destruct E as [Ex El].
  now rewrite (H _ Ex), IH.
Qed.

(** A character that is neither unreserved nor the percent sign does not
    occur in an encoded text. *)
Lemma occurrences_encoded c s :
  uri_unreserved c || Ascii.eqb c "%" = false ->
  occurrences c (encodeURIComponent s) = O.
Proof.
  intros Hc. apply occurrences_none.
  apply forallb_weaken with (2 := encoded_alphabet s).
  intros x Hx. apply negb_true_iff.
  destruct (Ascii.eqb_spec c x) as [->|]; [congruence|reflexivity].
Qed.

Lemma digits_of_uint (u : Decimal.uint) :
  forallb JSON.is_digit (list_ascii_of_string (NilEmpty.string_of_uint u)) = true.
Proof. induction u; cbn; auto. Qed.

(** The text of an integer is made of digits and, in front, a minus sign. *)
Lemma string_of_Z_alphabet z :
  forallb (fun x => JSON.is_digit x || Ascii.eqb x "-")
    (list_ascii_of_string (string_of_Z z)) = true.
Proof.
  assert (H : forall u,
             forallb (fun x => JSON.is_digit x || Ascii.eqb x "-")
               (list_ascii_of_string (NilZero.string_of_uint u)) = true).
  { intros u. apply forallb_weaken with (f := JSON.is_digit).
    - intros x ->. reflexivity.
    - destruct u; try reflexivity; apply (digits_of_uint (_ u)). }
  unfold string_of_Z. destruct (Z.to_int z) as [u|u]; cbn.
  - apply H.
  - apply H.
Qed.

Lemma occurrences_string_of_Z c z :
  JSON.is_digit c || Ascii.eqb c "-" = false ->
  occurrences c (string_of_Z z) = O.
Proof.
  intros Hc. apply occurrences_none.
  apply forallb_weaken with (2 := string_of_Z_alphabet z).
  intros x Hx. apply negb_true_iff.
  destruct (Ascii.eqb_spec c x) as [->|]; [congruence|reflexivity].
Qed.

(** ** The address *)

Lemma append_cancel_l a x y : (a ++ x = a ++ y)%string -> x = y.
Proof. induction a as [|c a IH]; cbn; [auto|]. intros [= H]. auto. Qed.

(** Two texts cut at the first occurrence of a character are equal part by
    part. *)
Lemma append_split_at c a1 a2 b1 b2 :
  occurrences c a1 = O -> occurrences c a2 = O ->
  (a1 ++ String c b1 = a2 ++ String c b2)%string -> a1 = a2 /\ b1 = b2.
Proof.
  revert a2. induction a1 as [|x a1 IH]; intros [|y a2]; cbn.
  - intros _ _ [= ->]. now split.
  - intros _ H [= -> _]. rewrite Ascii.eqb_refl in H. discriminate.
  - intros H _ [= -> _]. rewrite Ascii.eqb_refl in H. discriminate.
  - intros H1 H2 [= -> E].
    destruct (Ascii.eqb c y); [discriminate|]. cbn in H1, H2.
    destruct (IH a2 H1 H2 E) as [-> ->]. now split.
Qed.

Lemma string_of_Z_injective z1 z2 : string_of_Z z1 = string_of_Z z2 -> z1 = z2.
Proof.
  intros E.
  destruct (@JSONFacts.lex_number_string_of_Z z1 "" eq_refl) as [H1 _].
  destruct (@JSONFacts.lex_number_string_of_Z z2 "" eq_refl) as [H2 _].
  rewrite E in H1. congruence.
Qed.

Lemma encodeURIComponent_cancel s1 s2 :
  encodeURIComponent s1 = encodeURIComponent s2 -> s1 = s2.
Proof.
  intros E. rewrite <- (percent_decoded_encoded s1), <- (percent_decoded_encoded s2).
  now rewrite E.
Qed.

(** X17.  The address has the five parameters the source writes and nothing
    else, whatever the criteria and the language hold: the query is encoded
    with unreserved characters and percent signs only, so the address has four
    separators, five equal signs, one question mark, and neither a fragment
    mark nor a blank. *)
Theorem search_url_has_five_parameters params :
  forallb (fun x => uri_unreserved x || Ascii.eqb x "%")
    (list_ascii_of_string
       (encodeURIComponent (buildSearchQuery (criteria params)))) = true /\
  occurrences "&" (search_url params) = 4%nat /\
  occurrences "=" (search_url params) = 5%nat /\
  occurrences "?" (search_url params) = 1%nat /\
  occurrences "#" (search_url params) = 0%nat /\
  occurrences " " (search_url params) = 0%nat.
Proof.
  split; [apply encoded_alphabet|].
  unfold search_url. rewrite !occurrences_append.
  rewrite !occurrences_encoded by reflexivity.
  rewrite !(@occurrences_string_of_Z _ (page params)) by reflexivity.
  destruct (prop_get "created" (criteria params)); repeat split.
Qed.

(** X18.  Two requests have the same address exactly when they have the same
    query, sort key and page: the address carries the whole request, and
    nothing else of the parameters. *)
Theorem search_url_determines_request p1 p2 :
  search_url p1 = search_url p2 <-> request_of p1 = request_of p2.
Proof.
  unfold search_url, request_of. split.
  - intros E. apply append_cancel_l with (a := GITHUB_API_BASE) in E.
    apply append_cancel_l with (a := "/search/repositories?q=") in E.
    cbn [append] in E.
    apply append_split_at in E; try (apply occurrences_encoded; reflexivity).
    destruct E as [Eq E]. apply encodeURIComponent_cancel in Eq. rewrite Eq.
    assert (Es : (if match prop_get "created" (criteria p1) with
                     | Some _ => true | None => false end
                  then "created" else "stars")
                 = (if match prop_get "created" (criteria p2) with
                       | Some _ => true | None => false end
                    then "created" else "stars")
                 /\ string_of_Z (page p1) = string_of_Z (page p2)).
    { destruct (prop_get "created" (criteria p1)),
               (prop_get "created" (criteria p2));
        cbn in E; try discriminate E; (split; [reflexivity|]).
      - injection E as E.
        apply append_split_at in E;
          try (apply occurrences_string_of_Z; reflexivity). tauto.
      - injection E as E.
        apply append_split_at in E;
          try (apply occurrences_string_of_Z; reflexivity). tauto. }
    destruct Es as [-> Ep]. apply string_of_Z_injective in Ep. now rewrite Ep.
  - intros [= -> -> ->]. reflexivity.
Qed.

(* ===================================================================== *)
(** * The store that a load returns *)
(* ===================================================================== *)

(** The text of a well-formed store is read back as the store. *)
Lemma load_serialize s :
  store_ok s -> loadSeenRepositories (Some (serialize s)) = Loaded (store_value s).
Proof.
  intros [Hnd Hs]. cbn [loadSeenRepositories]. unfold serialize.
  assert (Hne : String.eqb (print (replace_sets (store_value s))) "" = false)
    by reflexivity.
  rewrite Hne, (@JSONFacts.parse_print _ (@printable_store s Hnd)).
  unfold store_value. cbn [replace_sets]. rewrite internalize_object.
  rewrite internalize_store; [reflexivity|]. exact Hs.
Qed.

Lemma as_pages_inv vs : forall ps,
  as_pages vs = Some ps ->
  flat_map (fun v => match v with VNum z => [z] | _ => [] end) vs = ps.
Proof.
  induction vs as [|v vs IH]; intros ps; cbn.
  - now intros [= <-].
  - fold (as_pages vs). destruct v; try discriminate.
    destruct (as_pages vs) as [zs|]; [|discriminate].
    intros [= <-]. cbn. now rewrite (IH zs).
Qed.

(** The numbers of a [Set] are pairwise distinct. *)
Lemma set_of_list_numbers l :
  NoDup (flat_map (fun v => match v with VNum z => [z] | _ => [] end)
           (set_of_list l)).
Proof.
  unfold set_of_list.
  set (f := fun v => match v with VNum z => [z] | _ => [] end).
  assert (H : forall l acc,
             NoDup (flat_map f acc) ->
             NoDup (flat_map f (fold_left (fun acc v => value_set_add v acc) l acc))).
  { clear l. induction l as [|v l IH]; intros acc Hacc; [exact Hacc|].
    cbn [fold_left]. apply IH. unfold value_set_add.
    destruct (existsb (same_value_zero v) acc) eqn:E; [exact Hacc|].
    rewrite flat_map_app. cbn [flat_map]. rewrite app_nil_r.
    apply NoDup_app; [exact Hacc| |].
    - destruct v; cbn; repeat constructor; intros [].
    - intros x Hx Hv. destruct v as [| |z| | | | |]; cbn in Hv; try contradiction.
      destruct Hv as [<-|[]].
      apply in_flat_map in Hx. destruct Hx as (y & Hy & Hz).
      destruct y as [| |z'| | | | |]; cbn in Hz; try contradiction.
      destruct Hz as [->|[]].
      assert (existsb (same_value_zero (VNum z)) acc = true); [|congruence].
      apply existsb_exists. exists (VNum z). split; [exact Hy|apply Z.eqb_refl]. }
  apply H. constructor.
Qed.

Lemma as_pages_set_of_list l ps :
  as_pages (set_of_list l) = Some ps -> NoDup ps.
Proof.
  intros H. apply as_pages_inv in H. rewrite <- H. apply set_of_list_numbers.
Qed.

Lemma member_put_names k v ms x :
  In x (map fst (member_put k v ms)) -> x = k \/ In x (map fst ms).
Proof.
  induction ms as [|[k' v'] ms IH]; cbn.
  - intros [<-|[]]. now left.
  - destruct (String.eqb_spec k k') as [->|N]; cbn; [tauto|].
    intros [<-|H]; [tauto|]. destruct (IH H); tauto.
Qed.

Lemma member_put_distinct k v ms :
  NoDup (map fst ms) -> NoDup (map fst (member_put k v ms)).
Proof.
  induction ms as [|[k' v'] ms IH]; cbn; intros H.
  - repeat constructor. intros [].
  - inversion H as [|? ? Hk Hms]; subst.
    destruct (String.eqb_spec k k') as [->|N]; cbn; [now constructor|].
    constructor; [|now apply IH].
    intros Hin. apply member_put_names in Hin. destruct Hin; congruence.
Qed.

(** An object that [JSON.parse] builds has no name twice. *)
Lemma object_of_names ms : NoDup (map fst (object_of ms)).
Proof.
  unfold object_of.
  assert (H : forall l acc,
             NoDup (map fst acc) ->
             NoDup (map fst (fold_left
                               (fun acc kv => member_put (fst kv) (snd kv) acc)
                               l acc))).
  { induction l as [|[k v] l IH]; intros acc Hacc; [exact Hacc|].
    cbn [fold_left]. apply IH. now apply member_put_distinct. }
  apply H. constructor.
Qed.

Lemma parse_object_names text ms :
  JSON.parse text = Some (JObj ms) -> NoDup (map fst ms).
Proof.
  unfold parse. destruct (lex _ text) as [ts|]; [|discriminate].
  destruct (parse_value _ ts) as [[j r]|] eqn:E; [|discriminate].
  destruct r; [|discriminate]. intros [= ->].
  cbn [parse_value] in E.
  repeat match goal with
         | H : match ?x with _ => _ end = Some _ |- _ =>
             destruct x eqn:?; try discriminate H
         end;
    injection E as <-; try constructor; apply object_of_names.
Qed.

Lemma internalize_members_inv l : forall vs,
  internalize_members l = Loaded vs ->
  map fst vs = map fst l /\
  forall k v, In (k, v) vs ->
    exists x, In (k, x) l /\ internalize k x = Loaded v.
Proof.
  induction l as [|[k x] l IH]; intros vs; cbn [internalize_members].
  - intros [= <-]. split; [reflexivity|intros ? ? []].
  - destruct (internalize k x) as [v|] eqn:Ex; [|discriminate].
    destruct (internalize_members l) as [vs'|]; [|discriminate].
    intros [= <-]. destruct (IH vs' eq_refl) as [Hk Hin]. split.
    + cbn. now rewrite Hk.
    + intros k0 v0 [[= <- <-]|H].
      * exists x. split; [now left|exact Ex].
      * destruct (Hin _ _ H) as (x0 & H0 & E0). exists x0. split; [now right|exact E0].
Qed.

(** A value that is revived as a plain object was an object in the text,
    under another name than [seenPages]. *)
Lemma internalize_object_inv key j l :
  internalize key j = Loaded (VObj l) ->
  String.eqb key "seenPages" = false /\
  exists ms, j = JObj ms /\ internalize_members ms = Loaded l.
Proof.
  intros H.
  assert (Hk : String.eqb key "seenPages" = false).
  { destruct (String.eqb key "seenPages") eqn:E; [|reflexivity].
    destruct (internalize_sets _ _ H) as [_ Hs]. discriminate (Hs E). }
  split; [exact Hk|].
  destruct j as [|b|z|lit|str|elements|members];
    try (cbn [internalize] in H; unfold reviver in H; rewrite Hk in H;
         discriminate H).
  - rewrite internalize_array in H.
    destruct (internalize_elements 0 elements); [|discriminate].
    unfold reviver in H. rewrite Hk in H. discriminate.
  - rewrite internalize_object in H.
    destruct (internalize_members members) as [vs|] eqn:Em; [|discriminate].
    unfold reviver in H. rewrite Hk in H. injection H as ->. now exists members.
Qed.

(** Whatever is revived under the name [seenPages] is a [Set]. *)
Lemma internalize_seenPages j v :
  internalize "seenPages" j = Loaded v -> exists l, v = VSet (set_of_list l).
Proof.
  assert (H : forall x, reviver "seenPages" x = Loaded v ->
                        exists l, v = VSet (set_of_list l)).
  { intros x. unfold reviver. cbn [String.eqb Ascii.eqb Bool.eqb].
    destruct x; cbn [new_Set]; intros [= <-]; try (eexists; reflexivity).
    now exists []. }
  destruct j as [|b|z|lit|str|elements|members];
    try (cbn [internalize]; apply H).
  - rewrite internalize_array.
    destruct (internalize_elements 0 elements); [apply H|discriminate].
  - rewrite internalize_object.
    destruct (internalize_members members); [apply H|discriminate].
Qed.

Lemma as_progress_inv v d :
  as_progress v = Some d ->
  exists pages total,
    v = VObj [("seenPages", VSet pages); ("totalPages", total);
              ("exhausted", VBool (exhausted d))] /\
    as_pages pages = Some (seenPages d).
Proof.
  unfold as_progress. destruct v as [| | | | | |props|]; try discriminate.
  destruct props as [|[k1 v1] [|[k2 v2] [|[k3 v3] [|]]]]; try discriminate;
    try (destruct v1; discriminate);
    try (destruct v1; try discriminate; destruct v3; discriminate).
  destruct v1 as [| | | | | | |pages]; try discriminate.
  destruct v3 as [|e| | | | | |]; try discriminate.
  destruct (String.eqb_spec k1 "seenPages") as [->|]; [|discriminate].
  destruct (String.eqb_spec k2 "totalPages") as [->|]; [|discriminate].
  destruct (String.eqb_spec k3 "exhausted") as [->|]; [|discriminate].
  cbn [andb]. destruct (as_pages pages) as [ps|] eqn:E; [|discriminate].
  destruct v2; try discriminate; intros [= <-]; eexists; eexists;
    (split; [reflexivity|exact E]).
Qed.

Lemma as_store_inv l : forall s,
  as_store (VObj l) = Some s ->
  map fst s = map fst l /\
  forall k d, In (k, d) s -> exists v, In (k, v) l /\ as_progress v = Some d.
Proof.
  unfold as_store. induction l as [|[k v] l IH]; intros s; cbn [fold_right].
  - intros [= <-]. split; [reflexivity|intros ? ? []].
  - cbn [fst snd]. destruct (as_progress v) as [d|] eqn:Ev; [|discriminate].
    destruct (fold_right _ _ l) as [s'|]; [|discriminate].
    intros [= <-]. destruct (IH s' eq_refl) as [Hk Hin]. split.
    + cbn. now rewrite Hk.
    + intros k0 d0 [[= <- <-]|H].
      * exists v. split; [now left|exact Ev].
      * destruct (Hin _ _ H) as (v0 & H0 & E0). exists v0. split; [now right|exact E0].
Qed.

Lemma loaded_store_ok stored v s :
  loadSeenRepositories stored = Loaded v -> as_store v = Some s -> store_ok s.
Proof.
  intros Hload Hs.
  assert (Hempty : v = VObj [] -> store_ok s).
  { intros ->. cbn in Hs. injection Hs as <-. split; [constructor|intros ? ? []]. }
  destruct stored as [text|]; cbn [loadSeenRepositories] in Hload;
    [|injection Hload as <-; now apply Hempty].
  destruct (String.eqb text ""); [injection Hload as <-; now apply Hempty|].
  destruct (JSON.parse text) as [j|] eqn:Hparse; [|discriminate].
  destruct v as [| | | | | |l|]; try discriminate Hs.
  destruct (internalize_object_inv _ _ Hload) as (_ & ms & -> & Hms).
  apply parse_object_names in Hparse.
  destruct (internalize_members_inv _ Hms) as [Hkeys Hin].
  destruct (as_store_inv _ Hs) as [Hskeys Hsin].
  split; [now rewrite Hskeys, Hkeys|].
  intros key d Hd.
  destruct (Hsin _ _ Hd) as (vk & Hvk & Hp).
  destruct (Hin _ _ Hvk) as (x & Hx & Ex).
  destruct (as_progress_inv _ Hp) as (pages & total & -> & Hpages).
  destruct (internalize_object_inv _ _ Ex) as (Hkey & ms' & -> & Hms').
  split; [exact Hkey|].
  destruct (internalize_members_inv _ Hms') as [_ Hin'].
  destruct (Hin' "seenPages" (VSet pages) (or_introl eq_refl)) as (x1 & _ & E1).
  apply internalize_seenPages in E1. destruct E1 as [l0 [= ->]].
  now apply as_pages_set_of_list in Hpages.
Qed.

(** X19.  Whatever text is stored, a value that [loadSeenRepositories] returns
    and that has the shape of a store is a well-formed one: no key twice, no
    entry named [seenPages], no page twice in an entry. When its numbers are
    safe integers, saving it and loading it again gives it back. *)
Theorem loaded_store_is_well_formed stored v s :
  loadSeenRepositories stored = Loaded v -> as_store v = Some s ->
  store_ok s /\
  (store_safe s ->
   loadSeenRepositories (Some (serialize s)) = Loaded (store_value s)).
Proof.
  intros Hload Hs. pose proof (loaded_store_ok _ Hload Hs) as Hok.
  split; [exact Hok|]. intros _. now apply load_serialize.
Qed.

(** X20.  A store is read back from its text as itself exactly when it is well
    formed: an entry under the key [seenPages], a page twice in an entry or a
    key twice in the list make the round trip fail. *)
Theorem round_trip_exactly_for_well_formed_stores s :
  loadSeenRepositories (Some (serialize s)) = Loaded (store_value s) <-> store_ok s.
Proof.
  split.
  - intros H. apply (loaded_store_ok _ H). apply as_store_value.
  - apply load_serialize.
Qed.

(* ===================================================================== *)
(** * The store from one query to the next *)
(* ===================================================================== *)

Section Session.

Variable SEARCH_CRITERIAS : list SearchCriteria.
Variable language : option string.
Variable Math_random : nat -> nat.
Variable network : nat -> request -> net_outcome.

(** X21.  When the value a query loads is a store whose numbers are safe
    integers (there is no stored item, or the item is the text of such a
    store) and the query returns a page, it leaves a well-formed store and, in
    [localStorage], the text of that store: the next query loads exactly the
    store this one ended with. *)
Theorem query_leaves_the_store_it_holds fuel pageParam w v s q w' :
  loadSeenRepositories (stored w) = Loaded v -> as_store v = Some s ->
  store_safe s ->
  queryFn SEARCH_CRITERIAS language Math_random network fuel pageParam w
  = (Settled (Return q), w') ->
  store_ok (seen w') /\
  loadSeenRepositories (stored w') = Loaded (store_value (seen w')) /\
  as_store (store_value (seen w')) = Some (seen w').
Proof.
  intros Hload Hs _. unfold queryFn. rewrite Hload, Hs.
  pose proof (loaded_store_ok _ Hload Hs) as Hok.
  set (w0 := set_seen s w).
  assert (H0 : store_ok (seen w0)) by exact Hok. clearbody w0.
  assert (H1 : forall ip w1, store_ok (seen w1) ->
             match tryFetchWithParams SEARCH_CRITERIAS language Math_random
                     network fuel ip w1 with
             | (Some c, w2) => (Settled c, w2)
             | (None, w2) => (Unfinished, w2)
             end = (Settled (Return q), w') ->
             store_ok (seen w') /\
             loadSeenRepositories (stored w') = Loaded (store_value (seen w')) /\
             as_store (store_value (seen w')) = Some (seen w')).
  { intros ip w1 Hw1 H.
    pose proof (@store_ok_tryFetchWithParams SEARCH_CRITERIAS language
                  Math_random network fuel ip w1 Hw1) as Hok'.
    destruct (tryFetchWithParams _ _ _ _ fuel ip w1) as [[c|] w2] eqn:E;
      [|discriminate].
    injection H as -> ->. cbn [snd] in Hok'.
    destruct (@tryFetch_returns _ _ _ _ _ _ _ _ _ E)
      as (p & r & wl & _ & _ & _ & _ & Hw').
    split; [exact Hok'|]. split; [|apply as_store_value].
    assert (Hst : stored w' = Some (serialize (seen w'))) by (now rewrite Hw').
    rewrite Hst. now apply load_serialize. }
  destruct pageParam as [p|].
  - apply H1, H0.
  - pose proof (@store_ok_getNextSearchParams SEARCH_CRITERIAS language
                  Math_random w0 H0) as Hn.
    destruct (getNextSearchParams _ _ _ w0) as [ip w1]. apply H1, Hn.
Qed.

(** ** Paging with [fetchMore] *)

Lemma set_add_next i :
  set_add (Z.of_nat (S i)) (map Z.of_nat (seq 1 i)) = map Z.of_nat (seq 1 (S i)).
Proof.
  unfold set_add.
  assert (H : set_has (Z.of_nat (S i)) (map Z.of_nat (seq 1 i)) = false).
  { destruct (set_has _ _) eqn:E; [|reflexivity].
    apply existsb_exists in E. destruct E as (x & Hx & Hi).
    apply in_map_iff in Hx. destruct Hx as (j & <- & Hj).
    apply in_seq in Hj. apply Z.eqb_eq in Hi. lia. }
  rewrite H, seq_S, map_app. reflexivity.
Qed.

Lemma fetch_answers N params k :
  (forall i r, exists data,
      network i r = NetResponds 200 data /\ total_count data = N) ->
  page params <= MAX_PAGES ->
  exists data,
    fetchRepositoriesPage params (network k) = Return data /\
    total_count data = N.
Proof.
  intros Hnet Hp. destruct (Hnet k (request_of params)) as (data & E & Hn).
  exists data. split; [|exact Hn]. unfold fetchRepositoriesPage.
  destruct (Z.gtb_spec (page params) MAX_PAGES); [lia|]. now rewrite E.
Qed.

Lemma store_ok_one_entry c d :
  NoDup (seenPages d) -> store_ok [(criteria_key c, d)].
Proof.
  intros Hd. split; [repeat constructor; intros []|].
  intros key d0 [[= <- <-]|[]]. split; [|exact Hd].
  apply criteria_key_is_not_seenPages.
Qed.

Lemma NoDup_pages k : NoDup (map Z.of_nat (seq 1 k)).
Proof.
  apply NoDup_map_through with (g := fun x : nat => x).
  - rewrite map_id. apply seq_NoDup.
  - intros x y _ _. apply Nat2Z.inj.
Qed.

(** One more page of a criteria whose first pages are seen. *)
Lemma next_page_of_the_criteria N c i t e w :
  0 < N ->
  (forall i r, exists data,
      network i r = NetResponds 200 data /\ total_count data = N) ->
  (S i <= 100)%nat ->
  stored w
  = Some (serialize [(criteria_key c, mkProgress (map Z.of_nat (seq 1 i)) t e)]) ->
  exists data w',
    queryFn SEARCH_CRITERIAS language Math_random network 1
      (@Some PageParam (mkParams c (Z.of_nat (S i)))) w
    = (Settled (Return (answer (mkParams c (Z.of_nat (S i))) data)), w') /\
    seen w' = [(criteria_key c,
                mkProgress (map Z.of_nat (seq 1 (S i))) t
                  (Z.of_nat (S i) >=? Z.min (ceil_div10 N) MAX_PAGES))] /\
    stored w' = Some (serialize (seen w')).
Proof.
  intros HN Hnet Hi Hst. unfold queryFn. rewrite Hst.
  rewrite load_serialize by (apply store_ok_one_entry; apply NoDup_pages).
  rewrite as_store_value.
  destruct (@fetch_answers N (mkParams c (Z.of_nat (S i)))
              (attempts (set_seen
                 [(criteria_key c, mkProgress (map Z.of_nat (seq 1 i)) t e)] w))
              Hnet) as (data & Hr & Hn).
  { cbn [page]. unfold MAX_PAGES. lia. }
  rewrite (@tryFetch_results SEARCH_CRITERIAS language Math_random network
             0%nat _ _ _ Hr) by lia.
  exists data. eexists. split; [reflexivity|].
  unfold record_results.
  cbn [seen saveSeenRepositories set_stored set_seen count_attempt criteria page
       seen_get seen_set stored].
  rewrite String.eqb_refl. cbn [seenPages totalPages].
  rewrite set_add_next, Hn, length_map, length_seq. split; reflexivity.
Qed.

Lemma fetchMore_pages N c t : forall n i e q w,
  0 < N ->
  (forall i r, exists data,
      network i r = NetResponds 200 data /\ total_count data = N) ->
  (i + n <= 100)%nat ->
  getNextPageParam q = mkParams c (Z.of_nat (S i)) ->
  seen w = [(criteria_key c, mkProgress (map Z.of_nat (seq 1 i)) t e)] ->
  stored w = Some (serialize (seen w)) ->
  exists qs w',
    fetchMore SEARCH_CRITERIAS language Math_random network 1 n q w
    = (Some qs, w') /\
    map getNextPageParam qs
    = map (fun j => mkParams c (Z.of_nat j + 1)) (seq (S i) n) /\
    (exists e',
       seen w' = [(criteria_key c,
                   mkProgress (map Z.of_nat (seq 1 (i + n))) t e')] /\
       (n <> O -> e' = (Z.of_nat (i + n) >=? Z.min (ceil_div10 N) MAX_PAGES))) /\
    stored w' = Some (serialize (seen w')).
Proof.
  induction n as [|n IH]; intros i e q w HN Hnet Hi Hq Hseen Hst.
  - exists [], w. cbn [fetchMore]. split; [reflexivity|]. split; [reflexivity|].
    split; [|exact Hst]. exists e. rewrite Nat.add_0_r. split; [exact Hseen|].
    intros H. now contradiction H.
  - rewrite Hseen in Hst.
    destruct (@next_page_of_the_criteria N c i t e w HN Hnet) as
      (data & w1 & Eq & Hseen1 & Hst1); [lia|exact Hst|].
    destruct (IH (S i) (Z.of_nat (S i) >=? Z.min (ceil_div10 N) MAX_PAGES)
                (answer (mkParams c (Z.of_nat (S i))) data) w1 HN Hnet)
      as (qs & w' & Em & Hqs & (e' & Hseen' & He') & Hst'); try assumption.
    + lia.
    + unfold getNextPageParam, answer. cbn [nextPage criteria page]. f_equal. lia.
    + exists (answer (mkParams c (Z.of_nat (S i))) data :: qs), w'.
      split; [cbn [fetchMore]; now rewrite Hq, Eq, Em|]. split.
      * cbn [map seq]. rewrite Hqs. f_equal.
      * split; [|exact Hst']. replace (i + S n)%nat with (S i + n)%nat by lia.
        destruct n as [|n].
        -- exists (Z.of_nat (S i) >=? Z.min (ceil_div10 N) MAX_PAGES).
           rewrite Nat.add_0_r in *. split; [|reflexivity].
           cbn [fetchMore] in Em. injection Em as _ <-. exact Hseen1.
        -- exists e'. split; [exact Hseen'|]. intros _. now apply He'.
Qed.

(** X22.  The pages of a feed. In a browser without a stored item, where every
    request is answered with [N] results, the first query selects a criteria
    and fetches its page 1, and each [fetchMore] fetches the next page of that
    same criteria, whether the criteria is exhausted or not, as long as the
    page is within the cap of 100: after [k] queries the store holds that one
    criteria, with the pages 1 to [k] seen, the page count of [N] results (at
    most 100), and exhausted exactly when [k] has reached the page count. *)
Theorem paging_follows_the_first_criteria N k w :
  0 < N ->
  (forall i r, exists data,
      network i r = NetResponds 200 data /\ total_count data = N) ->
  (1 <= k)%nat -> (k <= 100)%nat ->
  SEARCH_CRITERIAS <> [] -> stored w = None ->
  let c := nth (Math_random (draws w) mod List.length SEARCH_CRITERIAS)
             (map (with_language language) SEARCH_CRITERIAS) [] in
  let pageCount := Z.min (ceil_div10 N) MAX_PAGES in
  exists q w1 qs w',
    queryFn SEARCH_CRITERIAS language Math_random network 1 None w
    = (Settled (Return q), w1) /\
    fetchMore SEARCH_CRITERIAS language Math_random network 1 (k - 1) q w1
    = (Some qs, w') /\
    map getNextPageParam (q :: qs)
    = map (fun j => mkParams c (Z.of_nat j + 1)) (seq 1 k) /\
    seen w' = [(criteria_key c,
                mkProgress (map Z.of_nat (seq 1 k)) (Some pageCount)
                  (Z.of_nat k >=? pageCount))] /\
    stored w' = Some (serialize (seen w')).
Proof.
  intros HN Hnet Hk1 Hk100 Hne Hst c pageCount.
  (* the first query *)
  assert (Hav : availableCriterias SEARCH_CRITERIAS language []
                = map (with_language language) SEARCH_CRITERIAS).
  { unfold availableCriterias. apply forallb_filter_id.
    apply forallb_forall. reflexivity. }
  assert (Hfirst : exists data w1,
             queryFn SEARCH_CRITERIAS language Math_random network 1 None w
             = (Settled (Return (answer (mkParams c 1) data)), w1) /\
             seen w1 = [(criteria_key c,
                         mkProgress [1] (Some pageCount) (1 >=? pageCount))] /\
             stored w1 = Some (serialize (seen w1))).
  { unfold queryFn. rewrite Hst. cbn [loadSeenRepositories as_store fold_right].
    rewrite getNextSearchParams_eq. unfold select_step.
    cbn [seen set_seen count_selection count_draw draws].
    rewrite Hav, length_map.
    destruct (Nat.eqb_spec (List.length SEARCH_CRITERIAS) 0) as [E|_].
    { destruct SEARCH_CRITERIAS; [now contradiction Hne|discriminate]. }
    fold c. cbn [seen_get].
    destruct (@fetch_answers N (mkParams c 1) (attempts w) Hnet)
      as (data & Hr & Hn); [cbn; unfold MAX_PAGES; lia|].
    rewrite (@tryFetch_results SEARCH_CRITERIAS language Math_random network
               0%nat (mkParams c 1) _ data) by (cbn; (exact Hr || lia)).
    exists data. eexists. split; [reflexivity|].
    unfold record_results.
    cbn [seen saveSeenRepositories set_stored set_seen count_attempt criteria
         page seen_get seen_set stored seenPages totalPages].
    rewrite Hn. split; reflexivity. }
  destruct Hfirst as (data & w1 & Hq & Hseen1 & Hst1).
  destruct (@fetchMore_pages N c (Some pageCount) (k - 1) 1
              (1 >=? pageCount) (answer (mkParams c 1) data) w1 HN Hnet)
    as (qs & w' & Hm & Hqs & (e' & Hseen' & He') & Hst'); auto; [lia|].
  exists (answer (mkParams c 1) data), w1, qs, w'.
  split; [exact Hq|]. split; [exact Hm|].
  replace (1 + (k - 1))%nat with k in * by lia. split; [|split; [|exact Hst']].
  - destruct k as [|k]; [lia|]. cbn [map seq]. f_equal.
    replace (S k - 1)%nat with k in Hqs by lia. exact Hqs.
  - rewrite Hseen'. destruct (Nat.eq_dec k 1) as [->|Hk].
    + cbn [Nat.sub fetchMore] in Hm. injection Hm as _ <-.
      rewrite Hseen1 in Hseen'. injection Hseen' as <-. reflexivity.
    + rewrite He' by lia. reflexivity.
Qed.

End Session.

(* ===================================================================== *)
(** * The requests that are made *)
(* ===================================================================== *)

Section Requests.

Variable SEARCH_CRITERIAS : list SearchCriteria.
Variable language : option string.
Variable Math_random : nat -> nat.
Variables network network' : nat -> request -> net_outcome.

Lemma fetch_within_the_cap params k :
  (forall k r, req_page r <= MAX_PAGES -> req_per_page r = PER_PAGE ->
               network k r = network' k r) ->
  fetchRepositoriesPage params (network k)
  = fetchRepositoriesPage params (network' k).
Proof.
  intros H. unfold fetchRepositoriesPage.
  destruct (Z.gtb_spec (page params) MAX_PAGES) as [Hgt|Hle]; [reflexivity|].
  now rewrite H.
Qed.

(** X23.  No request is made for a page beyond the cap, nor with another page
    size than [PER_PAGE]: what [tryFetchWithParams] and the query function do
    is the same with two networks that answer alike the requests for a page up
    to [MAX_PAGES] with [PER_PAGE] repositories a page, whatever they answer
    to the others. A page parameter beyond the cap, as [getNextPageParam]
    gives after page 100, is rejected before any request and replaced by a
    selection. *)
Theorem no_request_beyond_the_page_cap :
  (forall k r, req_page r <= MAX_PAGES -> req_per_page r = PER_PAGE ->
               network k r = network' k r) ->
  (forall fuel params w,
     tryFetchWithParams SEARCH_CRITERIAS language Math_random network fuel params w
     = tryFetchWithParams SEARCH_CRITERIAS language Math_random network' fuel
         params w) /\
  (forall fuel pageParam w,
     queryFn SEARCH_CRITERIAS language Math_random network fuel pageParam w
     = queryFn SEARCH_CRITERIAS language Math_random network' fuel pageParam w) /\
  (forall fuel params w,
     MAX_PAGES < page params ->
     tryFetchWithParams SEARCH_CRITERIAS language Math_random network (S fuel)
       params w
     = fallback SEARCH_CRITERIAS language Math_random network fuel
         (count_attempt w)).
Proof.
  intros H.
  assert (Ht : forall fuel params w,
             tryFetchWithParams SEARCH_CRITERIAS language Math_random network
               fuel params w
             = tryFetchWithParams SEARCH_CRITERIAS language Math_random network'
                 fuel params w).
  { induction fuel as [|fuel IH]; intros params w; [reflexivity|].
    cbn [tryFetchWithParams]. rewrite (fetch_within_the_cap params _ H).
    destruct (fetchRepositoriesPage params (network' (attempts w))) as [r|e].
    - destruct (total_count r =? 0); [|reflexivity].
      destruct (getNextSearchParams _ _ _ _) as [np w1]. apply IH.
    - destruct (includes _ _); [reflexivity|].
      destruct (getNextSearchParams _ _ _ _) as [np w1]. apply IH. }
  split; [exact Ht|]. split.
  - intros fuel pageParam w. unfold queryFn.
    destruct (loadSeenRepositories (stored w)) as [v|]; [|reflexivity].
    destruct (as_store v) as [s|]; [|reflexivity].
    destruct pageParam as [p|].
    + now rewrite Ht.
    + destruct (getNextSearchParams _ _ _ _) as [np w1]. now rewrite Ht.
  - intros fuel params w Hp.
    apply (@tryFetch_throw SEARCH_CRITERIAS language Math_random network fuel
             params w page_cap_error).
    unfold fetchRepositoriesPage.
    destruct (Z.gtb_spec (page params) MAX_PAGES); [reflexivity|lia].
Qed.

End Requests.

(* ===================================================================== *)
(** * The calls of [fetch] and the subscriber counts *)
(* ===================================================================== *)

Section ClientFacts.

Variable denotes_zero : string -> bool.
Variable type_error_message : string.

Lemma map_indexed_length {A B} (f : nat -> A -> B) l : forall i,
  List.length (Client.map_indexed f i l) = List.length l.
Proof. induction l as [|a l IH]; intros i; cbn; [reflexivity|now rewrite IH]. Qed.

Lemma map_indexed_nth {A B} (f : nat -> A -> B) l : forall i j,
  nth_error (Client.map_indexed f i l) j = option_map (f (i + j)%nat) (nth_error l j).
Proof.
  induction l as [|a l IH]; intros i [|j]; cbn; try reflexivity.
  - now rewrite Nat.add_0_r.
  - rewrite IH. now rewrite Nat.add_succ_r.
Qed.

Lemma map_indexed_calls token dn l : forall i,
  map fst (Client.map_indexed (Client.with_subscribers denotes_zero type_error_message token dn) i l)
  = map (fun repo => Client.mkFetch (Client.obj_get "url" repo) (Client.request_init token)) l.
Proof. induction l as [|a l IH]; intros i; cbn; [reflexivity|now rewrite IH]. Qed.

Lemma promise_all_returns {A} (l : list (completion A)) : forall xs,
  Client.promise_all l = Return xs -> l = map Return xs.
Proof.
  induction l as [|[a|e] l IH]; intros xs; cbn.
  - now intros [= <-].
  - destruct (Client.promise_all l) as [rest|]; [|discriminate].
    intros [= <-]. cbn. now rewrite (IH rest).
  - discriminate.
Qed.

Lemma promise_all_throws {A} (l : list (completion A)) e :
  Client.promise_all l = Throw e -> In (Throw e) l.
Proof.
  induction l as [|[a|e'] l IH]; cbn; [discriminate| |].
  - destruct (Client.promise_all l); [discriminate|]. intros [= ->]. right. now apply IH.
  - intros [= ->]. now left.
Qed.


Lemma obj_get_set_other name name' v o :
  name' <> name -> Client.obj_get name' (Client.obj_set name v o) = Client.obj_get name' o.
Proof.
  intros N. induction o as [|[k v'] o IH]; cbn.
  - destruct (String.eqb_spec name' name); congruence.
  - destruct (String.eqb_spec name k); cbn.
    + subst k. destruct (String.eqb_spec name' name); congruence.
    + now rewrite IH.
Qed.

Lemma repository_of_set v repo :
  Client.repository_of (Client.obj_set "subscribers_count" v repo) = Client.repository_of repo.
Proof.
  unfold Client.repository_of. now rewrite !obj_get_set_other by discriminate.
Qed.

Lemma search_url_of params : search_url params = Client.url_of (request_of params).
Proof.
  unfold search_url, Client.url_of, request_of.
  cbn [req_query req_sort req_page req_per_page]. reflexivity.
Qed.

(** X24.  The calls of [fetch] that [Client.fetchRepositoriesPage] makes, in
    their order. No call is made for a page beyond the cap. Otherwise the
    search request comes first; when it is answered with a success status and
    a token is saved, one request follows for each repository of the page, in
    the order of the page, for its [url]; in every other case the search
    request is the only call. Every call carries the header of the [token]
    argument and no other: when the function is called without a token, as the
    hook calls it, no call has an [Authorization] header, whether a token is
    saved or not. *)
Theorem calls_of_a_page params token savedToken search_network details_network :
  let calls :=
    fst (Client.fetchRepositoriesPage denotes_zero type_error_message params token
           savedToken search_network details_network) in
  let search :=
    Client.mkFetch (Some (VStr (search_url params))) (Client.request_init token) in
  let details_of (repo : Client.js_object) :=
    Client.mkFetch (Client.obj_get "url" repo) (Client.request_init token) in
  calls =
    (if page params >? MAX_PAGES then []
     else
       search ::
       match search_network search with
       | Client.SearchRejects _ => []
       | Client.SearchResponds status data =>
           if response_ok status && truthy_string savedToken
           then map details_of (Client.data_items data)
           else []
       end) /\
  Forall (fun call => Client.authorization call = Client.request_init token) calls /\
  (token = None -> Forall (fun call => Client.authorization call = None) calls).
Proof.
  cbv zeta.
  assert (H : forall t l,
             Forall (fun call => Client.authorization call = t)
               (map (fun repo => Client.mkFetch (Client.obj_get "url" repo) t) l)).
  { intros t l. apply Forall_forall. intros call Hin.
    apply in_map_iff in Hin. now destruct Hin as (repo & <- & _). }
  unfold Client.fetchRepositoriesPage.
  destruct (page params >? MAX_PAGES).
  - cbn [fst]. repeat split; constructor.
  - destruct (search_network _) as [e|status data] eqn:Es;
      [|destruct (response_ok status) eqn:Eok;
        [destruct (truthy_string savedToken) eqn:Et|]];
      cbn [fst negb andb]; try rewrite map_indexed_calls;
      (split; [reflexivity|]);
      (split; [repeat constructor; apply H|]);
      intros ->; repeat constructor; apply (H None).
Qed.

Lemma with_subscribers_returns token dn i repo enriched :
  snd (Client.with_subscribers denotes_zero type_error_message token dn i repo)
  = Return enriched ->
  exists count,
    enriched = Client.obj_set "subscribers_count" count repo /\
    match dn i (Client.mkFetch (Client.obj_get "url" repo) (Client.request_init token)) with
    | Client.DetailsReject _ => False
    | Client.DetailsNotOk => count = VNull
    | Client.DetailsOk VNull => False
    | Client.DetailsOk (VObj o) =>
        match Client.obj_get "subscribers_count" o with
        | Some v => count = if Client.truthy denotes_zero v then v else VNum 0
        | None => count = VNum 0
        end
    | Client.DetailsOk _ => count = VNum 0
    end.
Proof.
  unfold Client.with_subscribers. cbn [snd].
  destruct (dn i _) as [e| |details]; [discriminate| |].
  - intros [= <-]. now exists VNull.
  - destruct details as [| | | | | |o|]; cbn [Client.subscribers_count_of];
      try discriminate;
      try (intros [= <-]; exists (VNum 0); split; reflexivity).
    destruct (Client.obj_get "subscribers_count" o) as [v|] eqn:Ev;
      intros [= <-]; eexists; split; reflexivity.
Qed.

(** X25.  What [Client.fetchRepositoriesPage] returns. The search request was
    answered with a success status. Without a saved token the body is returned
    as it is. With one, the count of the body is kept and each repository
    comes back in its place with one property set, [subscribers_count], and
    the others as they were. The value set is [null] when the request for the
    details of the repository was not [ok]; otherwise it is the
    [subscribers_count] of the details when that is truthy, and 0 when it is
    falsy, when the details have no such property and when they are not an
    object. No request for details was rejected, and no details were [null]. *)
Theorem returned_repositories params token savedToken search_network
    details_network calls returned :
  Client.fetchRepositoriesPage denotes_zero type_error_message params token savedToken
    search_network details_network = (calls, Return returned) ->
  exists status data,
    search_network (Client.mkFetch (Some (VStr (search_url params))) (Client.request_init token))
    = Client.SearchResponds status data /\
    response_ok status = true /\
    Client.data_total_count returned = Client.data_total_count data /\
    if truthy_string savedToken then
      List.length (Client.data_items returned) = List.length (Client.data_items data) /\
      forall i repo,
        nth_error (Client.data_items data) i = Some repo ->
        exists count,
          nth_error (Client.data_items returned) i
          = Some (Client.obj_set "subscribers_count" count repo) /\
          (forall name, name <> "subscribers_count" ->
             Client.obj_get name (Client.obj_set "subscribers_count" count repo)
             = Client.obj_get name repo) /\
          match details_network i
                  (Client.mkFetch (Client.obj_get "url" repo) (Client.request_init token)) with
          | Client.DetailsReject _ => False
          | Client.DetailsNotOk => count = VNull
          | Client.DetailsOk VNull => False
          | Client.DetailsOk (VObj o) =>
              match Client.obj_get "subscribers_count" o with
              | Some v => count = if Client.truthy denotes_zero v then v else VNum 0
              | None => count = VNum 0
              end
          | Client.DetailsOk _ => count = VNum 0
          end
    else returned = data.
Proof.
  unfold Client.fetchRepositoriesPage.
  destruct (page params >? MAX_PAGES); [discriminate|].
  destruct (search_network _) as [e|status data]; [discriminate|].
  destruct (negb (response_ok status)) eqn:Eok.
  { destruct (status =? 403); [discriminate|].
    destruct (status =? 422); [discriminate|].
    destruct (status =? 401); discriminate. }
  apply negb_false_iff in Eok.
  destruct (truthy_string savedToken).
  - destruct (Client.promise_all _) as [items|] eqn:Ea; [|discriminate].
    intros [= _ <-]. exists status, data.
    split; [reflexivity|]. split; [exact Eok|].
    cbn [Client.data_total_count Client.data_items].
    split; [reflexivity|]. apply promise_all_returns in Ea.
    assert (Hlen : List.length items = List.length (Client.data_items data)).
    { rewrite <- (length_map Return items), <- Ea, length_map.
      apply map_indexed_length. }
    split; [exact Hlen|]. intros i repo Hi.
    assert (Hnth : nth_error (map (@Return Client.js_object) items) i
                   = Some (snd (Client.with_subscribers denotes_zero type_error_message
                                  token details_network i repo))).
    { rewrite <- Ea, nth_error_map, map_indexed_nth, Hi. reflexivity. }
    rewrite nth_error_map in Hnth.
    destruct (nth_error items i) as [enriched|] eqn:En; [|discriminate].
    injection Hnth as Hnth. symmetry in Hnth.
    destruct (@with_subscribers_returns token details_network i repo enriched
                Hnth) as (count & -> & Hc).
    exists count. split; [reflexivity|]. split; [|exact Hc].
    intros name Hn. now apply obj_get_set_other.
  - intros [= _ <-]. exists status, data. now repeat split.
Qed.

(** X26.  The model the cursor is verified with is this function without the
    subscriber counts. With the network of [fetch] calls read as a network of
    requests, what [Client.fetchRepositoriesPage] returns is, repository for
    repository, what the model returns, and an error it throws is the error
    the model throws, or, with a saved token and a search that succeeded, the
    rejection of one of the requests for the details. *)
Theorem model_of_the_client params token savedToken search_network details_network :
  let model :=
    fetchRepositoriesPage params (Client.network_of token search_network) in
  match snd (Client.fetchRepositoriesPage denotes_zero type_error_message params token
               savedToken search_network details_network) with
  | Return returned => model = Return (Client.response_of returned)
  | Throw e =>
      model = Throw e \/
      truthy_string savedToken = true /\
      exists data i repo,
        model = Return (Client.response_of data) /\
        nth_error (Client.data_items data) i = Some repo /\
        snd (Client.with_subscribers denotes_zero type_error_message token
               details_network i repo) = Throw e
  end.
Proof.
  cbv zeta. unfold Client.fetchRepositoriesPage, fetchRepositoriesPage, Client.network_of.
  rewrite <- search_url_of.
  destruct (page params >? MAX_PAGES); [now left|].
  destruct (search_network _) as [e|status data]; cbn [Client.outcome_of snd];
    [now left|].
  destruct (negb (response_ok status)).
  { destruct (status =? 403); [now left|].
    destruct (status =? 422); [now left|].
    destruct (status =? 401); now left. }
  destruct (truthy_string savedToken); [|reflexivity].
  destruct (Client.promise_all _) as [items|e] eqn:Ea.
  - apply promise_all_returns in Ea. unfold Client.response_of.
    cbn [Client.data_total_count Client.data_items]. do 2 apply f_equal.
    assert (H : forall l i items0,
               map snd (Client.map_indexed (Client.with_subscribers denotes_zero
                                       type_error_message token details_network)
                          i l) = map Return items0 ->
               map Client.repository_of items0 = map Client.repository_of l).
    { induction l as [|repo l IH]; intros i [|x items0]; cbn [map Client.map_indexed];
        try discriminate; [reflexivity|].
      intros [= Hx Hl]. f_equal; [|now apply (IH (S i))].
      destruct (@with_subscribers_returns token details_network i repo x Hx)
        as (count & Hc & _).
      rewrite Hc. apply repository_of_set. }
    symmetry. now apply (H _ O).
  - right. split; [reflexivity|]. apply promise_all_throws in Ea.
    apply in_map_iff in Ea. destruct Ea as ([call r] & Hr & Hin). cbn in Hr. subst r.
    apply In_nth_error in Hin. destruct Hin as [i Hi].
    rewrite map_indexed_nth in Hi. cbn [Nat.add] in Hi.
    destruct (nth_error (Client.data_items data) i) as [repo|] eqn:En; [|discriminate].
    cbn [option_map] in Hi.
    assert (Hw : Client.with_subscribers denotes_zero type_error_message token
                   details_network i repo = (call, Throw e)) by congruence.
    exists data, i, repo.
    split; [reflexivity|]. split; [exact En|]. now rewrite Hw.
Qed.

End ClientFacts.

(* ===================================================================== *)
(** * More runs *)
(* ===================================================================== *)

(** The entry of the low bucket, with page 1 seen of three, after a selection
    and after the fetch of page 2. *)
Lemma entries_are_kept_witness :
  seen_get (criteria_key bucket_low) (seen world_low_started)
  = Some (mkProgress [1] (Some 3) false) /\
  (exists d',
     seen_get (criteria_key bucket_low)
       (seen (snd (getNextSearchParams two_buckets None first_index
                     world_low_started))) = Some d' /\
     totalPages d' = Some 3 /\
     forall p, set_has p [1] = true -> set_has p (seenPages d') = true) /\
  (exists d',
     seen_get (criteria_key bucket_low)
       (seen (snd (tryFetchWithParams two_buckets None first_index serves_25 1
                     (mkParams bucket_low 2) world_low_started))) = Some d' /\
     totalPages d' = Some 3 /\
     forall p, set_has p [1] = true -> set_has p (seenPages d') = true).
Proof.
  split; [reflexivity|].
  exact (@entries_are_kept two_buckets None first_index serves_25 1
           (mkParams bucket_low 2) world_low_started (criteria_key bucket_low)
           (mkProgress [1] (Some 3) false) eq_refl).
Defined.

Lemma returned_page_is_recorded_witness :
  tryFetchWithParams two_buckets None first_index serves_25 1
    (mkParams bucket_low 1) empty_world
  = (Some (Return (answer (mkParams bucket_low 1) results_25)),
     record_results (mkParams bucket_low 1) results_25
       (count_attempt empty_world)) /\
  exists p response,
    (p = mkParams bucket_low 1 \/ 1 <= page p <= MAX_PAGES) /\
    fetchRepositoriesPage p (serves_25 0%nat) = Return response /\
    total_count response <> 0 /\
    q_total_count (answer (mkParams bucket_low 1) results_25)
    = total_count response /\
    q_items (answer (mkParams bucket_low 1) results_25)
    = map (fun repo => (repo, criteria_key (criteria p))) (items response) /\
    getNextPageParam (answer (mkParams bucket_low 1) results_25)
    = mkParams (criteria p) (page p + 1) /\
    page_seen
      (seen (record_results (mkParams bucket_low 1) results_25
               (count_attempt empty_world))) p = true /\
    (exists d,
       seen_get (criteria_key (criteria p))
         (seen (record_results (mkParams bucket_low 1) results_25
                  (count_attempt empty_world))) = Some d /\
       exhausted d
       = (Z.of_nat (List.length (seenPages d))
          >=? Z.min (ceil_div10 (total_count response)) MAX_PAGES)) /\
    stored (record_results (mkParams bucket_low 1) results_25
              (count_attempt empty_world))
    = Some (serialize
              (seen (record_results (mkParams bucket_low 1) results_25
                       (count_attempt empty_world)))).
Proof.
  split; [reflexivity|].
  exact (@returned_page_is_recorded two_buckets None first_index serves_25 1
           (mkParams bucket_low 1) empty_world _ _ eq_refl).
Defined.

Lemma only_rate_limit_errors_escape_witness :
  tryFetchWithParams two_buckets None first_index rate_limited 1
    (mkParams bucket_low 1) empty_world
  = (Some (Throw rate_limit_error), count_attempt empty_world) /\
  includes "Rate limit exceeded" (err_message rate_limit_error) = true /\
  (forall failureCount, retry failureCount rate_limit_error = false) /\
  exists p,
    fetchRepositoriesPage p (rate_limited 0%nat) = Throw rate_limit_error /\
    page p <= MAX_PAGES /\
    (rate_limit_error = rate_limit_error /\
     (exists data, rate_limited 0%nat (request_of p) = NetResponds 403 data)
     \/ rate_limited 0%nat (request_of p) = NetRejects rate_limit_error).
Proof.
  split; [reflexivity|].
  exact (@only_rate_limit_errors_escape two_buckets None first_index rate_limited
           1 (mkParams bucket_low 1) empty_world _ _ eq_refl).
Defined.

Lemma low_started_ok : store_ok (seen world_low_started).
Proof. apply store_ok_one_entry. repeat constructor. intros []. Qed.

Lemma cursor_keeps_the_store_well_formed_witness :
  store_ok (seen world_low_started) /\
  store_ok (seen (snd (getNextSearchParams two_buckets None first_index
                         world_low_started))) /\
  store_ok (seen (snd (tryFetchWithParams two_buckets None first_index serves_25
                         1 (mkParams bucket_low 2) world_low_started))).
Proof.
  split; [exact low_started_ok|].
  exact (@cursor_keeps_the_store_well_formed two_buckets None first_index
           serves_25 1 (mkParams bucket_low 2) world_low_started low_started_ok).
Defined.

Lemma serves_25_finds :
  forall (k : nat) (r : request), exists data,
    serves_25 k r = NetResponds 200 data /\ total_count data <> 0.
Proof. intros k r. exists results_25. split; [reflexivity|discriminate]. Qed.

Lemma a_network_with_results_ends_the_query_witness :
  (forall (k : nat) (r : request), exists data,
     serves_25 k r = NetResponds 200 data /\ total_count data <> 0) /\
  (forall params w,
     exists q w',
       tryFetchWithParams two_buckets None first_index serves_25 2 params w
       = (Some (Return q), w') /\
       if page params >? MAX_PAGES
       then attempts w' = S (S (attempts w))
       else attempts w' = S (attempts w) /\
            getNextPageParam q = mkParams (criteria params) (page params + 1)) /\
  (forall pageParam w v s,
     loadSeenRepositories (stored w) = Loaded v -> as_store v = Some s ->
     exists q w',
       queryFn two_buckets None first_index serves_25 2 pageParam w
       = (Settled (Return q), w')).
Proof.
  split; [exact serves_25_finds|].
  exact (@a_network_with_results_ends_the_query two_buckets None first_index
           serves_25 serves_25_finds).
Defined.

Lemma serves_25_counts :
  forall (k : nat) (r : request) status data,
    serves_25 k r = NetResponds status data -> 0 <= total_count data.
Proof. intros k r status data [= _ <-]. cbn. lia. Qed.

Lemma low_started_bounded : store_bounded (seen world_low_started).
Proof.
  intros key d. unfold world_low_started, low_started. cbn [seen seen_get].
  destruct (String.eqb key _); [|discriminate].
  intros [= <-]. cbn [totalPages seenPages]. split.
  - exists 3. split; [reflexivity|unfold MAX_PAGES; lia].
  - intros p. unfold set_has. cbn [existsb]. rewrite orb_false_r.
    intros H. apply Z.eqb_eq in H. unfold MAX_PAGES. lia.
Qed.

Lemma store_stays_within_bounds_witness :
  (forall (k : nat) (r : request) status data,
     serves_25 k r = NetResponds status data -> 0 <= total_count data) /\
  1 <= page (mkParams bucket_low 2) /\
  store_bounded (seen world_low_started) /\
  store_bounded (seen (snd (getNextSearchParams two_buckets None first_index
                              world_low_started))) /\
  store_bounded (seen (snd (tryFetchWithParams two_buckets None first_index
                              serves_25 1 (mkParams bucket_low 2)
                              world_low_started))).
Proof.
  assert (H : 1 <= page (mkParams bucket_low 2)) by (cbn; lia).
  split; [exact serves_25_counts|]. split; [exact H|].
  split; [exact low_started_bounded|].
  exact (@store_stays_within_bounds two_buckets None first_index serves_25 1
           (mkParams bucket_low 2) world_low_started serves_25_counts H
           low_started_bounded).
Defined.

Lemma both_exhausted_all : all_exhausted two_buckets None (seen world_both_exhausted).
Proof. intros c [<-|[<-|[]]]; reflexivity. Qed.

(** With both buckets exhausted the stored item is removed, page 1 of the low
    bucket is fetched, and the store saved after it still has the top bucket
    exhausted. *)
Lemma reset_is_written_over_witness :
  all_exhausted two_buckets None (seen world_both_exhausted) /\
  (let (next, w1) :=
     getNextSearchParams two_buckets None first_index world_both_exhausted in
   fetchRepositoriesPage next (serves_25 (attempts w1)) = Return results_25 ->
   total_count results_25 <> 0 ->
   let w2 := snd (tryFetchWithParams two_buckets None first_index serves_25 1
                    next w1) in
   stored w1 = None /\
   stored w2 = Some (serialize (seen w2)) /\
   forall c, In c two_buckets ->
     criteria_key (with_language None c) <> criteria_key (criteria next) ->
     is_exhausted (seen w2) (with_language None c) = true).
Proof.
  split; [exact both_exhausted_all|].
  exact (@reset_is_written_over two_buckets None first_index serves_25
           world_both_exhausted results_25 both_exhausted_all).
Defined.

(** A stored entry with the pages 1, 1 and 2 is loaded with the pages 1
    and 2. *)
Lemma loaded_store_is_well_formed_witness :
  loadSeenRepositories (Some stored_with_a_page_twice)
  = Loaded (store_value [(criteria_key bucket_low, mkProgress [1; 2] (Some 3) false)]) /\
  as_store (store_value [(criteria_key bucket_low, mkProgress [1; 2] (Some 3) false)])
  = Some [(criteria_key bucket_low, mkProgress [1; 2] (Some 3) false)] /\
  store_ok [(criteria_key bucket_low, mkProgress [1; 2] (Some 3) false)] /\
  (store_safe [(criteria_key bucket_low, mkProgress [1; 2] (Some 3) false)] ->
   loadSeenRepositories
     (Some (serialize [(criteria_key bucket_low, mkProgress [1; 2] (Some 3) false)]))
   = Loaded (store_value [(criteria_key bucket_low, mkProgress [1; 2] (Some 3) false)])).
Proof.
  assert (H1 : loadSeenRepositories (Some stored_with_a_page_twice)
               = Loaded (store_value [(criteria_key bucket_low,
                                       mkProgress [1; 2] (Some 3) false)]))
    by reflexivity.
  assert (H2 : as_store (store_value [(criteria_key bucket_low,
                                       mkProgress [1; 2] (Some 3) false)])
               = Some [(criteria_key bucket_low, mkProgress [1; 2] (Some 3) false)])
    by reflexivity.
  split; [exact H1|]. split; [exact H2|].
  exact (@loaded_store_is_well_formed (Some stored_with_a_page_twice) _ _ H1 H2).
Defined.

Lemma low_started_safe : store_safe low_started.
Proof.
  intros key d [[= <- <-]|[]]. cbn [seenPages totalPages].
  split; [repeat constructor|]; unfold safe_integer, MAX_SAFE_INTEGER; lia.
Qed.

(** From the store with page 1 of the low bucket seen, the query for its
    page 2 leaves the store with the pages 1 and 2 seen. *)
Lemma query_leaves_the_store_it_holds_witness :
  let w' :=
    record_results (mkParams bucket_low 2) results_25
      (count_attempt (set_seen low_started world_low_started)) in
  loadSeenRepositories (stored world_low_started) = Loaded (store_value low_started) /\
  as_store (store_value low_started) = Some low_started /\
  store_safe low_started /\
  queryFn two_buckets None first_index serves_25 1 (Some (mkParams bucket_low 2))
    world_low_started
  = (Settled (Return (answer (mkParams bucket_low 2) results_25)), w') /\
  store_ok (seen w') /\
  loadSeenRepositories (stored w') = Loaded (store_value (seen w')) /\
  as_store (store_value (seen w')) = Some (seen w').
Proof.
  cbv zeta.
  assert (H1 : loadSeenRepositories (stored world_low_started)
               = Loaded (store_value low_started)) by reflexivity.
  assert (H2 : as_store (store_value low_started) = Some low_started)
    by reflexivity.
  split; [exact H1|]. split; [exact H2|]. split; [exact low_started_safe|].
  split; [reflexivity|].
  exact (@query_leaves_the_store_it_holds two_buckets None first_index serves_25
           1 (Some (mkParams bucket_low 2)) world_low_started _ _ _ _
           H1 H2 low_started_safe eq_refl).
Defined.

Lemma serves_25_answers :
  forall (i : nat) (r : request), exists data,
    serves_25 i r = NetResponds 200 data /\ total_count data = 25.
Proof. intros i r. exists results_25. split; reflexivity. Qed.

Lemma two_buckets_not_empty : two_buckets <> [].
Proof. discriminate. Qed.

(** Three queries with 25 results each time: the pages 1, 2 and 3 of the low
    bucket, which is then exhausted. *)
Lemma paging_follows_the_first_criteria_witness :
  0 < 25 /\
  (forall (i : nat) (r : request), exists data,
     serves_25 i r = NetResponds 200 data /\ total_count data = 25) /\
  (1 <= 3)%nat /\ (3 <= 100)%nat /\ two_buckets <> [] /\
  stored empty_world = None /\
  exists q w1 qs w',
    queryFn two_buckets None first_index serves_25 1 None empty_world
    = (Settled (Return q), w1) /\
    fetchMore two_buckets None first_index serves_25 1 (3 - 1) q w1
    = (Some qs, w') /\
    map getNextPageParam (q :: qs)
    = map (fun j => mkParams (with_language None bucket_low) (Z.of_nat j + 1))
        (seq 1 3) /\
    seen w' = [(criteria_key (with_language None bucket_low),
                mkProgress (map Z.of_nat (seq 1 3))
                  (Some (Z.min (ceil_div10 25) MAX_PAGES))
                  (Z.of_nat 3 >=? Z.min (ceil_div10 25) MAX_PAGES))] /\
    stored w' = Some (serialize (seen w')).
Proof.
  assert (H0 : 0 < 25) by lia.
  assert (H1 : (1 <= 3)%nat) by lia.
  assert (H2 : (3 <= 100)%nat) by lia.
  split; [exact H0|]. split; [exact serves_25_answers|].
  split; [exact H1|]. split; [exact H2|].
  split; [exact two_buckets_not_empty|]. split; [reflexivity|].
  exact (@paging_follows_the_first_criteria two_buckets None first_index serves_25
           25 3 empty_world H0 serves_25_answers H1 H2 two_buckets_not_empty
           eq_refl).
Defined.

Lemma serves_25_alike :
  forall (k : nat) (r : request),
    req_page r <= MAX_PAGES -> req_per_page r = PER_PAGE ->
    serves_25 k r = serves_25_within_the_cap k r.
Proof.
  intros k r Hp _. unfold serves_25, serves_25_within_the_cap.
  destruct (Z.gtb_spec (req_page r) MAX_PAGES); [lia|reflexivity].
Qed.

(** A network that finds 25 results for every request and one that does so
    up to page 100 and answers 500 beyond: the cursor cannot tell them
    apart. *)
Lemma no_request_beyond_the_page_cap_witness :
  (forall (k : nat) (r : request),
     req_page r <= MAX_PAGES -> req_per_page r = PER_PAGE ->
     serves_25 k r = serves_25_within_the_cap k r) /\
  (forall fuel params w,
     tryFetchWithParams two_buckets None first_index serves_25 fuel params w
     = tryFetchWithParams two_buckets None first_index serves_25_within_the_cap
         fuel params w) /\
  (forall fuel pageParam w,
     queryFn two_buckets None first_index serves_25 fuel pageParam w
     = queryFn two_buckets None first_index serves_25_within_the_cap fuel
         pageParam w) /\
  (forall fuel params w,
     MAX_PAGES < page params ->
     tryFetchWithParams two_buckets None first_index serves_25 (S fuel) params w
     = fallback two_buckets None first_index serves_25 fuel (count_attempt w)).
Proof.
  split; [exact serves_25_alike|].
  exact (@no_request_beyond_the_page_cap two_buckets None first_index serves_25
           serves_25_within_the_cap serves_25_alike).
Defined.

(** The page of [gitkot] with a saved token and no token argument: two
    calls without a header, and the repository with 42 subscribers. *)
Lemma returned_repositories_witness :
  let search :=
    Client.mkFetch (Some (VStr (search_url (mkParams bucket_low 1)))) None in
  let details := Client.mkFetch (Client.obj_get "url" gitkot) None in
  let returned :=
    Client.mkData 1 [Client.obj_set "subscribers_count" (VNum 42) gitkot] in
  Client.fetchRepositoriesPage no_reals "" (mkParams bucket_low 1) None
    (Some "a saved token") finds_gitkot counts_42
  = ([search; details], Return returned) /\
  exists status data,
    finds_gitkot
      (Client.mkFetch (Some (VStr (search_url (mkParams bucket_low 1))))
         (Client.request_init None))
    = Client.SearchResponds status data /\
    response_ok status = true /\
    Client.data_total_count returned = Client.data_total_count data /\
    if truthy_string (Some "a saved token") then
      List.length (Client.data_items returned)
      = List.length (Client.data_items data) /\
      forall i repo,
        nth_error (Client.data_items data) i = Some repo ->
        exists count,
          nth_error (Client.data_items returned) i
          = Some (Client.obj_set "subscribers_count" count repo) /\
          (forall name, name <> "subscribers_count" ->
             Client.obj_get name (Client.obj_set "subscribers_count" count repo)
             = Client.obj_get name repo) /\
          match counts_42 i
                  (Client.mkFetch (Client.obj_get "url" repo)
                     (Client.request_init None)) with
          | Client.DetailsReject _ => False
          | Client.DetailsNotOk => count = VNull
          | Client.DetailsOk VNull => False
          | Client.DetailsOk (VObj o) =>
              match Client.obj_get "subscribers_count" o with
              | Some v => count = if Client.truthy no_reals v then v else VNum 0
              | None => count = VNum 0
              end
          | Client.DetailsOk _ => count = VNum 0
          end
    else returned = data.
Proof.
  cbv zeta. split; [reflexivity|].
  exact (@returned_repositories no_reals "" (mkParams bucket_low 1) None
           (Some "a saved token") finds_gitkot counts_42 _ _ eq_refl).
Defined.

(** The first page of the low bucket, with 25 results: three pages. *)
Lemma first_response_sets_the_page_count_witness :
  fetchRepositoriesPage (mkParams bucket_low 1) (serves_25 (attempts empty_world))
  = Return results_25 /\
  0 < total_count results_25 /\
  seen_get (criteria_key (criteria (mkParams bucket_low 1))) (seen empty_world)
  = None /\
  (let w' := snd (tryFetchWithParams two_buckets None first_index serves_25 1
                    (mkParams bucket_low 1) empty_world) in
   let pageCount := Z.min (ceil_div10 (total_count results_25)) MAX_PAGES in
   seen_get (criteria_key (criteria (mkParams bucket_low 1))) (seen w')
   = Some (mkProgress [page (mkParams bucket_low 1)] (Some pageCount)
             (1 >=? pageCount)) /\
   1 <= pageCount <= MAX_PAGES /\
   (pageCount - 1) * PER_PAGE < total_count results_25 /\
   (total_count results_25 <= pageCount * PER_PAGE \/ pageCount = MAX_PAGES) /\
   ((1 >=? pageCount) = true <-> total_count results_25 <= PER_PAGE)).
Proof.
  assert (H : 0 < total_count results_25) by (cbn; lia).
  split; [reflexivity|]. split; [exact H|]. split; [reflexivity|].
  exact (@first_response_sets_the_page_count two_buckets None first_index
           serves_25 0%nat (mkParams bucket_low 1) empty_world results_25
           eq_refl H eq_refl).
Defined.
